(** * The popup lifecycle of flit.ui: [PopupState] and the [popup] binding

    A shallow embedding of [popup-helpers/popup-state.ts] (class
    [PopupState]) and of [bindings/popup.ts] (class [popup]), with the
    properties of their specification proved over it.

    The two classes mutate their own fields, a heap of [Timeout] objects,
    the process-wide [SharedPopups] registry and the document.  All of that
    is one record, [World], threaded through a state-and-exception monad
    [M].  An [async] method is cut at each [await]: the part before it is an
    [M] computation that leaves a [Task] behind, the part after it is the
    [M] computation run when the task is resumed. *)

From Stdlib Require Import ZArith Bool List Lia.
From stdpp Require Import base gmap strings list.
Import ListNotations.

Local Open Scope Z_scope.

(** ** Data *)

(** [TriggerType] of [popup-trigger-binder]. *)
Inductive TriggerType := hover | click | focus | contextmenu | none.

(** The value of a transition function such as [fade()]: an object, thus
    always truthy. *)
Inductive TransitionResult := fade | transitionResult (id : nat).

(** Elements the binding handles: its trigger element [this.el], the root
    element [popup.el] of a [Popup] component, any other element. *)
Inductive Element := TriggerEl | PopupEl (popup : nat) | OtherEl (id : nat).

(** [alignTo: string | ((trigger: Element) => Element)]; a function is
    represented by what it returns for the trigger element ([None] for
    [null] or [undefined], which the code guards against with [??]). *)
Inductive AlignTo := AlignSelector (selector : string) | AlignFn (result : option Element).

Record AlignerOptions := mkAlignerOptions {
  ao_gap : Z;
  ao_stickToEdges : bool;
  ao_canSwapPosition : bool;
  ao_canShrinkOnY : bool;
  ao_fixTriangle : bool;
  ao_triangle : option Element;
}.

(** [PartialKeys<PopupOptions, 'key' | 'alignTo' | 'transition'>]: the type
    of [this.options].  [None] is [undefined]. *)
Record PopupOptions := mkPopupOptions {
  gap : Z;
  stickToEdges : bool;
  canSwapPosition : bool;
  canShrinkOnY : bool;
  fixTriangle : bool;
  key : option string;
  trigger : TriggerType;
  alignTo : option AlignTo;
  alignPosition : string;
  showDelay : Z;
  hideDelay : Z;
  transition : option TransitionResult;
  showImmediately : bool;
  autoFocus : bool;
  pointable : bool;
  cacheable : bool;
  keepVisible : bool;
}.

(** [Partial<PopupOptions>], the second argument of [update]: [None] is a
    property that is absent.  [transition] may be present and [undefined]
    (the type of [this.options] provides for it), hence the two levels. *)
Record PartialPopupOptions := mkPartialPopupOptions {
  p_gap : option Z;
  p_stickToEdges : option bool;
  p_canSwapPosition : option bool;
  p_canShrinkOnY : option bool;
  p_fixTriangle : option bool;
  p_key : option string;
  p_trigger : option TriggerType;
  p_alignTo : option AlignTo;
  p_alignPosition : option string;
  p_showDelay : option Z;
  p_hideDelay : option Z;
  p_transition : option (option TransitionResult);
  p_showImmediately : option bool;
  p_autoFocus : option bool;
  p_pointable : option bool;
  p_cacheable : option bool;
  p_keepVisible : option bool;
}.

(** [DefaultPopupOptions]. *)
Definition DefaultPopupOptions : PopupOptions := {|
  gap := 4;
  stickToEdges := true;
  canSwapPosition := true;
  canShrinkOnY := true;
  fixTriangle := false;
  key := None;
  trigger := hover;
  alignTo := None;
  alignPosition := "b";
  showDelay := 100;
  hideDelay := 200;
  transition := Some fade;
  showImmediately := false;
  autoFocus := false;
  pointable := true;
  cacheable := false;
  keepVisible := false;
|}.

(** The events of [PopupState]. *)
Inductive PopupStateEvent := do_show | do_hide.

(** The two closures [PopupState] hands to [new Timeout]. *)
Inductive TimeoutFn :=
| showTimeoutFn   (* () => {this.showTimeout = null; this.show()} *)
| hideTimeoutFn.  (* () => {this.hide()} *)

(** Modelled from the spec: [Timeout] of [@pucelle/ff], "a
    scheduled-callback/timer primitive with [cancel()]"; constructing one
    schedules the callback, and it is outstanding ([t_running]) until it
    fires or is canceled. *)
Record Timeout := mkTimeout {
  t_fn : TimeoutFn;
  t_ms : Z;
  t_running : bool;
}.

(** The fields of [PopupState]; a [Timeout] is referred to by its index in
    the heap of [Timeout] objects. *)
Record PopupState := mkPopupState {
  opened : bool;
  willShowSoon : bool;
  willHideSoon : bool;
  showTimeout : option nat;
  hideTimeout : option nat;
}.

(** Modelled from the spec: the state of [PopupTriggerBinder], whose source
    is not at hand: its trigger type and which leave detection is bound
    ([bindLeaveBeforeShow] on the trigger alone, [bindLeave] on trigger and
    popup element). *)
Inductive LeaveBinding :=
| LeaveUnbound
| LeaveBeforeShow
| LeaveBound (hideDelay : Z) (popupEl : Element).

Record PopupTriggerBinder := mkBinder {
  b_trigger : TriggerType;
  b_enterBound : bool;
  b_leave : LeaveBinding;
}.

Record Aligner := mkAligner {
  a_content : Element;
  a_anchor : Element;
  a_position : string;
  a_options : AlignerOptions;
}.

(** The fields of the [popup] binding.  A renderer, a render result and a
    [Popup] component are referred to by a number. *)
Record Binding := mkBinding {
  state : PopupState;
  binder : PopupTriggerBinder;
  options : PopupOptions;
  renderer : option nat;
  unwatchRect : option nat;      (* [None] is [noop] *)
  rendered : option nat;
  popup : option nat;
  aligner : option Aligner;
  preventedHiding : bool;
}.

(** Modelled from the spec: an entry of the [SharedPopups] registry,
    [{popup, rendered, user}]; the user is this binding or another one, of
    which only [opened] matters here. *)
Inductive PopupUser := ThisBinding | OtherBinding (isOpened : bool).

Record PopupCacheItem := mkCacheItem {
  c_popup : nat;
  c_rendered : nat;
  c_user : option PopupUser;
}.

(** What the code sees of the document, of the rendering framework
    ([@pucelle/lupos.js]) and of the layout services ([@pucelle/ff]): the
    answers they give, and the few things the code changes in them.
    [popupFrom] is [Popup.from] of the [Popup] component, which the
    specification describes as recognizing "a recognized popup-type root". *)
Record Dom := mkDom {
  attached : gset nat;                   (* the [Popup]s whose element is in the document *)
  pointerEvents : gmap nat string;       (* [popup.el.style.pointerEvents] *)
  popupFrom : nat -> option nat;         (* [Popup.from(rendered.el.firstElementChild)] *)
  ownerDocument : nat -> bool;           (* [!!popup.el.ownerDocument] *)
  tabIndex : nat -> Z;                   (* [popup.el.tabIndex] *)
  querySelector : string -> option Element;  (* [this.el.querySelector(selector)] *)
  triangle : nat -> option Element;      (* [popup.el.querySelector("[class$='-triangle']")] *)
  rectIntersectsViewport : bool;         (* [DOMUtils.isRectIntersectWithViewport(el.getBoundingClientRect())] *)
  alignable : bool;                      (* what [Aligner.align()] answers *)
  renderCount : nat;                     (* render results created so far *)
  watchCount : nat;                      (* layout watchers created so far *)
  watching : gset nat;                   (* layout watchers not yet unbound *)
}.

(** The calls made to collaborators, in order. *)
Inductive Action :=
| FirePopupState (e : PopupStateEvent)       (* [state.fire], when no handler is modelled *)
| FireOpenedChange (o : bool)                (* [this.fire('opened-change', o)] *)
| FireWillAlign                              (* [this.fire('will-align')] *)
| TransitionLeave (t : TransitionResult)
| TransitionEnter (t : TransitionResult)
| PopupRemove (popup : nat)
| PopupApplyAppendTo (popup : nat)
| PopupSetBinding (popup : nat)
| SetPointerEvents (popup : nat) (value : string)
| Focus (popup : nat)
| Render (renderer : option nat) (result : nat)
| SetRenderer (rendered : nat) (renderer : option nat)
| SharedPopupsAdd (k : string) (popup rendered : nat)
| SharedPopupsSetUser (popup : nat)
| SharedPopupsClearUser (popup : nat)
| BinderSetTriggerType (t : TriggerType)
| BinderBindEnter
| BinderBindLeaveBeforeShow
| BinderBindLeave (hideDelay : Z) (popupEl : Element)
| BinderUnbindLeave
| LayoutWatch (id : nat)
| LayoutUnwatch (id : nat)
| NewAligner (a : Aligner)
| Align (ok : bool).

(** The continuation of an [async] method suspended at an [await]. *)
Inductive Task :=
| ResumeUpdatePopup (awaited : bool)   (* after [await untilComplete()]; [awaited] when [doingShowPopup] awaits it *)
| ResumeDoingShowPopup                 (* after [await this.updatePopup()] *)
| ResumeDoingHidePopup.                (* after [await this.transition.leave(...)] *)

Inductive Error :=
| ConfigurationError   (* The "renderer" of ":popup(renderer)" must render a "<Popup>" type of component! *)
| TypeError.           (* a property read on [null] *)

Record World := mkWorld {
  this : Binding;
  timeouts : list Timeout;
  shared : gmap string PopupCacheItem;
  dom : Dom;
  pending : list Task;
  rejected : list Error;     (* rejections of promises nobody awaits *)
  log : list Action;
}.

(** ** Field updates *)

Definition set_opened (v : bool) (s : PopupState) : PopupState :=
  mkPopupState v (willShowSoon s) (willHideSoon s) (showTimeout s) (hideTimeout s).
Definition set_willShowSoon (v : bool) (s : PopupState) : PopupState :=
  mkPopupState (opened s) v (willHideSoon s) (showTimeout s) (hideTimeout s).
Definition set_willHideSoon (v : bool) (s : PopupState) : PopupState :=
  mkPopupState (opened s) (willShowSoon s) v (showTimeout s) (hideTimeout s).
Definition set_showTimeout (v : option nat) (s : PopupState) : PopupState :=
  mkPopupState (opened s) (willShowSoon s) (willHideSoon s) v (hideTimeout s).
Definition set_hideTimeout (v : option nat) (s : PopupState) : PopupState :=
  mkPopupState (opened s) (willShowSoon s) (willHideSoon s) (showTimeout s) v.

Definition set_running (v : bool) (t : Timeout) : Timeout :=
  mkTimeout (t_fn t) (t_ms t) v.

Definition set_b_trigger (v : TriggerType) (b : PopupTriggerBinder) : PopupTriggerBinder :=
  mkBinder v (b_enterBound b) (b_leave b).
Definition set_b_enterBound (v : bool) (b : PopupTriggerBinder) : PopupTriggerBinder :=
  mkBinder (b_trigger b) v (b_leave b).
Definition set_b_leave (v : LeaveBinding) (b : PopupTriggerBinder) : PopupTriggerBinder :=
  mkBinder (b_trigger b) (b_enterBound b) v.

Definition set_state (v : PopupState) (b : Binding) : Binding :=
  mkBinding v (binder b) (options b) (renderer b) (unwatchRect b) (rendered b) (popup b)
    (aligner b) (preventedHiding b).
Definition set_binder (v : PopupTriggerBinder) (b : Binding) : Binding :=
  mkBinding (state b) v (options b) (renderer b) (unwatchRect b) (rendered b) (popup b)
    (aligner b) (preventedHiding b).
Definition set_options (v : PopupOptions) (b : Binding) : Binding :=
  mkBinding (state b) (binder b) v (renderer b) (unwatchRect b) (rendered b) (popup b)
    (aligner b) (preventedHiding b).
Definition set_renderer (v : option nat) (b : Binding) : Binding :=
  mkBinding (state b) (binder b) (options b) v (unwatchRect b) (rendered b) (popup b)
    (aligner b) (preventedHiding b).
Definition set_unwatchRect (v : option nat) (b : Binding) : Binding :=
  mkBinding (state b) (binder b) (options b) (renderer b) v (rendered b) (popup b)
    (aligner b) (preventedHiding b).
Definition set_rendered (v : option nat) (b : Binding) : Binding :=
  mkBinding (state b) (binder b) (options b) (renderer b) (unwatchRect b) v (popup b)
    (aligner b) (preventedHiding b).
Definition set_popup (v : option nat) (b : Binding) : Binding :=
  mkBinding (state b) (binder b) (options b) (renderer b) (unwatchRect b) (rendered b) v
    (aligner b) (preventedHiding b).
Definition set_aligner (v : option Aligner) (b : Binding) : Binding :=
  mkBinding (state b) (binder b) (options b) (renderer b) (unwatchRect b) (rendered b) (popup b)
    v (preventedHiding b).
Definition set_preventedHiding (v : bool) (b : Binding) : Binding :=
  mkBinding (state b) (binder b) (options b) (renderer b) (unwatchRect b) (rendered b) (popup b)
    (aligner b) v.

Definition set_canSwapPosition (v : bool) (o : PopupOptions) : PopupOptions :=
  mkPopupOptions (gap o) (stickToEdges o) v (canShrinkOnY o) (fixTriangle o) (key o)
    (trigger o) (alignTo o) (alignPosition o) (showDelay o) (hideDelay o) (transition o)
    (showImmediately o) (autoFocus o) (pointable o) (cacheable o) (keepVisible o).

Definition set_attached (v : gset nat) (d : Dom) : Dom :=
  mkDom v (pointerEvents d) (popupFrom d) (ownerDocument d) (tabIndex d) (querySelector d)
    (triangle d) (rectIntersectsViewport d) (alignable d) (renderCount d) (watchCount d)
    (watching d).
Definition set_pointerEvents (v : gmap nat string) (d : Dom) : Dom :=
  mkDom (attached d) v (popupFrom d) (ownerDocument d) (tabIndex d) (querySelector d)
    (triangle d) (rectIntersectsViewport d) (alignable d) (renderCount d) (watchCount d)
    (watching d).
Definition set_renderCount (v : nat) (d : Dom) : Dom :=
  mkDom (attached d) (pointerEvents d) (popupFrom d) (ownerDocument d) (tabIndex d)
    (querySelector d) (triangle d) (rectIntersectsViewport d) (alignable d) v (watchCount d)
    (watching d).
Definition set_watchCount (v : nat) (d : Dom) : Dom :=
  mkDom (attached d) (pointerEvents d) (popupFrom d) (ownerDocument d) (tabIndex d)
    (querySelector d) (triangle d) (rectIntersectsViewport d) (alignable d) (renderCount d) v
    (watching d).
Definition set_watching (v : gset nat) (d : Dom) : Dom :=
  mkDom (attached d) (pointerEvents d) (popupFrom d) (ownerDocument d) (tabIndex d)
    (querySelector d) (triangle d) (rectIntersectsViewport d) (alignable d) (renderCount d)
    (watchCount d) v.

Definition set_rectIntersectsViewport (v : bool) (d : Dom) : Dom :=
  mkDom (attached d) (pointerEvents d) (popupFrom d) (ownerDocument d) (tabIndex d)
    (querySelector d) (triangle d) v (alignable d) (renderCount d) (watchCount d)
    (watching d).
Definition set_alignable (v : bool) (d : Dom) : Dom :=
  mkDom (attached d) (pointerEvents d) (popupFrom d) (ownerDocument d) (tabIndex d)
    (querySelector d) (triangle d) (rectIntersectsViewport d) v (renderCount d)
    (watchCount d) (watching d).

Definition set_this (v : Binding) (w : World) : World :=
  mkWorld v (timeouts w) (shared w) (dom w) (pending w) (rejected w) (log w).
Definition set_timeouts (v : list Timeout) (w : World) : World :=
  mkWorld (this w) v (shared w) (dom w) (pending w) (rejected w) (log w).
Definition set_shared (v : gmap string PopupCacheItem) (w : World) : World :=
  mkWorld (this w) (timeouts w) v (dom w) (pending w) (rejected w) (log w).
Definition set_dom (v : Dom) (w : World) : World :=
  mkWorld (this w) (timeouts w) (shared w) v (pending w) (rejected w) (log w).
Definition set_pending (v : list Task) (w : World) : World :=
  mkWorld (this w) (timeouts w) (shared w) (dom w) v (rejected w) (log w).
Definition set_rejected (v : list Error) (w : World) : World :=
  mkWorld (this w) (timeouts w) (shared w) (dom w) (pending w) v (log w).
Definition set_log (v : list Action) (w : World) : World :=
  mkWorld (this w) (timeouts w) (shared w) (dom w) (pending w) (rejected w) v.

(** ** The monad of a synchronous run: state, and an exception that may be
    thrown (the mutations done before a throw stay done). *)

Inductive Result (A : Type) := Ok (a : A) | Throw (e : Error).
Arguments Ok {A} a.
Arguments Throw {A} e.

Definition M (A : Type) : Type := World -> Result A * World.

Definition ret {A} (a : A) : M A := fun w => (Ok a, w).
Definition throw {A} (e : Error) : M A := fun w => (Throw e, w).
Definition bind {A B} (m : M A) (k : A -> M B) : M B :=
  fun w => match m w with
           | (Ok a, w') => k a w'
           | (Throw e, w') => (Throw e, w')
           end.

Notation "'let*' x ':=' m 'in' k" := (bind m (fun x => k))
  (at level 10, x name, m at level 100, k at level 200).
Notation "m '>>' k" := (bind m (fun _ => k))
  (at level 100, k at level 200, right associativity).

Definition read {A} (f : World -> A) : M A := fun w => (Ok (f w), w).
Definition modify (f : World -> World) : M unit := fun w => (Ok tt, f w).

Definition getState : M PopupState := read (fun w => state (this w)).
Definition modState (f : PopupState -> PopupState) : M unit :=
  modify (fun w => set_this (set_state (f (state (this w))) (this w)) w).
Definition modThis (f : Binding -> Binding) : M unit :=
  modify (fun w => set_this (f (this w)) w).
Definition modBinder (f : PopupTriggerBinder -> PopupTriggerBinder) : M unit :=
  modThis (fun b => set_binder (f (binder b)) b).
Definition modDom (f : Dom -> Dom) : M unit :=
  modify (fun w => set_dom (f (dom w)) w).
Definition emit (a : Action) : M unit :=
  modify (fun w => set_log (log w ++ [a]) w).
Definition suspend (t : Task) : M unit :=
  modify (fun w => set_pending (pending w ++ [t]) w).

(** ** [Timeout] *)

(** [new Timeout(fn, ms)]: a new object on the heap, scheduled. *)
Definition newTimeout (fn : TimeoutFn) (ms : Z) : M nat :=
  fun w => (Ok (length (timeouts w)),
            set_timeouts (timeouts w ++ [mkTimeout fn ms true]) w).

(** [timeout.cancel()]. *)
Definition cancel (id : nat) : M unit :=
  modify (fun w => set_timeouts (alter (set_running false) id (timeouts w)) w).

(** [timeout?.cancel()]. *)
Definition cancel_opt (t : option nat) : M unit :=
  match t with
  | Some id => cancel id
  | None => ret tt
  end.

(** ** [PopupState]

    [fire] is [this.fire] of [EventFirer], which calls the handlers
    registered with [on] synchronously; the class is given it as a
    parameter. *)

Module PopupStateClass.
Section Methods.

Variable fire : PopupStateEvent -> M unit.

(** [willNotShow()] *)
Definition willNotShow : M unit :=
  let* s := getState in
  cancel_opt (showTimeout s) >>
  modState (set_willShowSoon false).

(** [willNotHide()] *)
Definition willNotHide : M unit :=
  let* s := getState in
  cancel_opt (hideTimeout s) >>
  modState (set_hideTimeout None) >>
  modState (set_willHideSoon false).

(** [show()] *)
Definition show : M unit :=
  willNotShow >>
  willNotHide >>
  let* s := getState in
  if negb (opened s) then
    modState (set_opened true) >>
    fire do_show
  else ret tt.

(** [hide()] *)
Definition hide : M unit :=
  willNotShow >>
  willNotHide >>
  let* s := getState in
  if opened s then
    modState (set_opened false) >>
    fire do_hide
  else ret tt.

(** [willShow(showDelay)] *)
Definition willShow (showDelay : Z) : M bool :=
  let* s := getState in
  if opened s || willShowSoon s then ret false
  else
    (if showDelay >? 0 then
       let* t := newTimeout showTimeoutFn showDelay in
       modState (set_showTimeout (Some t)) >>
       modState (set_willShowSoon true)
     else show) >>
    ret true.

(** [willHide(hideDelay)] *)
Definition willHide (hideDelay : Z) : M bool :=
  let* s := getState in
  if negb (opened s) || willHideSoon s then ret false
  else
    (if hideDelay >? 0 then
       let* t := newTimeout hideTimeoutFn hideDelay in
       modState (set_hideTimeout (Some t)) >>
       modState (set_willHideSoon true)
     else hide) >>
    ret true.

(** [clear()] *)
Definition clear : M unit :=
  willNotShow >>
  willNotHide >>
  modState (set_opened false).

(** The body of the closure given to [new Timeout]. *)
Definition callTimeoutFn (fn : TimeoutFn) : M unit :=
  match fn with
  | showTimeoutFn => modState (set_showTimeout None) >> show
  | hideTimeoutFn => hide
  end.

(** The timer [id] elapses: an outstanding [Timeout] stops being
    outstanding and its callback runs; one that was canceled or has fired
    does nothing. *)
Definition fireTimeout (id : nat) : M unit :=
  let* ts := read timeouts in
  match ts !! id with
  | Some t =>
      if t_running t then cancel id >> callTimeoutFn (t_fn t)
      else ret tt
  | None => ret tt
  end.

End Methods.
End PopupStateClass.

(** ** Collaborators of the binding *)

#[global] Instance Element_eq_dec : EqDecision Element.
Proof. solve_decision. Defined.

(** A string is truthy when it is not empty. *)
Definition truthy (s : option string) : option string :=
  match s with
  | Some EmptyString => None
  | _ => s
  end.

(** Modelled from the spec: [popup.remove()] of the [Popup] component
    ([components/popup.ts] is not at hand), which "physically remove[s] the
    popup node" from the document. *)
Definition Popup_remove (p : nat) : M unit :=
  emit (PopupRemove p) >>
  modDom (fun d => set_attached (attached d ∖ {[p]}) d).

Module SharedPopups.

(** Modelled from the spec: [find(key)], "existing entry or none"
    ([popup-helpers/shared-popups.ts] is not at hand). *)
Definition find (k : string) : M (option PopupCacheItem) :=
  read (fun w => shared w !! k).

(** Modelled from the spec: [isCacheOpened(key)], "whether the cached popup
    for a key is currently shown". *)
Definition cacheOpened (k : string) (w : World) : bool :=
  match shared w !! k with
  | Some c =>
      match c_user c with
      | Some ThisBinding => opened (state (this w))
      | Some (OtherBinding o) => o
      | None => false
      end
  | None => false
  end.

Definition isCacheOpened (k : string) : M bool := read (cacheOpened k).

(** Modelled from the spec: [add(key, {popup, rendered})], "inserts/replaces,
    evicting any previous entry for that key (removing its content from the
    document if the previous user no longer claims it)". *)
Definition add (k : string) (p r : nat) : M unit :=
  emit (SharedPopupsAdd k p r) >>
  let* old := find k in
  match old with
  | Some c =>
      (if negb (c_popup c =? p)%nat && negb (bool_decide (is_Some (c_user c)))
       then Popup_remove (c_popup c)
       else ret tt) >>
      modify (fun w => set_shared (<[k := mkCacheItem p r None]> (shared w)) w)
  | None =>
      modify (fun w => set_shared (<[k := mkCacheItem p r None]> (shared w)) w)
  end.

Definition withUser (p : nat) (u : option PopupUser) (c : PopupCacheItem) : PopupCacheItem :=
  if (c_popup c =? p)%nat then mkCacheItem (c_popup c) (c_rendered c) u else c.

(** Modelled from the spec: [setUser(popup, binding)] and
    [clearUser(popup)], which "manage the back-reference". *)
Definition setUser (p : nat) : M unit :=
  emit (SharedPopupsSetUser p) >>
  modify (fun w => set_shared (withUser p (Some ThisBinding) <$> shared w) w).

Definition clearUser (p : nat) : M unit :=
  emit (SharedPopupsClearUser p) >>
  modify (fun w => set_shared (withUser p None <$> shared w) w).

End SharedPopups.

Module Binder.

(** Modelled from the spec: the methods of [PopupTriggerBinder] the binding
    calls ([popup-helpers/popup-trigger-binder.ts] is not at hand). *)
Definition setTriggerType (t : TriggerType) : M unit :=
  emit (BinderSetTriggerType t) >> modBinder (set_b_trigger t).

Definition bindEnter : M unit :=
  emit BinderBindEnter >> modBinder (set_b_enterBound true).

Definition bindLeaveBeforeShow : M unit :=
  emit BinderBindLeaveBeforeShow >> modBinder (set_b_leave LeaveBeforeShow).

Definition bindLeave (hideDelay : Z) (popupEl : Element) : M unit :=
  emit (BinderBindLeave hideDelay popupEl) >>
  modBinder (set_b_leave (LeaveBound hideDelay popupEl)).

Definition unbindLeave : M unit :=
  emit BinderUnbindLeave >> modBinder (set_b_leave LeaveUnbound).

End Binder.

(** Modelled from the spec: [popup.applyAppendTo()] of the [Popup]
    component, "append to the document (even if technically already
    attached)". *)
Definition Popup_applyAppendTo (p : nat) : M unit :=
  emit (PopupApplyAppendTo p) >>
  modDom (fun d => set_attached ({[p]} ∪ attached d) d).

(** [render(renderer)]: a new render result. *)
Definition render (r : option nat) : M nat :=
  let* n := read (fun w => renderCount (dom w)) in
  emit (Render r n) >>
  modDom (set_renderCount (S n)) >>
  ret n.

(** [LayoutWatcher.watch(this.el, 'rect', callback)]: a new watcher. *)
Definition LayoutWatcher_watch : M nat :=
  let* n := read (fun w => watchCount (dom w)) in
  emit (LayoutWatch n) >>
  modDom (fun d => set_watching ({[n]} ∪ watching d) (set_watchCount (S n) d)) >>
  ret n.

(** [this.x!.y]: reading a property of [null] throws. *)
Definition nonNull {A} (x : option A) : M A :=
  match x with
  | Some a => ret a
  | None => throw TypeError
  end.

(** ** The [popup] binding *)

Definition getOptions : M PopupOptions := read (fun w => options (this w)).

(** [this.unwatchRect()] *)
Definition callUnwatchRect : M unit :=
  let* u := read (fun w => unwatchRect (this w)) in
  match u with
  | Some id =>
      emit (LayoutUnwatch id) >>
      modDom (fun d => set_watching (watching d ∖ {[id]}) d)
  | None => ret tt
  end.

(** The last three statements of [doingHidePopup]. *)
Definition doingHidePopup_end : M unit :=
  Binder.unbindLeave >>
  callUnwatchRect >>
  modThis (set_preventedHiding false).

(** [doingHidePopup()], up to its [await]. *)
Definition doingHidePopup : M unit :=
  let* o := getOptions in
  match transition o with
  | Some t =>
      emit (TransitionLeave t) >>
      suspend ResumeDoingHidePopup
  | None => doingHidePopup_end
  end.

(** [doingHidePopup()], from the [await] on; [finish] is what the promise of
    [transition.leave] resolved to. *)
Definition doingHidePopup_resume (finish : bool) : M unit :=
  (if finish then
     let* p := read (fun w => popup (this w)) in
     match p with
     | Some p => Popup_remove p
     | None => ret tt
     end
   else ret tt) >>
  let* s := getState in
  if opened s then ret tt
  else doingHidePopup_end.

(** [doHidePopup()] *)
Definition doHidePopup : M unit :=
  doingHidePopup >>
  emit (FireOpenedChange false).

(** [updateRenderedProperty()] *)
Definition updateRenderedProperty : M unit :=
  let* b := read this in
  (match rendered b with
   | Some r => emit (SetRenderer r (renderer b))
   | None => ret tt
   end) >>
  (match rendered b with
   | Some _ => ret tt
   | None =>
       let* cache :=
         match truthy (key (options b)) with
         | Some k => SharedPopups.find k
         | None => ret None
         end in
       match cache with
       | Some c =>
           modThis (set_rendered (Some (c_rendered c))) >>
           modThis (set_popup (Some (c_popup c)))
       | None => ret tt
       end
   end) >>
  let* b := read this in
  match rendered b with
  | Some _ => ret tt
  | None =>
      let* r := render (renderer b) in
      modThis (set_rendered (Some r))
  end.

(** [updatePopup()], up to its [await]; [awaited] tells whether the caller
    awaits the promise. *)
Definition updatePopup (awaited : bool) : M unit :=
  updateRenderedProperty >>
  suspend (ResumeUpdatePopup awaited).

(** [doingShowPopup()], up to its [await]. *)
Definition doingShowPopup : M unit :=
  updatePopup true.

(** [doShowPopup()] *)
Definition doShowPopup : M unit :=
  doingShowPopup >>
  emit (FireOpenedChange true).

(** The handlers [initEvents] registers on [this.state]. *)
Definition stateFire (e : PopupStateEvent) : M unit :=
  match e with
  | do_show => doShowPopup
  | do_hide => doHidePopup
  end.

(** [this.state.m()] for the methods of [PopupState]. *)
Module State.
Definition willShow := PopupStateClass.willShow stateFire.
Definition willNotShow := PopupStateClass.willNotShow.
Definition willHide := PopupStateClass.willHide stateFire.
Definition willNotHide := PopupStateClass.willNotHide.
Definition show := PopupStateClass.show stateFire.
Definition hide := PopupStateClass.hide stateFire.
Definition clear := PopupStateClass.clear.
Definition fireTimeout := PopupStateClass.fireTimeout stateFire.
End State.

(** [showPopupLater()] *)
Definition effectiveShowDelay (o : PopupOptions) (cacheOpened : bool) (t : TriggerType) : Z :=
  let showDelay := showDelay o in
  let showDelay := if cacheOpened then 0 else showDelay in
  let showDelay :=
    match t with
    | click | focus => 0
    | _ => showDelay
    end in
  showDelay.

Definition showPopupLater : M unit :=
  let* o := getOptions in
  let* cacheOpened :=
    match truthy (key o) with
    | Some k => SharedPopups.isCacheOpened k
    | None => ret false
    end in
  let* t := read (fun w => b_trigger (binder (this w))) in
  let* willShow := State.willShow (effectiveShowDelay o cacheOpened t) in
  if willShow then Binder.bindLeaveBeforeShow else ret tt.

(** [showPopup()] *)
Definition showPopup : M unit := State.show.

(** [hidePopupLater()] *)
Definition hidePopupLater : M unit :=
  let* o := getOptions in
  let hideDelay := hideDelay o in
  let* _ := State.willHide hideDelay in
  ret tt.

(** [hidePopup()] *)
Definition hidePopup : M unit := State.hide.

(** [onWillShow()] *)
Definition onWillShow : M unit := showPopupLater.

(** [onWillHide()] *)
Definition onWillHide : M unit :=
  let* o := getOptions in
  if keepVisible o then modThis (set_preventedHiding true)
  else hidePopupLater.

(** [onCancelShow()] *)
Definition onCancelShow : M unit :=
  let* s := getState in
  if opened s then hidePopup else State.willNotShow.

(** [onImmediateHide()] *)
Definition onImmediateHide : M unit :=
  let* o := getOptions in
  if keepVisible o then modThis (set_preventedHiding true)
  else hidePopup.

(** [onToggleShowHide()] *)
Definition onToggleShowHide : M unit :=
  let* s := getState in
  if opened s then State.hide else State.show.

(** [getAlignToElement()] *)
Definition getAlignToElement : M Element :=
  let* o := getOptions in
  match alignTo o with
  | None => ret TriggerEl
  | Some (AlignSelector EmptyString) => ret TriggerEl
  | Some (AlignFn result) => ret (default TriggerEl result)
  | Some (AlignSelector selector) =>
      let* found := read (fun w => querySelector (dom w) selector) in
      ret (default TriggerEl found)
  end.

(** [getAlignerOptions()] *)
Definition getAlignerOptions : M AlignerOptions :=
  let* p := read (fun w => popup (this w)) in
  let* p := nonNull p in
  let* triangle := read (fun w => triangle (dom w) p) in
  let* o := getOptions in
  ret {|
    ao_gap := gap o;
    ao_stickToEdges := stickToEdges o;
    ao_canSwapPosition := stickToEdges o;
    ao_canShrinkOnY := canShrinkOnY o;
    ao_fixTriangle := fixTriangle o;
    ao_triangle := triangle;
  |}.

(** The test [!this.aligner || this.aligner.anchor !== alignTo ||
    this.aligner.content !== this.popup!.el] of [alignPopup]. *)
Definition alignerOutdated (a : option Aligner) (alignTo content : Element) : bool :=
  match a with
  | None => true
  | Some a =>
      negb (bool_decide (a_anchor a = alignTo)) || negb (bool_decide (a_content a = content))
  end.

(** [alignPopup()] *)
Definition alignPopup : M bool :=
  let* s := getState in
  if negb (opened s) then ret false
  else
    emit FireWillAlign >>
    let* alignTo := getAlignToElement in
    let* a := read (fun w => aligner (this w)) in
    let* p := read (fun w => popup (this w)) in
    let* p := nonNull p in
    (if alignerOutdated a alignTo (PopupEl p) then
       let* o := getOptions in
       let* ao := getAlignerOptions in
       let a' := mkAligner (PopupEl p) alignTo (alignPosition o) ao in
       emit (NewAligner a') >>
       modThis (set_aligner (Some a'))
     else ret tt) >>
    let* aligned := read (fun w => alignable (dom w)) in
    emit (Align aligned) >>
    (if negb aligned then hidePopup else ret tt) >>
    ret aligned.

(** [mayGetFocus()] *)
Definition mayGetFocus : M unit :=
  let* t := read (fun w => b_trigger (binder (this w))) in
  let* p := read (fun w => popup (this w)) in
  let* p := nonNull p in
  let* o := getOptions in
  let* tabIndex := read (fun w => tabIndex (dom w) p) in
  if autoFocus o
     && match t with hover | focus => false | _ => true end
     && (tabIndex >=? 0)
  then emit (Focus p)
  else ret tt.

(** [appendPopup()] *)
Definition appendPopup : M unit :=
  let* p := read (fun w => popup (this w)) in
  let* p := nonNull p in
  let* inDomAlready := read (fun w => ownerDocument (dom w) p) in
  Popup_applyAppendTo p >>
  let* aligned := alignPopup in
  if negb aligned then ret tt
  else
    mayGetFocus >>
    let* o := getOptions in
    (match transition o with
     | Some t => if negb inDomAlready then emit (TransitionEnter t) else ret tt
     | None => ret tt
     end) >>
    let* id := LayoutWatcher_watch in
    modThis (set_unwatchRect (Some id)).

(** [updatePopupProperty(popup)] *)
Definition updatePopupProperty (p : nat) : M unit :=
  emit (PopupSetBinding p) >>
  let* o := getOptions in
  Binder.bindLeave (hideDelay o) (PopupEl p) >>
  modThis (set_popup (Some p)).

(** [updatePopup()], from its [await] on. *)
Definition updatePopup_resume : M unit :=
  let* s := getState in
  if negb (opened s) then ret tt
  else
    let* r := read (fun w => rendered (this w)) in
    let* r := nonNull r in
    let* p := read (fun w => popupFrom (dom w) r) in
    match p with
    | None => throw ConfigurationError
    | Some p =>
        let* o := getOptions in
        emit (SetPointerEvents p (if pointable o then "" else "none")) >>
        modDom (fun d => set_pointerEvents
                           (<[p := if pointable o then "" else "none"]> (pointerEvents d)) d) >>
        let* current := read (fun w => popup (this w)) in
        (if negb (bool_decide (Some p = current)) then updatePopupProperty p else ret tt) >>
        appendPopup >>
        let* o := getOptions in
        match truthy (key o) with
        | Some k =>
            SharedPopups.add k p r >>
            SharedPopups.setUser p
        | None => ret tt
        end
    end.

(** [doingShowPopup()], from its [await] on, when the awaited promise is
    fulfilled. *)
Definition doingShowPopup_resume : M unit :=
  let* _ := alignPopup in
  ret tt.

(** [onTriggerRectChanged()] *)
Definition onTriggerRectChanged : M unit :=
  let* intersects := read (fun w => rectIntersectsViewport (dom w)) in
  (if intersects then
     let* _ := alignPopup in ret tt
   else hidePopup) >>
  modThis (set_unwatchRect None).

(** [{...DefaultPopupOptions, ...options}] *)
Definition mergeOptions (d : PopupOptions) (o : PartialPopupOptions) : PopupOptions := {|
  gap := default (gap d) (p_gap o);
  stickToEdges := default (stickToEdges d) (p_stickToEdges o);
  canSwapPosition := default (canSwapPosition d) (p_canSwapPosition o);
  canShrinkOnY := default (canShrinkOnY d) (p_canShrinkOnY o);
  fixTriangle := default (fixTriangle d) (p_fixTriangle o);
  key := match p_key o with Some k => Some k | None => key d end;
  trigger := default (trigger d) (p_trigger o);
  alignTo := match p_alignTo o with Some a => Some a | None => alignTo d end;
  alignPosition := default (alignPosition d) (p_alignPosition o);
  showDelay := default (showDelay d) (p_showDelay o);
  hideDelay := default (hideDelay d) (p_hideDelay o);
  transition := default (transition d) (p_transition o);
  showImmediately := default (showImmediately d) (p_showImmediately o);
  autoFocus := default (autoFocus d) (p_autoFocus o);
  pointable := default (pointable d) (p_pointable o);
  cacheable := default (cacheable d) (p_cacheable o);
  keepVisible := default (keepVisible d) (p_keepVisible o);
|}.

(** The default value [{}] of the parameter [options] of [update]. *)
Definition noOptions : PartialPopupOptions :=
  mkPartialPopupOptions None None None None None None None None None None None None None None
    None None None.

(** [update(renderer, options)] *)
Definition update (r : nat) (o : PartialPopupOptions) : M unit :=
  modThis (set_renderer (Some r)) >>
  modThis (set_options (mergeOptions DefaultPopupOptions o)) >>
  let* s := getState in
  (if opened s then updatePopup false else ret tt) >>
  let* b := read this in
  if preventedHiding b && negb (keepVisible (options b)) then hidePopupLater
  else ret tt.

(** [afterConnectCallback()] *)
Definition afterConnectCallback : M unit :=
  let* o := getOptions in
  Binder.setTriggerType (trigger o) >>
  Binder.bindEnter >>
  if showImmediately o then showPopupLater else ret tt.

(** [beforeDisconnectCallback()] *)
Definition beforeDisconnectCallback : M unit :=
  let* b := read this in
  (match popup b with
   | Some p => if opened (state b) then Popup_remove p else ret tt
   | None => ret tt
   end) >>
  State.clear >>
  Binder.unbindLeave >>
  callUnwatchRect >>
  modThis (set_preventedHiding false).

(** [canContentReuse()] *)
Definition canContentReuse : M bool :=
  let* b := read this in
  match truthy (key (options b)) with
  | None => ret false
  | Some _ =>
      if keepVisible (options b) then ret (negb (opened (state b)))
      else ret true
  end.

(** [clearContent()] *)
Definition clearContent : M unit :=
  let* b := read this in
  (match popup b with
   | Some p => if opened (state b) then Popup_remove p else ret tt
   | None => ret tt
   end) >>
  (match truthy (key (options b)), popup b with
   | Some _, Some p => SharedPopups.clearUser p
   | _, _ => ret tt
   end) >>
  Binder.unbindLeave >>
  State.clear >>
  callUnwatchRect >>
  modThis (set_rendered None) >>
  modThis (set_popup None) >>
  modThis (set_aligner None) >>
  modThis (set_preventedHiding false).

(** ** The event loop

    A promise nobody awaits that is rejected: the error is recorded and the
    run goes on. *)
Definition settle (m : M unit) : M bool :=
  fun w => match m w with
           | (Ok _, w') => (Ok true, w')
           | (Throw e, w') => (Ok false, set_rejected (rejected w' ++ [e]) w')
           end.

(** A suspended [async] method goes on.  [finish] is what the awaited
    promise resolved to (it matters for [transition.leave] only). *)
Definition resume (t : Task) (finish : bool) : M unit :=
  match t with
  | ResumeUpdatePopup awaited =>
      let* fulfilled := settle updatePopup_resume in
      if fulfilled && awaited then suspend ResumeDoingShowPopup else ret tt
  | ResumeDoingShowPopup =>
      let* _ := settle doingShowPopup_resume in ret tt
  | ResumeDoingHidePopup =>
      doingHidePopup_resume finish
  end.

(** The promise the [i]-th suspended method awaits is settled: the method
    is no longer pending and goes on. *)
Definition settled (i : nat) (finish : bool) : M unit :=
  let* ts := read pending in
  match ts !! i with
  | Some t => modify (set_pending (delete i ts)) >> resume t finish
  | None => ret tt
  end.

(** ** Running a computation *)

(** Running a computation for its effect. *)
Definition exec {A} (m : M A) (w : World) : World := snd (m w).

Definition result {A} (m : M A) (w : World) : Result A := fst (m w).

(** The actions a computation adds to the log. *)
Definition emitted {A} (m : M A) (w : World) : list Action :=
  drop (length (log w)) (log (exec m w)).

(** ** Worlds to start from *)

(** The state of a binding just constructed, in a document [d]. *)
Definition newPopupState : PopupState := mkPopupState false false false None None.

Definition newBinding : Binding := {|
  state := newPopupState;
  binder := mkBinder hover false LeaveUnbound;
  options := DefaultPopupOptions;
  renderer := None;
  unwatchRect := None;
  rendered := None;
  popup := None;
  aligner := None;
  preventedHiding := false;
|}.

Definition newWorld (d : Dom) : World := {|
  this := newBinding;
  timeouts := [];
  shared := ∅;
  dom := d;
  pending := [];
  rejected := [];
  log := [];
|}.

(** A document in which the render result [r] has the [Popup] number [r]
    as its first element child, every element is focusable, the trigger is
    in the viewport and alignment succeeds. *)
Definition plainDom : Dom := {|
  attached := ∅;
  pointerEvents := ∅;
  popupFrom := fun r => Some r;
  ownerDocument := fun _ => true;
  tabIndex := fun _ => 0;
  querySelector := fun _ => None;
  triangle := fun _ => None;
  rectIntersectsViewport := true;
  alignable := true;
  renderCount := 0;
  watchCount := 0;
  watching := ∅;
|}.

(** A document in which no render result has a [Popup] as its first element
    child. *)
Definition noPopupDom : Dom := {|
  attached := ∅;
  pointerEvents := ∅;
  popupFrom := fun _ => None;
  ownerDocument := fun _ => true;
  tabIndex := fun _ => 0;
  querySelector := fun _ => None;
  triangle := fun _ => None;
  rectIntersectsViewport := true;
  alignable := true;
  renderCount := 0;
  watchCount := 0;
  watching := ∅;
|}.

(** Options as a caller writes them: only some properties given. *)
Definition withTrigger (t : TriggerType) (o : PartialPopupOptions) : PartialPopupOptions :=
  mkPartialPopupOptions (p_gap o) (p_stickToEdges o) (p_canSwapPosition o) (p_canShrinkOnY o)
    (p_fixTriangle o) (p_key o) (Some t) (p_alignTo o) (p_alignPosition o) (p_showDelay o)
    (p_hideDelay o) (p_transition o) (p_showImmediately o) (p_autoFocus o) (p_pointable o)
    (p_cacheable o) (p_keepVisible o).

Definition withShowDelay (d : Z) (o : PartialPopupOptions) : PartialPopupOptions :=
  mkPartialPopupOptions (p_gap o) (p_stickToEdges o) (p_canSwapPosition o) (p_canShrinkOnY o)
    (p_fixTriangle o) (p_key o) (p_trigger o) (p_alignTo o) (p_alignPosition o) (Some d)
    (p_hideDelay o) (p_transition o) (p_showImmediately o) (p_autoFocus o) (p_pointable o)
    (p_cacheable o) (p_keepVisible o).

Definition withKeepVisible (v : bool) (o : PartialPopupOptions) : PartialPopupOptions :=
  mkPartialPopupOptions (p_gap o) (p_stickToEdges o) (p_canSwapPosition o) (p_canShrinkOnY o)
    (p_fixTriangle o) (p_key o) (p_trigger o) (p_alignTo o) (p_alignPosition o) (p_showDelay o)
    (p_hideDelay o) (p_transition o) (p_showImmediately o) (p_autoFocus o) (p_pointable o)
    (p_cacheable o) (Some v).

Definition withCanSwapPosition (v : bool) (o : PartialPopupOptions) : PartialPopupOptions :=
  mkPartialPopupOptions (p_gap o) (p_stickToEdges o) (Some v) (p_canShrinkOnY o)
    (p_fixTriangle o) (p_key o) (p_trigger o) (p_alignTo o) (p_alignPosition o) (p_showDelay o)
    (p_hideDelay o) (p_transition o) (p_showImmediately o) (p_autoFocus o) (p_pointable o)
    (p_cacheable o) (p_keepVisible o).

(** A binding constructed in the document [d], given the renderer [r] and
    the options [o] by [update], then connected. *)
Definition connected (r : nat) (o : PartialPopupOptions) (d : Dom) : World :=
  exec afterConnectCallback (exec (update r o) (newWorld d)).

(** The same, with the popup shown: [showPopup()], then the two
    continuations of the show sequence. *)
Definition shown (r : nat) (o : PartialPopupOptions) (d : Dom) : World :=
  exec (settled 0 true) (exec (settled 0 true) (exec showPopup (connected r o d))).

(** A shown popup whose options have [keepVisible] set. *)
Definition keptVisible : World := shown 0 (withKeepVisible true noOptions) plainDom.

(** A shown popup is hidden and, while the leave transition plays, shown
    again: [hide()] then [show()].  Two methods are then suspended, in this
    order: [doingHidePopup()] at [await transition.leave(...)] and
    [updatePopup()] at [await untilComplete()]. *)
Definition hiddenThenShown : World :=
  exec showPopup (exec hidePopup (shown 0 noOptions plainDom)).

(** The rendering settles and the show sequence runs to its end. *)
Definition shownAgain : World :=
  exec (settled 1 true) (exec (settled 1 true) hiddenThenShown).

(** Then the leave transition, which nothing interrupted, finishes. *)
Definition afterLeave : World := exec (settled 0 true) shownAgain.

(** A shown popup whose trigger element has been scrolled out of the
    viewport, and one whose alignment target has become unusable. *)
Definition scrolledOut : World :=
  set_dom (set_rectIntersectsViewport false (dom (shown 0 noOptions plainDom)))
    (shown 0 noOptions plainDom).

Definition unalignable : World :=
  set_dom (set_alignable false (dom (shown 0 noOptions plainDom)))
    (shown 0 noOptions plainDom).

(** Options with [transition] given, possibly as [undefined]. *)
Definition withTransition (t : option TransitionResult) (o : PartialPopupOptions)
  : PartialPopupOptions :=
  mkPartialPopupOptions (p_gap o) (p_stickToEdges o) (p_canSwapPosition o) (p_canShrinkOnY o)
    (p_fixTriangle o) (p_key o) (p_trigger o) (p_alignTo o) (p_alignPosition o) (p_showDelay o)
    (p_hideDelay o) (Some t) (p_showImmediately o) (p_autoFocus o) (p_pointable o)
    (p_cacheable o) (p_keepVisible o).

(** A shown popup of a binding updated with [{transition: undefined}], and
    the same with its alignment target become unusable, or with its trigger
    element scrolled out of the viewport. *)
Definition shownNoTransition : World := shown 0 (withTransition None noOptions) plainDom.

Definition unalignableNoTransition : World :=
  set_dom (set_alignable false (dom shownNoTransition)) shownNoTransition.

Definition scrolledOutNoTransition : World :=
  set_dom (set_rectIntersectsViewport false (dom shownNoTransition)) shownNoTransition.

(** ** What is observed of a world and of a log *)

(** [this.opened] of the binding. *)
Definition isOpened (w : World) : bool := opened (state (this w)).

(** The actions of the show sequence that change the document, the popup or
    the registry: all those of [updatePopup()] past the point where it
    resolves the popup root. *)
Definition isShowMutation (a : Action) : bool :=
  match a with
  | SetPointerEvents _ _ | PopupSetBinding _ | BinderBindLeave _ _
  | PopupApplyAppendTo _ | PopupRemove _ | NewAligner _ | Align _ | Focus _
  | TransitionEnter _ | LayoutWatch _
  | SharedPopupsAdd _ _ _ | SharedPopupsSetUser _ | SharedPopupsClearUser _ => true
  | _ => false
  end.

(** The actions by which [alignPopup()] attempts an alignment. *)
Definition isAlignAction (a : Action) : bool :=
  match a with
  | FireWillAlign | NewAligner _ | Align _ => true
  | _ => false
  end.

Definition isShowTimeout (t : Timeout) : bool :=
  match t_fn t with
  | showTimeoutFn => true
  | hideTimeoutFn => false
  end.

(** The number of timers of a kind that are outstanding. *)
Fixpoint countOutstanding (kind : Timeout -> bool) (ts : list Timeout) : nat :=
  match ts with
  | [] => 0
  | t :: ts => ((if t_running t && kind t then 1 else 0) + countOutstanding kind ts)%nat
  end.

Definition showTimersOutstanding (w : World) : nat :=
  countOutstanding isShowTimeout (timeouts w).

(** How often a sequence of booleans, coming from [prev], goes from [false]
    to [true]. *)
Fixpoint rises (prev : bool) (l : list bool) : nat :=
  match l with
  | [] => 0
  | b :: l => ((if negb prev && b then 1 else 0) + rises b l)%nat
  end.

Definition isFired (e : PopupStateEvent) (a : Action) : bool :=
  match a, e with
  | FirePopupState do_show, do_show => true
  | FirePopupState do_hide, do_hide => true
  | _, _ => false
  end.

Fixpoint countFired (e : PopupStateEvent) (l : list Action) : nat :=
  match l with
  | [] => 0
  | a :: l => ((if isFired e a then 1 else 0) + countFired e l)%nat
  end.

(** ** [PopupState] on its own

    With no handler registered, firing an event only leaves a trace. *)
Definition logFire (e : PopupStateEvent) : M unit := emit (FirePopupState e).

(** The calls of property 1, [willShow] and [willNotShow]; a timer elapsing
    between them; and the calls that reset [opened], [hide()] and
    [clear()]. *)
Inductive Call :=
| WillShow (showDelay : Z)
| WillNotShow
| Elapse (id : nat)
| Hide
| Clear.

Definition call (c : Call) : M unit :=
  match c with
  | WillShow d => let* _ := PopupStateClass.willShow logFire d in ret tt
  | WillNotShow => PopupStateClass.willNotShow
  | Elapse id => PopupStateClass.fireTimeout logFire id
  | Hide => PopupStateClass.hide logFire
  | Clear => PopupStateClass.clear
  end.

Definition isReset (c : Call) : bool :=
  match c with
  | Hide | Clear => true
  | _ => false
  end.

(** The number of [hide()] and [clear()] calls of a sequence. *)
Fixpoint resets (cs : list Call) : nat :=
  match cs with
  | [] => 0
  | c :: cs => ((if isReset c then 1 else 0) + resets cs)%nat
  end.

(** The worlds after each call of a sequence. *)
Fixpoint runCalls (cs : list Call) (w : World) : list World :=
  match cs with
  | [] => []
  | c :: cs => let w' := exec (call c) w in w' :: runCalls cs w'
  end.

(** ** The words of the specification *)

(** The effective show delay in the words of the specification: "zero if a
    same-keyed popup is already open, zero for click/focus triggers, else
    the configured delay". *)
Definition sameKeyedPopupOpen (w : World) : bool :=
  match truthy (key (options (this w))) with
  | Some k => SharedPopups.cacheOpened k w
  | None => false
  end.

Definition spec_effectiveShowDelay (w : World) : Z :=
  if sameKeyedPopupOpen w then 0
  else
    match b_trigger (binder (this w)) with
    | click => 0
    | focus => 0
    | _ => showDelay (options (this w))
    end.

(** ** The worlds the methods leave, written out *)

(** The heap after [timeout?.cancel()]. *)
Definition canceled (t : option nat) (ts : list Timeout) : list Timeout :=
  match t with
  | Some id => alter (set_running false) id ts
  | None => ts
  end.

(** The world after [willNotShow(); willNotHide(); opened = o]. *)
Definition settledState (o : bool) (w : World) : World :=
  let s := state (this w) in
  set_this (set_state (mkPopupState o false false (showTimeout s) None) (this w))
    (set_timeouts (canceled (hideTimeout s) (canceled (showTimeout s) (timeouts w))) w).

(** The element [getAlignToElement()] returns. *)
Definition alignToElement (w : World) : Element :=
  match alignTo (options (this w)) with
  | None => TriggerEl
  | Some (AlignSelector EmptyString) => TriggerEl
  | Some (AlignFn result) => default TriggerEl result
  | Some (AlignSelector selector) => default TriggerEl (querySelector (dom w) selector)
  end.

(** The options [getAlignerOptions()] returns for the popup [p]. *)
Definition alignerOptions (w : World) (p : nat) : AlignerOptions := {|
  ao_gap := gap (options (this w));
  ao_stickToEdges := stickToEdges (options (this w));
  ao_canSwapPosition := stickToEdges (options (this w));
  ao_canShrinkOnY := canShrinkOnY (options (this w));
  ao_fixTriangle := fixTriangle (options (this w));
  ao_triangle := triangle (dom w) p;
|}.

(** The [Aligner] that [alignPopup()] constructs for the popup [p]. *)
Definition newAligner (w : World) (p : nat) : Aligner :=
  mkAligner (PopupEl p) (alignToElement w) (alignPosition (options (this w)))
    (alignerOptions w p).

(** The world after the alignment attempt of [alignPopup()], before it
    looks at the answer. *)
Definition alignedWorld (w : World) (p : nat) : World :=
  let w1 := set_log (log w ++ [FireWillAlign]) w in
  let w2 :=
    if alignerOutdated (aligner (this w)) (alignToElement w) (PopupEl p) then
      set_this (set_aligner (Some (newAligner w p)) (this w1))
        (set_log (log w1 ++ [NewAligner (newAligner w p)]) w1)
    else w1 in
  set_log (log w2 ++ [Align (alignable (dom w))]) w2.

(** ** Invariants, and relations between worlds *)

(** Every outstanding show timer is the one [showTimeout] holds, and a show
    is then pending. *)
Definition ShowTimersTracked (w : World) : Prop :=
  forall id t, timeouts w !! id = Some t -> t_running t = true -> isShowTimeout t = true ->
    showTimeout (state (this w)) = Some id /\ willShowSoon (state (this w)) = true.

Definition NoShowTimer (w : World) : Prop :=
  forall id t, timeouts w !! id = Some t -> t_running t = true -> isShowTimeout t = false.

Definition OnlyShowTimers (w : World) : Prop :=
  forall id t, timeouts w !! id = Some t -> isShowTimeout t = true.

(** What one call does to [opened] and to the [do-show] events fired: it
    leaves them, or opens and fires once, or is a reset that closes. *)
Definition CallStep (c : Call) (w w' : World) : Prop :=
  OnlyShowTimers w' /\
  ((isOpened w' = isOpened w /\
    countFired do_show (log w') = countFired do_show (log w)) \/
   (isOpened w = false /\ isOpened w' = true /\
    countFired do_show (log w') = S (countFired do_show (log w))) \/
   (isReset c = true /\ isOpened w' = false /\
    countFired do_show (log w') = countFired do_show (log w))).

(** From [w] to [w'] the log only grew, by actions that satisfy [P]. *)
Definition Emits (P : Action -> Prop) (w w' : World) : Prop :=
  exists l, log w' = log w ++ l /\ Forall P l.

(** From [w] to [w'] no timer was scheduled: what is outstanding in [w']
    was so in [w]. *)
Definition Shrinks (w w' : World) : Prop :=
  forall id t, timeouts w' !! id = Some t -> t_running t = true -> timeouts w !! id = Some t.

(** A computation that relates every world to the one it leaves, whether it
    returns or throws. *)
Definition steps {A} (R : World -> World -> Prop) (m : M A) : Prop :=
  forall w, R w (exec m w).

(** A computation that leaves a component [f] of the world as it was. *)
Definition Keeps {X} (f : World -> X) (w w' : World) : Prop := f w' = f w.

(** A computation that never throws. *)
Definition returns {A} (m : M A) : Prop := forall w, exists a, result m w = Ok a.

(** ** Every call of [PopupState], and the event loop of the binding *)

(** Every method of [PopupState], and a timer elapsing. *)
Inductive StateCall :=
| CallWillShow (showDelay : Z)
| CallWillNotShow
| CallWillHide (hideDelay : Z)
| CallWillNotHide
| CallShow
| CallHide
| CallClear
| CallElapse (id : nat).

Section StateCalls.

Variable fire : PopupStateEvent -> M unit.

Definition stateCall (c : StateCall) : M unit :=
  match c with
  | CallWillShow d => let* _ := PopupStateClass.willShow fire d in ret tt
  | CallWillNotShow => PopupStateClass.willNotShow
  | CallWillHide d => let* _ := PopupStateClass.willHide fire d in ret tt
  | CallWillNotHide => PopupStateClass.willNotHide
  | CallShow => PopupStateClass.show fire
  | CallHide => PopupStateClass.hide fire
  | CallClear => PopupStateClass.clear
  | CallElapse id => PopupStateClass.fireTimeout fire id
  end.

(** The worlds after each call of a sequence. *)
Fixpoint runStateCalls (cs : list StateCall) (w : World) : list World :=
  match cs with
  | [] => []
  | c :: cs => let w' := exec (stateCall c) w in w' :: runStateCalls cs w'
  end.

End StateCalls.

Definition hideTimersOutstanding (w : World) : nat :=
  countOutstanding (fun t => negb (isShowTimeout t)) (timeouts w).

(** The states of the specification: a pending show only while not opened, a
    pending hide only while opened; and every outstanding timer is the one
    the state holds for its kind, with the matching flag set. *)
Definition StateCoherent (w : World) : Prop :=
  let s := state (this w) in
  (willShowSoon s = true -> opened s = false) /\
  (willHideSoon s = true -> opened s = true) /\
  (forall id t, timeouts w !! id = Some t -> t_running t = true ->
     match t_fn t with
     | showTimeoutFn => showTimeout s = Some id /\ willShowSoon s = true
     | hideTimeoutFn => hideTimeout s = Some id /\ willHideSoon s = true
     end).

(** No timer is outstanding. *)
Definition NoTimer (w : World) : Prop :=
  forall id t, timeouts w !! id = Some t -> t_running t = false.

(** A show is pending only while the popup is not opened, and a hide only
    while it is. *)
Definition pendingCoherent (w : World) : bool :=
  let s := state (this w) in
  negb (willShowSoon s && opened s) && negb (willHideSoon s && negb (opened s)).

(** The world a new [PopupState] is in after a sequence of calls. *)
Definition afterStateCalls (d : Dom) (cs : list StateCall) : World :=
  List.last (runStateCalls logFire cs (newWorld d)) (newWorld d).

(** ** The life of a binding

    What can happen to a binding once it is constructed: its part is
    connected or disconnected, the trigger binder fires one of the events
    [initEvents] listens to, a public method is called, a timer elapses, an
    awaited promise is settled, a layout watcher reports, or the document or
    the registry of shared popups changes under it. *)
Inductive Event :=
| Connected
| Disconnected
| BinderWillShow
| BinderWillHide
| BinderCancelShow
| BinderImmediateHide
| BinderToggleShowHide
| CallShowPopupLater
| CallShowPopup
| CallHidePopupLater
| CallHidePopup
| CallUpdate (r : nat) (o : PartialPopupOptions)
| CallCanContentReuse
| CallClearContent
| TimeoutElapsed (id : nat)
| PromiseSettled (i : nat) (finish : bool)
| RectChanged (id : nat)
| DocumentChanged (f : Dom -> Dom)
| RegistryChanged (f : gmap string PopupCacheItem -> gmap string PopupCacheItem).

Definition handle (e : Event) : M unit :=
  match e with
  | Connected => afterConnectCallback
  | Disconnected => beforeDisconnectCallback
  | BinderWillShow => onWillShow
  | BinderWillHide => onWillHide
  | BinderCancelShow => onCancelShow
  | BinderImmediateHide => onImmediateHide
  | BinderToggleShowHide => onToggleShowHide
  | CallShowPopupLater => showPopupLater
  | CallShowPopup => showPopup
  | CallHidePopupLater => hidePopupLater
  | CallHidePopup => hidePopup
  | CallUpdate r o => update r o
  | CallCanContentReuse => let* _ := canContentReuse in ret tt
  | CallClearContent => clearContent
  | TimeoutElapsed id => State.fireTimeout id
  | PromiseSettled i finish => settled i finish
  | RectChanged id =>
      let* d := read dom in
      if bool_decide (id ∈ watching d) then onTriggerRectChanged else ret tt
  | DocumentChanged f => modDom f
  | RegistryChanged f => modify (fun w => set_shared (f (shared w)) w)
  end.

(** The worlds after each of a sequence of events; a handler that throws
    leaves the world as it was at the throw. *)
Fixpoint runEvents (es : list Event) (w : World) : list World :=
  match es with
  | [] => []
  | e :: es => let w' := exec (handle e) w in w' :: runEvents es w'
  end.

(** The world a new binding is in after a sequence of events. *)
Definition afterEvents (d : Dom) (es : list Event) : World :=
  List.last (runEvents es (newWorld d)) (newWorld d).

(** While the popup is opened the binding holds a render result. *)
Definition OpenedRendered (w : World) : Prop :=
  if opened (state (this w)) then is_Some (rendered (this w)) else True.

Definition BindingCoherent (w : World) : Prop :=
  StateCoherent w /\ OpenedRendered w.

(** A step that keeps the invariant of the binding. *)
Definition Kept (I : World -> Prop) (w w' : World) : Prop := I w -> I w'.

(** The test of [mayGetFocus()] on the popup [p]. *)
Definition focusable (w : World) (p : nat) : bool :=
  autoFocus (options (this w))
  && match b_trigger (binder (this w)) with hover | focus => false | _ => true end
  && (tabIndex (dom w) p >=? 0).

(** The world after [appendPopup()] on the popup [p] when the alignment
    succeeds. *)
Definition appendedWorld (w : World) (p : nat) : World :=
  let w1 := alignedWorld (exec (Popup_applyAppendTo p) w) p in
  let w2 := if focusable w p then exec (emit (Focus p)) w1 else w1 in
  let w3 :=
    match transition (options (this w)) with
    | Some t => if negb (ownerDocument (dom w) p) then exec (emit (TransitionEnter t)) w2 else w2
    | None => w2
    end in
  exec (let* id := LayoutWatcher_watch in modThis (set_unwatchRect (Some id))) w3.

(** What [appendPopup()] does once the alignment has succeeded: focus, enter
    transition, layout watcher. *)
Definition isAfterAlign (a : Action) : bool :=
  match a with
  | Focus _ | TransitionEnter _ | LayoutWatch _ => true
  | _ => false
  end.

(** The world [updatePopup()] hands to [appendPopup()]: the pointer events
    of the popup [p] are set, and [p] is taken over when it is not the
    current popup. *)
Definition adoptedWorld (w : World) (p : nat) : World :=
  let v := if pointable (options (this w)) then "" else "none" in
  let w1 := set_dom (set_pointerEvents (<[p := v]> (pointerEvents (dom w))) (dom w))
              (set_log (log w ++ [SetPointerEvents p v]) w) in
  if bool_decide (Some p = popup (this w)) then w1 else exec (updatePopupProperty p) w1.

(** The world after the last statement of [updatePopup()], which registers
    a keyed popup. *)
Definition registeredWorld (w : World) (p r : nat) : World :=
  match truthy (key (options (this w))) with
  | Some k => exec (SharedPopups.add k p r >> SharedPopups.setUser p) w
  | None => w
  end.

Definition isOpenedChange (a : Action) : bool :=
  match a with
  | FireOpenedChange _ => true
  | _ => false
  end.

(** The world after the first statement of [beforeDisconnectCallback()] and
    of [clearContent()], which removes the popup of an opened binding. *)
Definition removedWorld (w : World) : World :=
  match popup (this w) with
  | Some p => if opened (state (this w)) then exec (Popup_remove p) w else w
  | None => w
  end.


Definition withShowImmediately (v : bool) (o : PartialPopupOptions) : PartialPopupOptions :=
  mkPartialPopupOptions (p_gap o) (p_stickToEdges o) (p_canSwapPosition o) (p_canShrinkOnY o)
    (p_fixTriangle o) (p_key o) (p_trigger o) (p_alignTo o) (p_alignPosition o) (p_showDelay o)
    (p_hideDelay o) (p_transition o) (Some v) (p_autoFocus o) (p_pointable o)
    (p_cacheable o) (p_keepVisible o).

(** The events that lead a new binding to a shown popup: the template
    gives it renderer and options, its part is connected, [showPopup()] is
    called and the two promises of the show sequence are settled. *)
Definition shownEvents : list Event :=
  [CallUpdate 0 noOptions; Connected; CallShowPopup; PromiseSettled 0 true;
   PromiseSettled 0 true].

(** ** Tactics *)

Ltac norm := cbv beta iota delta [
  set_opened set_willShowSoon set_willHideSoon set_showTimeout set_hideTimeout
  set_b_trigger set_b_enterBound set_b_leave
  set_state set_binder set_options set_renderer set_unwatchRect set_rendered set_popup
  set_aligner set_preventedHiding
  set_this set_timeouts set_shared set_dom set_pending set_rejected set_log
  opened willShowSoon willHideSoon showTimeout hideTimeout
  b_trigger b_enterBound b_leave
  state binder options renderer unwatchRect rendered popup aligner preventedHiding
  this timeouts shared dom pending rejected log
  PopupStateClass.willShow PopupStateClass.willHide PopupStateClass.show PopupStateClass.hide
  PopupStateClass.willNotShow PopupStateClass.willNotHide PopupStateClass.clear
  PopupStateClass.callTimeoutFn PopupStateClass.fireTimeout
  logFire emit suspend getState getOptions modState modThis modBinder modDom modify read
  bind ret throw cancel_opt cancel newTimeout nonNull
  exec result isOpened call
  negb orb andb fst snd] in *.

Ltac destruct_world w :=
  destruct w as [wb wts wsh wdm wpd wrj wlg];
  destruct wb as [ws wbi wo wrr wuw wrd wpp wal wph];
  destruct ws as [sop swss swhs ssto shto].

Ltac normB := cbv beta iota delta [
  set_opened set_willShowSoon set_willHideSoon set_showTimeout set_hideTimeout
  set_b_trigger set_b_enterBound set_b_leave
  set_state set_binder set_options set_renderer set_unwatchRect set_rendered set_popup
  set_aligner set_preventedHiding
  set_attached set_pointerEvents set_renderCount set_watchCount set_watching
  set_rectIntersectsViewport set_alignable
  set_this set_timeouts set_shared set_dom set_pending set_rejected set_log
  opened willShowSoon willHideSoon showTimeout hideTimeout
  b_trigger b_enterBound b_leave
  state binder options renderer unwatchRect rendered popup aligner preventedHiding
  attached pointerEvents popupFrom ownerDocument tabIndex querySelector triangle
  rectIntersectsViewport alignable renderCount watchCount watching
  this timeouts shared dom pending rejected log
  gap stickToEdges canSwapPosition canShrinkOnY fixTriangle key trigger alignTo alignPosition
  showDelay hideDelay transition showImmediately autoFocus pointable cacheable keepVisible
  p_gap p_stickToEdges p_canSwapPosition p_canShrinkOnY p_fixTriangle p_key p_trigger
  p_alignTo p_alignPosition p_showDelay p_hideDelay p_transition p_showImmediately
  p_autoFocus p_pointable p_cacheable p_keepVisible mergeOptions DefaultPopupOptions
  default from_option id truthy
  PopupStateClass.willShow PopupStateClass.willHide PopupStateClass.show PopupStateClass.hide
  PopupStateClass.willNotShow PopupStateClass.willNotHide PopupStateClass.clear
  PopupStateClass.callTimeoutFn PopupStateClass.fireTimeout
  State.willShow State.willHide State.show State.hide State.willNotShow State.willNotHide
  State.clear State.fireTimeout
  SharedPopups.find SharedPopups.isCacheOpened SharedPopups.add SharedPopups.setUser
  SharedPopups.clearUser SharedPopups.cacheOpened
  Binder.setTriggerType Binder.bindEnter Binder.bindLeaveBeforeShow Binder.bindLeave
  Binder.unbindLeave
  Popup_remove Popup_applyAppendTo render LayoutWatcher_watch
  callUnwatchRect doingHidePopup_end doingHidePopup doingHidePopup_resume doHidePopup
  updateRenderedProperty updatePopup doingShowPopup doShowPopup stateFire
  effectiveShowDelay showPopupLater showPopup hidePopupLater hidePopup
  onWillShow onWillHide onCancelShow onImmediateHide onToggleShowHide
  getAlignToElement getAlignerOptions alignerOutdated alignPopup mayGetFocus appendPopup
  updatePopupProperty updatePopup_resume doingShowPopup_resume onTriggerRectChanged
  update afterConnectCallback beforeDisconnectCallback canContentReuse clearContent
  settle resume settled sameKeyedPopupOpen spec_effectiveShowDelay set_canSwapPosition
  canceled settledState alignToElement alignerOptions newAligner alignedWorld
  logFire emit suspend getState getOptions modState modThis modBinder modDom modify read
  bind ret throw cancel_opt cancel newTimeout nonNull
  exec result isOpened emitted
  negb orb andb fst snd] in *.

Ltac destruct_all w :=
  destruct w as [wb wts wsh wdm wpd wrj wlg];
  destruct wb as [ws wbi wo wrr wuw wrd wpp wal wph];
  destruct ws as [sop swss swhs ssto shto];
  destruct wo as [ogap ostick oswap oshrink ofix okey otrig oalign opos oshow ohide otrans
                  oimm ofocus opoint ocache okeep];
  destruct wbi as [btrig benter bleave];
  destruct wdm as [datt dpe dfrom downer dtab dquery dtri drect dalign drc dwc dwatch].

(** ** The monad *)

Lemma exec_bind {A B} (m : M A) (k : A -> M B) (w : World) (a : A) :
  result m w = Ok a -> exec (bind m k) w = exec (k a) (exec m w).
Proof.
  unfold result, exec, bind. destruct (m w) as [[a'|e] w']; simpl; [|discriminate].
  intros [= ->]. reflexivity.
Qed.

Lemma result_bind {A B} (m : M A) (k : A -> M B) (w : World) (a : A) :
  result m w = Ok a -> result (bind m k) w = result (k a) (exec m w).
Proof.
  unfold result, exec, bind. destruct (m w) as [[a'|e] w']; simpl; [|discriminate].
  intros [= ->]. reflexivity.
Qed.

Lemma exec_bind_read {A B} (f : World -> A) (k : A -> M B) (w : World) :
  exec (bind (read f) k) w = exec (k (f w)) w.
Proof. reflexivity. Qed.

Lemma exec_bind_getState {B} (k : PopupState -> M B) (w : World) :
  exec (bind getState k) w = exec (k (state (this w))) w.
Proof. reflexivity. Qed.

Lemma exec_bind_modify {B} (f : World -> World) (k : unit -> M B) (w : World) :
  exec (bind (modify f) k) w = exec (k tt) (f w).
Proof. reflexivity. Qed.

Section Steps.

Context (R : World -> World -> Prop) (R_refl : forall w, R w w)
  (R_trans : forall w1 w2 w3, R w1 w2 -> R w2 w3 -> R w1 w3).

Lemma steps_ret {A} (a : A) : steps R (ret a).
Proof. intros w. apply R_refl. Qed.

Lemma steps_bind {A B} (m : M A) (k : A -> M B) :
  steps R m -> (forall a, steps R (k a)) -> steps R (bind m k).
Proof.
  intros Hm Hk w. specialize (Hm w). unfold exec, bind in *.
  destruct (m w) as [[a|e] w'] eqn:E; simpl in *; [|exact Hm].
  eapply R_trans; [exact Hm|]. apply (Hk a w').
Qed.

Lemma steps_if {A} (c : bool) (m1 m2 : M A) :
  steps R m1 -> steps R m2 -> steps R (if c then m1 else m2).
Proof. destruct c; auto. Qed.

End Steps.

(** ** Timers *)

Lemma canceled_lookup (ts : list Timeout) n id t :
  alter (set_running false) n ts !! id = Some t -> t_running t = true ->
  ts !! id = Some t /\ n <> id.
Proof.
  destruct (decide (n = id)) as [->|Hne].
  - rewrite list_lookup_alter_eq. destruct (ts !! id); simpl; [|discriminate].
    intros [= <-]. discriminate.
  - rewrite list_lookup_alter_ne by done. auto.
Qed.

Lemma Shrinks_refl w : Shrinks w w.
Proof. intros id t H _. exact H. Qed.

Lemma Shrinks_trans w1 w2 w3 : Shrinks w1 w2 -> Shrinks w2 w3 -> Shrinks w1 w3.
Proof. intros H1 H2 id t Hl Hr. apply H1; [apply H2|]; assumption. Qed.

Lemma Shrinks_same w w' : timeouts w' = timeouts w -> Shrinks w w'.
Proof. intros E id t H _. rewrite <- E. exact H. Qed.

Lemma steps_bind_Shrinks {A B} (m : M A) (k : A -> M B) :
  steps Shrinks m -> (forall a, steps Shrinks (k a)) -> steps Shrinks (bind m k).
Proof. apply steps_bind, Shrinks_trans. Qed.

Lemma cancel_Shrinks id : steps Shrinks (cancel id).
Proof.
  intros w i t Hl Hr. unfold exec, cancel, modify in Hl. simpl in Hl.
  apply canceled_lookup in Hl as [Hl _]; assumption.
Qed.

Lemma cancel_opt_Shrinks o : steps Shrinks (cancel_opt o).
Proof. destruct o; [apply cancel_Shrinks|]. intros w. apply Shrinks_refl. Qed.

Lemma modState_Shrinks f : steps Shrinks (modState f).
Proof. intros w. apply Shrinks_same. reflexivity. Qed.

Lemma logFire_Shrinks e : steps Shrinks (logFire e).
Proof. intros w. apply Shrinks_same. reflexivity. Qed.

Lemma getState_Shrinks : steps Shrinks getState.
Proof. intros w. apply Shrinks_refl. Qed.

Create HintDb shrinks.
#[local] Hint Resolve cancel_Shrinks cancel_opt_Shrinks modState_Shrinks logFire_Shrinks
  getState_Shrinks : shrinks.

Ltac shrinks :=
  repeat first
    [ apply steps_bind_Shrinks; [|intros ?]
    | apply (steps_if Shrinks)
    | apply (steps_ret Shrinks Shrinks_refl)
    | solve [auto with shrinks] ].

Lemma willNotShow_Shrinks : steps Shrinks PopupStateClass.willNotShow.
Proof. unfold PopupStateClass.willNotShow. shrinks. Qed.

Lemma willNotHide_Shrinks : steps Shrinks PopupStateClass.willNotHide.
Proof. unfold PopupStateClass.willNotHide. shrinks. Qed.

#[local] Hint Resolve willNotShow_Shrinks willNotHide_Shrinks : shrinks.

Lemma show_Shrinks : steps Shrinks (PopupStateClass.show logFire).
Proof. unfold PopupStateClass.show. shrinks. Qed.

Lemma NoShowTimer_Shrinks w w' : NoShowTimer w -> Shrinks w w' -> NoShowTimer w'.
Proof. intros H S id t Hl Hr. apply (H id t); [apply S|]; assumption. Qed.

Lemma NoShowTimer_tracked w : NoShowTimer w -> ShowTimersTracked w.
Proof. intros H id t Hl Hr Hs. rewrite (H id t Hl Hr) in Hs. discriminate. Qed.

Lemma ShowTimersTracked_Shrinks w w' :
  ShowTimersTracked w -> Shrinks w w' -> state (this w') = state (this w) ->
  ShowTimersTracked w'.
Proof. intros H S E id t Hl Hr Hs. rewrite E. apply (H id t); [apply S|..]; assumption. Qed.

Lemma countOutstanding_zero kind ts :
  (forall id t, ts !! id = Some t -> t_running t = true -> kind t = false) ->
  countOutstanding kind ts = 0%nat.
Proof.
  induction ts as [|t ts IH]; intros H; simpl; [reflexivity|].
  rewrite IH by (intros id t' Hl; apply (H (S id) t' Hl)).
  destruct (t_running t) eqn:Hr; [|reflexivity].
  rewrite (H 0%nat t eq_refl Hr). reflexivity.
Qed.

Lemma countOutstanding_le_1 kind ts :
  (forall i j ti tj, ts !! i = Some ti -> ts !! j = Some tj ->
     t_running ti = true -> kind ti = true -> t_running tj = true -> kind tj = true -> i = j) ->
  (countOutstanding kind ts <= 1)%nat.
Proof.
  induction ts as [|t ts IH]; intros H; simpl; [lia|].
  destruct (t_running t && kind t) eqn:Ht.
  - apply andb_true_iff in Ht as [Hr Hk].
    rewrite countOutstanding_zero; [lia|].
    intros id t' Hl Hr'. destruct (kind t') eqn:Hk'; [|reflexivity].
    specialize (H 0%nat (S id) t t' eq_refl Hl Hr Hk Hr' Hk'). discriminate.
  - simpl. apply IH. intros i j ti tj Hi Hj Hri Hki Hrj Hkj.
    specialize (H (S i) (S j) ti tj Hi Hj Hri Hki Hrj Hkj). congruence.
Qed.

Lemma tracked_outstanding w : ShowTimersTracked w -> (showTimersOutstanding w <= 1)%nat.
Proof.
  intros H. apply countOutstanding_le_1.
  intros i j ti tj Hi Hj Hri Hki Hrj Hkj.
  destruct (H i ti Hi Hri Hki) as [Ei _]. destruct (H j tj Hj Hrj Hkj) as [Ej _]. congruence.
Qed.

Lemma willNotShow_noShowTimer w :
  ShowTimersTracked w -> NoShowTimer (exec PopupStateClass.willNotShow w).
Proof.
  intros H id t Hl Hr. destruct (isShowTimeout t) eqn:Hs; [exfalso|reflexivity].
  destruct_world w. unfold ShowTimersTracked in H. norm.
  destruct ssto as [n|]; norm; simpl in *.
  - apply canceled_lookup in Hl as [Hl Hne]; [|assumption].
    destruct (H id t Hl Hr Hs) as [E _]. congruence.
  - destruct (H id t Hl Hr Hs) as [E _]. discriminate.
Qed.

Ltac steps_Shrinks :=
  match goal with
  | |- Shrinks ?w (exec ?m ?w) =>
      let H := fresh in assert (H : steps Shrinks m) by shrinks; apply H
  end.

Lemma willNotShow_total w : result PopupStateClass.willNotShow w = Ok tt.
Proof. destruct_world w. norm. destruct ssto; reflexivity. Qed.

Lemma show_noShowTimer w :
  ShowTimersTracked w -> NoShowTimer (exec (PopupStateClass.show logFire) w).
Proof.
  intros H. unfold PopupStateClass.show.
  rewrite (exec_bind _ _ w tt (willNotShow_total w)).
  eapply NoShowTimer_Shrinks; [apply willNotShow_noShowTimer, H|].
  steps_Shrinks.
Qed.

Lemma hide_noShowTimer w :
  ShowTimersTracked w -> NoShowTimer (exec (PopupStateClass.hide logFire) w).
Proof.
  intros H. unfold PopupStateClass.hide.
  rewrite (exec_bind _ _ w tt (willNotShow_total w)).
  eapply NoShowTimer_Shrinks; [apply willNotShow_noShowTimer, H|].
  steps_Shrinks.
Qed.

Lemma clear_noShowTimer w :
  ShowTimersTracked w -> NoShowTimer (exec PopupStateClass.clear w).
Proof.
  intros H. unfold PopupStateClass.clear.
  rewrite (exec_bind _ _ w tt (willNotShow_total w)).
  eapply NoShowTimer_Shrinks; [apply willNotShow_noShowTimer, H|].
  steps_Shrinks.
Qed.

(** A new timer: what is outstanding afterwards is the new timer or was
    outstanding before. *)
Lemma lookup_newTimeout (ts : list Timeout) t0 id t :
  (ts ++ [t0]) !! id = Some t -> ts !! id = Some t \/ (id = length ts /\ t = t0).
Proof.
  intros H. apply lookup_app_Some in H as [H|[Hlen H]]; [auto|].
  right. destruct (id - length ts)%nat eqn:E; simpl in H; [|discriminate].
  injection H as <-. split; [lia|reflexivity].
Qed.

Lemma willShow_tracked d w :
  ShowTimersTracked w -> ShowTimersTracked (exec (PopupStateClass.willShow logFire d) w).
Proof.
  intros H. unfold PopupStateClass.willShow.
  rewrite exec_bind_getState.
  destruct (opened (state (this w)) || willShowSoon (state (this w))) eqn:Hb; [exact H|].
  apply orb_false_iff in Hb as [Ho Hs].
  destruct (d >? 0) eqn:Hd.
  - intros id t Hl Hr Hk. destruct_world w. unfold ShowTimersTracked in H. norm. simpl in *.
    apply lookup_newTimeout in Hl as [Hl|[-> _]]; [|auto].
    destruct (H id t Hl Hr Hk) as [_ E]. congruence.
  - apply NoShowTimer_tracked.
    assert (T : result (PopupStateClass.show logFire) w = Ok tt)
      by (destruct_world w; norm; destruct ssto, shto, sop; reflexivity).
    rewrite (exec_bind _ _ w tt T). apply show_noShowTimer, H.
Qed.

Lemma fireTimeout_tracked id w :
  ShowTimersTracked w -> ShowTimersTracked (exec (PopupStateClass.fireTimeout logFire id) w).
Proof.
  intros H. unfold PopupStateClass.fireTimeout.
  rewrite exec_bind_read.
  destruct (timeouts w !! id) as [t|] eqn:Hl; [|exact H].
  destruct (t_running t) eqn:Hr; [|exact H].
  unfold cancel at 1. rewrite exec_bind_modify. fold (exec (cancel id) w).
  assert (Hc : ShowTimersTracked (exec (cancel id) w)).
  { eapply ShowTimersTracked_Shrinks; [exact H|apply cancel_Shrinks|reflexivity]. }
  apply NoShowTimer_tracked. destruct (t_fn t) eqn:Hf; simpl.
  - unfold modState at 1. rewrite exec_bind_modify.
    assert (Hn : NoShowTimer (exec (cancel id) w)).
    { intros i t' Hl' Hr'. destruct (isShowTimeout t') eqn:Hk; [exfalso|reflexivity].
      unfold exec, cancel, modify in Hl'. simpl in Hl'.
      apply canceled_lookup in Hl' as [Hl' Hne]; [|assumption].
      destruct (H i t' Hl' Hr' Hk) as [Ei _].
      assert (Hkt : isShowTimeout t = true) by (unfold isShowTimeout; rewrite Hf; reflexivity).
      destruct (H id t Hl Hr Hkt) as [Eid _]. congruence. }
    eapply NoShowTimer_Shrinks; [exact Hn|].
    eapply Shrinks_trans; [apply (modState_Shrinks (set_showTimeout None))|apply show_Shrinks].
  - apply hide_noShowTimer, Hc.
Qed.

Lemma willNotShow_tracked w :
  ShowTimersTracked w -> ShowTimersTracked (exec PopupStateClass.willNotShow w).
Proof. intros H. apply NoShowTimer_tracked, willNotShow_noShowTimer, H. Qed.

Lemma call_tracked c w :
  ShowTimersTracked w -> ShowTimersTracked (exec (call c) w).
Proof.
  intros H. destruct c as [d| |id| |]; simpl.
  - unfold exec, bind. pose proof (willShow_tracked d w H) as T. unfold exec in T.
    destruct (PopupStateClass.willShow logFire d w) as [[a|e] w']; exact T.
  - apply willNotShow_tracked, H.
  - apply fireTimeout_tracked, H.
  - apply NoShowTimer_tracked, hide_noShowTimer, H.
  - apply NoShowTimer_tracked, clear_noShowTimer, H.
Qed.

Lemma canceled_fn (ts : list Timeout) n id t :
  alter (set_running false) n ts !! id = Some t ->
  exists t0, ts !! id = Some t0 /\ t_fn t = t_fn t0.
Proof.
  destruct (decide (n = id)) as [->|Hne].
  - rewrite list_lookup_alter_eq. destruct (ts !! id) as [t0|]; simpl; [|discriminate].
    intros [= <-]. eauto.
  - rewrite list_lookup_alter_ne by done. eauto.
Qed.

Lemma OnlyShowTimers_canceled (ts : list Timeout) n :
  (forall id t, ts !! id = Some t -> isShowTimeout t = true) ->
  forall id t, alter (set_running false) n ts !! id = Some t -> isShowTimeout t = true.
Proof.
  intros H id t Hl. apply canceled_fn in Hl as (t0 & Hl & E).
  unfold isShowTimeout. rewrite E. apply (H id t0 Hl).
Qed.

Lemma countFired_app e l1 l2 :
  countFired e (l1 ++ l2) = (countFired e l1 + countFired e l2)%nat.
Proof. induction l1 as [|a l1 IH]; simpl; [reflexivity|]. rewrite IH. lia. Qed.

Lemma countFired_show_snoc l :
  countFired do_show (l ++ [FirePopupState do_show]) = S (countFired do_show l).
Proof. rewrite countFired_app. simpl. lia. Qed.

Lemma countFired_hide_snoc l :
  countFired do_show (l ++ [FirePopupState do_hide]) = countFired do_show l.
Proof. rewrite countFired_app. simpl. lia. Qed.

Lemma call_step c w : OnlyShowTimers w -> CallStep c w (exec (call c) w).
Proof.
  intros H. unfold CallStep, OnlyShowTimers in *. destruct_world w. norm. simpl in *.
  destruct c as [d| |id| |]; norm.
  - destruct sop; [norm; auto|]. destruct swss; [norm; auto|]. norm.
    destruct (d >? 0); norm.
    + split; [|auto]. intros id t Hl.
      apply lookup_newTimeout in Hl as [Hl|[_ ->]]; [eauto|reflexivity].
    + destruct ssto, shto; norm; simpl; rewrite countFired_show_snoc;
        (split; [|auto]); repeat apply OnlyShowTimers_canceled; exact H.
  - destruct ssto; norm; simpl; (split; [|auto]);
      repeat apply OnlyShowTimers_canceled; exact H.
  - destruct (wts !! id) as [t|] eqn:Hl; norm; [|auto].
    destruct (t_running t); norm; [|auto].
    pose proof (H id t Hl) as Hk. unfold isShowTimeout in Hk.
    destruct (t_fn t); [|discriminate]. norm.
    destruct shto, sop; norm; simpl; rewrite ?countFired_show_snoc;
      (split; [|auto]); repeat apply OnlyShowTimers_canceled; exact H.
  - destruct ssto, shto, sop; norm; simpl; rewrite ?countFired_hide_snoc;
      (split; [|auto 6]); repeat apply OnlyShowTimers_canceled; exact H.
  - destruct ssto, shto; norm; simpl;
      (split; [|auto 6]); repeat apply OnlyShowTimers_canceled; exact H.
Qed.

Lemma last_cons_default {A} (l : list A) : forall x d, List.last (x :: l) d = List.last l x.
Proof.
  induction l as [|a l IH]; intros x d; [reflexivity|].
  change (List.last (x :: a :: l) d) with (List.last (a :: l) d).
  rewrite (IH a d), (IH a x). reflexivity.
Qed.

Lemma runCalls_invariant cs : forall w,
  OnlyShowTimers w -> ShowTimersTracked w ->
  Forall (fun w' => (showTimersOutstanding w' <= 1)%nat) (runCalls cs w) /\
  (rises (isOpened w) (map isOpened (runCalls cs w)) + (if isOpened w then 1 else 0)
     <= 1 + resets cs)%nat /\
  (countFired do_show (log (List.last (runCalls cs w) w)) + (if isOpened w then 1 else 0)
     <= countFired do_show (log w) + 1 + resets cs)%nat.
Proof.
  induction cs as [|c cs IH]; intros w Ho Ht.
  - simpl. repeat split; [constructor|destruct (isOpened w); lia..].
  - cbn [runCalls resets map rises].
    set (w' := exec (call c) w).
    assert (Ht' : ShowTimersTracked w') by (apply call_tracked, Ht).
    destruct (call_step c w Ho) as [Ho' Hstep]. fold w' in Ho', Hstep.
    destruct (IH w' Ho' Ht') as (I1 & I2 & I3).
    rewrite last_cons_default. repeat split.
    + constructor; [apply tracked_outstanding, Ht'|exact I1].
    + destruct Hstep as [[E1 E2]|[(E1 & E2 & E3)|(E1 & E2 & E3)]].
      * rewrite E1 in *. destruct (isOpened w), (isReset c); simpl in *; lia.
      * rewrite E1, E2 in *. destruct (isReset c); simpl in *; lia.
      * rewrite E1, E2 in *. destruct (isOpened w); simpl in *; lia.
    + destruct Hstep as [[E1 E2]|[(E1 & E2 & E3)|(E1 & E2 & E3)]].
      * rewrite E1, E2 in *. destruct (isReset c); simpl in *; lia.
      * rewrite E1, E2, E3 in *. destruct (isReset c); simpl in *; lia.
      * rewrite E1, E2, E3 in *. destruct (isOpened w); simpl in *; lia.
Qed.

(** C4: [willShow(delay)] on a [PopupState] in any state: when the popup is
    opened or a show is pending it returns [false] and changes nothing (no
    event, no timer); otherwise it returns [true], and with [delay <= 0] it
    sets [opened] and fires [do-show] once, scheduling no timer, while with
    [delay > 0] it schedules exactly one show timer with that delay, holds
    it in [showTimeout] and sets [willShowSoon], firing nothing. *)
Theorem willShow_spec (d : Z) (w : World) :
  let s := state (this w) in
  let w' := exec (PopupStateClass.willShow logFire d) w in
  (opened s || willShowSoon s = true ->
     PopupStateClass.willShow logFire d w = (Ok false, w)) /\
  (opened s || willShowSoon s = false -> d <= 0 ->
     result (PopupStateClass.willShow logFire d) w = Ok true /\
     opened (state (this w')) = true /\
     willShowSoon (state (this w')) = false /\
     log w' = log w ++ [FirePopupState do_show] /\
     length (timeouts w') = length (timeouts w) /\
     Shrinks w w') /\
  (opened s || willShowSoon s = false -> d > 0 ->
     result (PopupStateClass.willShow logFire d) w = Ok true /\
     timeouts w' = timeouts w ++ [mkTimeout showTimeoutFn d true] /\
     showTimeout (state (this w')) = Some (length (timeouts w)) /\
     willShowSoon (state (this w')) = true /\
     opened (state (this w')) = false /\
     log w' = log w).
Proof.
  intros s w'. split; [|split].
  - subst s w'. destruct_world w. norm. intros ->. reflexivity.
  - intros Hb Hd.
    assert (HS : Shrinks w w').
    { subst s w'. unfold PopupStateClass.willShow. rewrite exec_bind_getState.
      rewrite Hb. assert (Hg : (d >? 0) = false) by lia. rewrite Hg. steps_Shrinks. }
    revert HS. subst s w'. revert Hb. destruct_world w. norm. intros Hb HS.
    assert (Hg : (d >? 0) = false) by lia. rewrite Hb, Hg in *.
    destruct sop, swss; try discriminate.
    destruct ssto, shto; norm; simpl; rewrite ?length_alter; repeat split; exact HS.
  - subst s w'. destruct_world w. norm. intros Hb Hd.
    assert (Hg : (d >? 0) = true) by lia. rewrite Hb, Hg.
    destruct sop, swss; try discriminate. repeat split.
Qed.

Lemma willShow_spec_witness :
  PopupStateClass.willShow logFire 0 (exec (PopupStateClass.show logFire) (newWorld plainDom))
    = (Ok false, exec (PopupStateClass.show logFire) (newWorld plainDom)) /\
  log (exec (PopupStateClass.willShow logFire 0) (newWorld plainDom))
    = [FirePopupState do_show] /\
  timeouts (exec (PopupStateClass.willShow logFire 100) (newWorld plainDom))
    = [mkTimeout showTimeoutFn 100 true].
Proof.
  split; [|split].
  - apply (willShow_spec 0 (exec (PopupStateClass.show logFire) (newWorld plainDom))).
    reflexivity.
  - apply (willShow_spec 0 (newWorld plainDom)); [reflexivity|lia].
  - apply (willShow_spec 100 (newWorld plainDom)); [reflexivity|lia].
Defined.

(** C5: from a new [PopupState], after every call of every sequence of
    [willShow] and [willNotShow] calls (timers may elapse in between, and
    [hide()] or [clear()] may intervene) at most one show timer is
    outstanding; along the sequence [opened] goes from [false] to [true],
    and [do-show] is fired, at most once more than there are [hide()] and
    [clear()] calls: at most once when there are none. *)
Theorem show_timer_unique (d : Dom) (cs : list Call) :
  let ws := runCalls cs (newWorld d) in
  Forall (fun w => (showTimersOutstanding w <= 1)%nat) ws /\
  (rises false (map isOpened ws) <= 1 + resets cs)%nat /\
  (countFired do_show (log (List.last ws (newWorld d))) <= 1 + resets cs)%nat /\
  (resets cs = 0%nat ->
     (rises false (map isOpened ws) <= 1)%nat /\
     (countFired do_show (log (List.last ws (newWorld d))) <= 1)%nat).
Proof.
  assert (Ho : OnlyShowTimers (newWorld d)) by (intros id t H; discriminate).
  assert (Ht : ShowTimersTracked (newWorld d)) by (intros id t H; discriminate).
  destruct (runCalls_invariant cs (newWorld d) Ho Ht) as (I1 & I2 & I3).
  change (isOpened (newWorld d)) with false in I2, I3.
  change (countFired do_show (log (newWorld d))) with 0%nat in I3.
  cbv iota in I2, I3. intros ws. fold ws in I1, I2, I3.
  set (r := rises false (map isOpened ws)) in *.
  set (f := countFired do_show (log (List.last ws (newWorld d)))) in *.
  split; [exact I1|]. split; [lia|]. split; [lia|]. intros Hz. lia.
Qed.

Lemma show_timer_unique_witness :
  (rises false
     (map isOpened
        (runCalls [WillShow 100; WillNotShow; WillShow 100; Elapse 1; WillShow 0]
           (newWorld plainDom))) <= 1)%nat /\
  (countFired do_show
     (log (List.last (runCalls [WillShow 100; WillNotShow; WillShow 100; Elapse 1; WillShow 0]
                   (newWorld plainDom))
             (newWorld plainDom))) <= 1)%nat.
Proof.
  refine (proj2 (proj2 (proj2
    (show_timer_unique plainDom [WillShow 100; WillNotShow; WillShow 100; Elapse 1; WillShow 0])))
    _).
  reflexivity.
Defined.

(** ** Frames and totality *)

Lemma Keeps_refl {X} (f : World -> X) w : Keeps f w w.
Proof. reflexivity. Qed.

Lemma Keeps_trans {X} (f : World -> X) w1 w2 w3 :
  Keeps f w1 w2 -> Keeps f w2 w3 -> Keeps f w1 w3.
Proof. unfold Keeps. congruence. Qed.

Lemma keeps_bind {X A B} (f : World -> X) (m : M A) (k : A -> M B) :
  steps (Keeps f) m -> (forall a, steps (Keeps f) (k a)) -> steps (Keeps f) (bind m k).
Proof. apply steps_bind, Keeps_trans. Qed.

Lemma returns_ret {A} (a : A) : returns (ret a).
Proof. intros w. exists a. reflexivity. Qed.

Lemma returns_read {A} (f : World -> A) : returns (read f).
Proof. intros w. exists (f w). reflexivity. Qed.

Lemma returns_modify f : returns (modify f).
Proof. intros w. exists tt. reflexivity. Qed.

Lemma returns_bind {A B} (m : M A) (k : A -> M B) :
  returns m -> (forall a, returns (k a)) -> returns (bind m k).
Proof.
  intros Hm Hk w. destruct (Hm w) as [a Ha]. unfold result, bind in *.
  destruct (m w) as [[a'|e] w']; simpl in *; [|discriminate].
  apply Hk.
Qed.

Lemma returns_newTimeout fn ms : returns (newTimeout fn ms).
Proof. intros w. eexists. reflexivity. Qed.

Lemma exec_returns {A B} (m : M A) (k : M B) (w : World) :
  returns m -> exec (m >> k) w = exec k (exec m w).
Proof. intros H. destruct (H w) as [a Ha]. apply (exec_bind m _ w a Ha). Qed.

Lemma result_returns {A B} (m : M A) (k : M B) (w : World) :
  returns m -> result (m >> k) w = result k (exec m w).
Proof. intros H. destruct (H w) as [a Ha]. apply (result_bind m _ w a Ha). Qed.

Ltac unfold_methods := cbv delta [
  PopupStateClass.willShow PopupStateClass.willHide PopupStateClass.show PopupStateClass.hide
  PopupStateClass.willNotShow PopupStateClass.willNotHide PopupStateClass.clear
  PopupStateClass.callTimeoutFn PopupStateClass.fireTimeout
  State.willShow State.willHide State.show State.hide State.willNotShow State.willNotHide
  State.clear State.fireTimeout
  SharedPopups.find SharedPopups.isCacheOpened SharedPopups.add SharedPopups.setUser
  SharedPopups.clearUser
  Binder.setTriggerType Binder.bindEnter Binder.bindLeaveBeforeShow Binder.bindLeave
  Binder.unbindLeave
  Popup_remove Popup_applyAppendTo render LayoutWatcher_watch
  callUnwatchRect doingHidePopup_end doingHidePopup doingHidePopup_resume doHidePopup
  updateRenderedProperty updatePopup doingShowPopup doShowPopup stateFire
  showPopupLater showPopup hidePopupLater hidePopup
  onWillShow onWillHide onCancelShow onImmediateHide onToggleShowHide
  getAlignToElement getAlignerOptions alignPopup mayGetFocus appendPopup
  updatePopupProperty updatePopup_resume doingShowPopup_resume onTriggerRectChanged
  update afterConnectCallback beforeDisconnectCallback canContentReuse clearContent
  logFire emit suspend getState getOptions modState modThis modBinder modDom
  cancel_opt cancel nonNull]; cbv beta.

(** Proves [steps (Keeps f) m] along the structure of [m]. *)
Ltac keeps :=
  unfold_methods;
  repeat first
    [ apply keeps_bind; [|intros ?]
    | match goal with
      | |- steps _ (match ?x with _ => _ end) => destruct x
      end
    | solve [intros ?; reflexivity] ].

(** Proves [returns m] along the structure of [m]. *)
Ltac returns :=
  unfold_methods;
  repeat first
    [ apply returns_bind; [|intros ?]
    | apply returns_ret
    | apply returns_read
    | apply returns_modify
    | apply returns_newTimeout
    | match goal with
      | |- returns (match ?x with _ => _ end) => destruct x
      end ].

Lemma stateFire_returns e : returns (stateFire e).
Proof. destruct e; returns. Qed.

Lemma stateFire_keeps_state e : steps (Keeps (fun w => state (this w))) (stateFire e).
Proof. destruct e; keeps. Qed.

Lemma show_returns : returns State.show.
Proof. returns. Qed.

Lemma hide_returns : returns State.hide.
Proof. returns. Qed.

Lemma result_bind_getState {B} (k : PopupState -> M B) (w : World) :
  result (bind getState k) w = result (k (state (this w))) w.
Proof. reflexivity. Qed.

Lemma willNotShow_returns : returns State.willNotShow.
Proof. returns. Qed.

Lemma willNotHide_returns : returns State.willNotHide.
Proof. returns. Qed.

(** After [state.show()] the popup is opened, after [state.hide()] it is
    not, whatever the handlers do. *)
Lemma show_opened w : isOpened (exec State.show w) = true.
Proof.
  unfold State.show, PopupStateClass.show.
  rewrite (exec_returns _ _ w willNotShow_returns).
  rewrite (exec_returns _ _ _ willNotHide_returns).
  rewrite exec_bind_getState.
  set (w1 := exec State.willNotHide (exec State.willNotShow w)).
  destruct (opened (state (this w1))) eqn:Ho; simpl; [exact Ho|].
  unfold modState at 1. rewrite exec_bind_modify.
  unfold isOpened. rewrite (stateFire_keeps_state do_show). reflexivity.
Qed.

Lemma hide_closed w : isOpened (exec State.hide w) = false.
Proof.
  unfold State.hide, PopupStateClass.hide.
  rewrite (exec_returns _ _ w willNotShow_returns).
  rewrite (exec_returns _ _ _ willNotHide_returns).
  rewrite exec_bind_getState.
  set (w1 := exec State.willNotHide (exec State.willNotShow w)).
  destruct (opened (state (this w1))) eqn:Ho; simpl; [|exact Ho].
  unfold modState at 1. rewrite exec_bind_modify.
  unfold isOpened. rewrite (stateFire_keeps_state do_hide). reflexivity.
Qed.

Lemma showPopupLater_delay w :
  showPopupLater w =
  (let* willShow := State.willShow (spec_effectiveShowDelay w) in
   if willShow then Binder.bindLeaveBeforeShow else ret tt) w.
Proof.
  unfold showPopupLater, spec_effectiveShowDelay, sameKeyedPopupOpen, effectiveShowDelay,
    SharedPopups.isCacheOpened, getOptions.
  unfold bind at 1 2 3. unfold read, ret.
  destruct (truthy (key (options (this w)))) as [k|]; simpl.
  - destruct (SharedPopups.cacheOpened k w), (b_trigger (binder (this w))); reflexivity.
  - destruct (b_trigger (binder (this w))); reflexivity.
Qed.

(** What [state.willShow(delay)] does in the binding when it is not
    blocked. *)
Lemma State_willShow_unblocked d w :
  opened (state (this w)) || willShowSoon (state (this w)) = false ->
  result (State.willShow d) w = Ok true /\
  (d <= 0 -> exec (State.willShow d) w = exec State.show w) /\
  (d > 0 ->
     timeouts (exec (State.willShow d) w) = timeouts w ++ [mkTimeout showTimeoutFn d true] /\
     willShowSoon (state (this (exec (State.willShow d) w))) = true /\
     opened (state (this (exec (State.willShow d) w))) = false /\
     log (exec (State.willShow d) w) = log w).
Proof.
  intros Hb. unfold State.willShow, PopupStateClass.willShow.
  rewrite result_bind_getState, exec_bind_getState, Hb. split; [|split].
  - rewrite result_returns; [reflexivity|]. destruct (d >? 0); returns.
  - intros Hd. assert (Hg : (d >? 0) = false) by lia. rewrite Hg.
    rewrite (exec_returns _ _ w show_returns). reflexivity.
  - intros Hd. assert (Hg : (d >? 0) = true) by lia. rewrite Hg.
    apply orb_false_iff in Hb as [Ho Hs].
    destruct_world w. norm. simpl in *. subst. repeat split.
Qed.

(** C3: [showPopupLater()] passes to [state.willShow] the delay that is zero
    if a same-keyed shared popup is open, zero if the binder's trigger is
    [click] or [focus], and the configured [showDelay] otherwise; when
    [willShow] returns [false] (opened, or a show is pending) nothing else
    happens, and when it returns [true] the leave listeners of before the
    show are bound by [binder.bindLeaveBeforeShow()]. *)
Theorem showPopupLater_spec (w : World) :
  let d := spec_effectiveShowDelay w in
  let s := state (this w) in
  let w1 := exec (State.willShow d) w in
  let w' := exec showPopupLater w in
  showPopupLater w =
    (let* willShow := State.willShow d in
     if willShow then Binder.bindLeaveBeforeShow else ret tt) w /\
  (opened s || willShowSoon s = true ->
     result (State.willShow d) w = Ok false /\ showPopupLater w = (Ok tt, w)) /\
  (opened s || willShowSoon s = false ->
     result (State.willShow d) w = Ok true /\
     w' = exec Binder.bindLeaveBeforeShow w1 /\
     b_leave (binder (this w')) = LeaveBeforeShow /\
     log w' = log w1 ++ [BinderBindLeaveBeforeShow] /\
     (d <= 0 -> w1 = exec State.show w /\ opened (state (this w')) = true) /\
     (d > 0 -> timeouts w' = timeouts w ++ [mkTimeout showTimeoutFn d true] /\
               willShowSoon (state (this w')) = true)).
Proof.
  intros d s w1 w'. split; [apply showPopupLater_delay|]. split.
  - intros Hb. subst w'. unfold exec. rewrite showPopupLater_delay. fold d.
    unfold State.willShow, PopupStateClass.willShow, result, bind, getState, read. simpl.
    fold s. rewrite Hb. split; reflexivity.
  - intros Hb. destruct (State_willShow_unblocked d w Hb) as (Hr & H0 & H1).
    assert (E : w' = exec Binder.bindLeaveBeforeShow w1).
    { subst w' w1. unfold exec at 1. rewrite showPopupLater_delay. fold d.
      fold (exec (let* willShow := State.willShow d in
                  if willShow then Binder.bindLeaveBeforeShow else ret tt) w).
      rewrite (exec_bind _ _ w true Hr). reflexivity. }
    split; [exact Hr|]. split; [exact E|]. rewrite E.
    split; [reflexivity|]. split; [reflexivity|]. split.
    + intros Hd. split; [apply H0, Hd|]. subst w1. rewrite (H0 Hd).
      apply (show_opened w).
    + intros Hd. destruct (H1 Hd) as (T1 & T2 & _). fold w1 in T1, T2. split; assumption.
Qed.

Lemma showPopupLater_spec_witness :
  spec_effectiveShowDelay (connected 0 (withShowDelay 100 (withTrigger click noOptions)) plainDom)
    = 0 /\
  opened (state (this
    (exec showPopupLater
       (connected 0 (withShowDelay 100 (withTrigger click noOptions)) plainDom)))) = true /\
  timeouts (exec showPopupLater (connected 0 noOptions plainDom))
    = [mkTimeout showTimeoutFn 100 true] /\
  showPopupLater (shown 0 noOptions plainDom) = (Ok tt, shown 0 noOptions plainDom).
Proof.
  split; [reflexivity|]. split; [|split].
  - apply (showPopupLater_spec
             (connected 0 (withShowDelay 100 (withTrigger click noOptions)) plainDom));
      [reflexivity|].
    change (0 <= 0). lia.
  - apply (showPopupLater_spec (connected 0 noOptions plainDom)); [reflexivity|].
    change (100 > 0). lia.
  - apply (showPopupLater_spec (shown 0 noOptions plainDom)). vm_compute. reflexivity.
Defined.

(** ** The aligner *)

Lemma emitted_app {A} (m : M A) (w : World) (l : list Action) :
  log (exec m w) = log w ++ l -> emitted m w = l.
Proof. intros E. unfold emitted. rewrite E. apply drop_app_length. Qed.

Ltac in_log H :=
  repeat (apply elem_of_cons in H as [H|H]; [try discriminate H|]);
  try (apply elem_of_nil in H; destruct H).

Lemma Emits_refl P w : Emits P w w.
Proof. exists []. split; [symmetry; apply app_nil_r|constructor]. Qed.

Lemma Emits_trans P w1 w2 w3 : Emits P w1 w2 -> Emits P w2 w3 -> Emits P w1 w3.
Proof.
  intros (l1 & E1 & F1) (l2 & E2 & F2). exists (l1 ++ l2). split.
  - rewrite E2, E1. symmetry. apply app_assoc.
  - apply Forall_app. split; assumption.
Qed.

Lemma emits_bind {A B} P (m : M A) (k : A -> M B) :
  steps (Emits P) m -> (forall a, steps (Emits P) (k a)) -> steps (Emits P) (bind m k).
Proof. apply steps_bind, Emits_trans. Qed.

Lemma emits_emit (P : Action -> Prop) a : P a -> steps (Emits P) (emit a).
Proof. intros H w. exists [a]. split; [reflexivity|]. constructor; [exact H|constructor]. Qed.

Lemma emits_silent {A} P (m : M A) : steps (Keeps log) m -> steps (Emits P) m.
Proof.
  intros H w. exists []. split; [|constructor]. rewrite app_nil_r. apply H.
Qed.

Ltac unfold_methods_but_emit := cbv delta [
  PopupStateClass.willShow PopupStateClass.willHide PopupStateClass.show PopupStateClass.hide
  PopupStateClass.willNotShow PopupStateClass.willNotHide PopupStateClass.clear
  PopupStateClass.callTimeoutFn PopupStateClass.fireTimeout
  State.willShow State.willHide State.show State.hide State.willNotShow State.willNotHide
  State.clear State.fireTimeout
  SharedPopups.find SharedPopups.isCacheOpened SharedPopups.add SharedPopups.setUser
  SharedPopups.clearUser
  Binder.setTriggerType Binder.bindEnter Binder.bindLeaveBeforeShow Binder.bindLeave
  Binder.unbindLeave
  Popup_remove Popup_applyAppendTo render LayoutWatcher_watch
  callUnwatchRect doingHidePopup_end doingHidePopup doingHidePopup_resume doHidePopup
  updateRenderedProperty updatePopup doingShowPopup doShowPopup stateFire
  showPopupLater showPopup hidePopupLater hidePopup
  onWillShow onWillHide onCancelShow onImmediateHide onToggleShowHide
  getAlignToElement getAlignerOptions alignPopup mayGetFocus appendPopup
  updatePopupProperty updatePopup_resume doingShowPopup_resume onTriggerRectChanged
  update afterConnectCallback beforeDisconnectCallback canContentReuse clearContent
  logFire cancel_opt nonNull]; cbv beta.

(** Proves [steps (Emits P) m] along the structure of [m]; [tac] proves [P]
    of each action emitted. *)
Ltac emits tac :=
  unfold_methods_but_emit;
  repeat first
    [ apply emits_bind; [|intros ?]
    | apply emits_emit; solve [tac]
    | match goal with
      | |- steps _ (match ?x with _ => _ end) => destruct x
      end
    | apply emits_silent; solve [intros ?; reflexivity] ].

(** ** The methods, run *)

Lemma State_hide_run (w : World) :
  State.hide w =
    if opened (state (this w)) then doHidePopup (settledState false w)
    else (Ok tt, settledState false w).
Proof. destruct_world w. norm. destruct ssto, shto, sop; reflexivity. Qed.

Lemma State_show_run (w : World) :
  State.show w =
    if opened (state (this w)) then (Ok tt, settledState true w)
    else doShowPopup (settledState true w).
Proof. destruct_world w. norm. destruct ssto, shto, sop; reflexivity. Qed.

Lemma doHidePopup_run (w : World) :
  doHidePopup w =
    match transition (options (this w)) with
    | Some t =>
        (Ok tt, set_log (log w ++ [TransitionLeave t; FireOpenedChange false])
                  (set_pending (pending w ++ [ResumeDoingHidePopup]) w))
    | None =>
        (Ok tt, exec (emit (FireOpenedChange false)) (exec doingHidePopup_end w))
    end.
Proof.
  destruct_all w. normB. destruct otrans; normB.
  - rewrite <- app_assoc. reflexivity.
  - destruct wuw; reflexivity.
Qed.

Lemma getAlignToElement_run (w : World) :
  getAlignToElement w = (Ok (alignToElement w), w).
Proof. destruct_all w. normB. destruct oalign as [[[|c sel]|res]|]; reflexivity. Qed.

Lemma getAlignerOptions_run (w : World) :
  getAlignerOptions w =
    match popup (this w) with
    | Some p => (Ok (alignerOptions w p), w)
    | None => (Throw TypeError, w)
    end.
Proof. destruct_all w. normB. destruct wpp; reflexivity. Qed.

Lemma alignPopup_run (w : World) :
  alignPopup w =
    if opened (state (this w)) then
      match popup (this w) with
      | Some p =>
          if alignable (dom w) then (Ok true, alignedWorld w p)
          else (hidePopup >> ret false) (alignedWorld w p)
      | None => (Throw TypeError, set_log (log w ++ [FireWillAlign]) w)
      end
    else (Ok false, w).
Proof.
  destruct_all w. normB. destruct sop; [|reflexivity].
  destruct wpp as [p|]; [|destruct oalign as [[[|c sel]|res]|]; reflexivity].
  destruct oalign as [[[|c sel]|res]|]; normB;
    (destruct wal as [al|]; normB;
     [destruct (bool_decide (a_anchor al = _)); normB;
      [destruct (bool_decide (a_content al = _)); normB|]|]);
    destruct dalign; reflexivity.
Qed.

Lemma hidePopup_no_aligner : steps (Emits (fun x => forall a, x <> NewAligner a)) hidePopup.
Proof. emits ltac:(intros ?; discriminate). Qed.

Lemma alignedWorld_newAligner (w : World) (p : nat) :
  exists l, log (alignedWorld w p) = log w ++ l /\
    Forall (fun x => forall a, x = NewAligner a -> a = newAligner w p) l.
Proof.
  unfold alignedWorld.
  destruct (alignerOutdated (aligner (this w)) (alignToElement w) (PopupEl p)); simpl;
    rewrite <- !app_assoc;
    eexists; (split; [reflexivity|]); repeat constructor;
    intros a E; try discriminate E. injection E as <-. reflexivity.
Qed.

Lemma alignPopup_newAligner (w : World) (a : Aligner) :
  NewAligner a ∈ emitted alignPopup w ->
  exists p, popup (this w) = Some p /\ a = newAligner w p.
Proof.
  unfold emitted, exec. rewrite alignPopup_run.
  destruct (opened (state (this w))); cbn [snd].
  2:{ rewrite drop_all. intros H. in_log H. }
  destruct (popup (this w)) as [p|]; cbn [snd].
  2:{ cbn [log set_log]. rewrite drop_app_length. intros H. in_log H. }
  intros H. exists p. split; [reflexivity|].
  destruct (alignedWorld_newAligner w p) as (l & El & Fl).
  rewrite Forall_forall in Fl.
  destruct (alignable (dom w)); cbn [snd] in H.
  - rewrite El, drop_app_length in H. apply (Fl _ H a eq_refl).
  - fold (exec (hidePopup >> ret false) (alignedWorld w p)) in H.
    rewrite (exec_returns hidePopup _ _ hide_returns) in H.
    change (exec (ret false) (exec hidePopup (alignedWorld w p)))
      with (exec hidePopup (alignedWorld w p)) in H.
    destruct (hidePopup_no_aligner (alignedWorld w p)) as (l2 & E2 & F2).
    rewrite E2, El, <- app_assoc, drop_app_length in H.
    apply elem_of_app in H as [H|H]; [apply (Fl _ H a eq_refl)|].
    rewrite Forall_forall in F2. destruct (F2 _ H a eq_refl).
Qed.

(** C10: the options [getAlignerOptions()] builds for the [Aligner] have
    [canSwapPosition] equal to the configured [stickToEdges]; the configured
    [canSwapPosition] has no influence on them, nor on any [Aligner] that
    [alignPopup()] constructs. *)
Theorem alignerOptions_canSwapPosition (w : World) (p : nat) :
  popup (this w) = Some p ->
  getAlignerOptions w = (Ok (alignerOptions w p), w) /\
  ao_canSwapPosition (alignerOptions w p) = stickToEdges (options (this w)) /\
  (forall v,
     alignerOptions (set_this (set_options (set_canSwapPosition v (options (this w))) (this w)) w) p
       = alignerOptions w p) /\
  (forall a, NewAligner a ∈ emitted alignPopup w ->
     ao_canSwapPosition (a_options a) = stickToEdges (options (this w))).
Proof.
  intros Hp. repeat split.
  - rewrite getAlignerOptions_run, Hp. reflexivity.
  - intros a H. apply alignPopup_newAligner in H as (p' & _ & ->). reflexivity.
Qed.

Lemma alignerOptions_canSwapPosition_witness :
  ao_canSwapPosition
    (alignerOptions (shown 0 (withCanSwapPosition false noOptions) plainDom) 0) = true /\
  canSwapPosition (options (this (shown 0 (withCanSwapPosition false noOptions) plainDom)))
    = false.
Proof.
  split; [|reflexivity].
  apply (alignerOptions_canSwapPosition
           (shown 0 (withCanSwapPosition false noOptions) plainDom) 0).
  reflexivity.
Defined.

(** ** [update] *)

Lemma updatePopup_returns a : returns (updatePopup a).
Proof. returns. Qed.

Lemma updatePopup_keeps_options a : steps (Keeps (fun w => options (this w))) (updatePopup a).
Proof. keeps. Qed.

Lemma updatePopup_keeps_preventedHiding a :
  steps (Keeps (fun w => preventedHiding (this w))) (updatePopup a).
Proof. keeps. Qed.

Lemma updatePopup_keeps_renderer a : steps (Keeps (fun w => renderer (this w))) (updatePopup a).
Proof. keeps. Qed.

Lemma updatePopup_keeps_state a : steps (Keeps (fun w => state (this w))) (updatePopup a).
Proof. keeps. Qed.

Lemma updatePopup_keeps_timeouts a : steps (Keeps timeouts) (updatePopup a).
Proof. keeps. Qed.

Lemma updatePopup_pending a w :
  pending (exec (updatePopup a) w) = pending w ++ [ResumeUpdatePopup a].
Proof.
  unfold updatePopup. rewrite exec_returns by returns.
  assert (K : steps (Keeps pending) updateRenderedProperty) by keeps.
  unfold exec at 1, suspend, modify. simpl. rewrite (K w). reflexivity.
Qed.

Lemma updatePopup_rendered a (w : World) (rd : nat) :
  rendered (this w) = Some rd ->
  emitted (updatePopup a) w = [SetRenderer rd (renderer (this w))].
Proof.
  intros Hrd. destruct_all w. normB. simpl in Hrd. subst wrd. normB.
  apply drop_app_length.
Qed.

Lemma hidePopupLater_keeps_options : steps (Keeps (fun w => options (this w))) hidePopupLater.
Proof. keeps. Qed.

Lemma hidePopupLater_keeps_renderer : steps (Keeps (fun w => renderer (this w))) hidePopupLater.
Proof. keeps. Qed.

Lemma update_run (r : nat) (o : PartialPopupOptions) (w : World) :
  let merged := mergeOptions DefaultPopupOptions o in
  let w0 := set_this (set_options merged (set_renderer (Some r) (this w))) w in
  let w1 := if opened (state (this w)) then exec (updatePopup false) w0 else w0 in
  update r o w =
    if preventedHiding (this w) && negb (keepVisible merged) then hidePopupLater w1
    else (Ok tt, w1).
Proof.
  destruct_all w.
  destruct o as [pgap pstick pswap pshrink pfix pkey ptrig palign ppos pshow phide ptrans
                 pimm pfocus ppoint pcache pkeep].
  cbv zeta. normB.
  destruct sop; normB;
    [destruct wrd as [rd|]; normB;
       [|destruct pkey as [[|c k]|]; normB;
           [|destruct (wsh !! String c k) as [ci|]; normB|]]|];
    destruct wph, pkeep as [[|]|]; normB; reflexivity.
Qed.

Lemma hidePopupLater_run (w : World) :
  opened (state (this w)) = true -> willHideSoon (state (this w)) = false ->
  hideDelay (options (this w)) > 0 ->
  hidePopupLater w =
    (Ok tt,
     set_this (set_state (set_willHideSoon true
                            (set_hideTimeout (Some (length (timeouts w))) (state (this w))))
                 (this w))
       (set_timeouts
          (timeouts w ++ [mkTimeout hideTimeoutFn (hideDelay (options (this w))) true]) w)).
Proof.
  intros Ho Hs Hd. assert (Hg : (hideDelay (options (this w)) >? 0) = true) by lia.
  destruct_all w. normB. simpl in *. subst. rewrite Hg. reflexivity.
Qed.

(** C9: [update(renderer, options)] stores the renderer and the options
    merged over [DefaultPopupOptions] (whose values are those of the table
    of defaults): every property of the stored options is the one given
    when it is given and the default otherwise, whatever the options of the
    binding were before (the five alignment options, which the table leaves
    out, have the defaults of the source); when the popup is opened it
    calls [updatePopup()], which
    hands the new renderer to the render result there is and suspends at
    its [await]; and when a hide had been prevented
    ([preventedHiding]) and the new options have [keepVisible] false, it
    then calls [hidePopupLater()], which on an opened popup with a positive
    [hideDelay] schedules the hide timer. *)
Theorem update_spec (r : nat) (o : PartialPopupOptions) (w : World) :
  let merged := mergeOptions DefaultPopupOptions o in
  let w0 := set_this (set_options merged (set_renderer (Some r) (this w))) w in
  let w1 := if opened (state (this w)) then exec (updatePopup false) w0 else w0 in
  let w' := exec (update r o) w in
  (key DefaultPopupOptions, trigger DefaultPopupOptions, alignTo DefaultPopupOptions,
   alignPosition DefaultPopupOptions, showDelay DefaultPopupOptions,
   hideDelay DefaultPopupOptions, transition DefaultPopupOptions,
   showImmediately DefaultPopupOptions, autoFocus DefaultPopupOptions,
   pointable DefaultPopupOptions, cacheable DefaultPopupOptions,
   keepVisible DefaultPopupOptions)
    = (None, hover, None, "b", 100, 200, Some fade, false, false, true, false, false) /\
  mergeOptions DefaultPopupOptions noOptions = DefaultPopupOptions /\
  keepVisible merged = default false (p_keepVisible o) /\
  hideDelay merged = default 200 (p_hideDelay o) /\
  renderer (this w') = Some r /\
  options (this w') = merged /\
  (opened (state (this w)) = true ->
     pending w1 = pending w ++ [ResumeUpdatePopup false] /\
     state (this w1) = state (this w) /\ timeouts w1 = timeouts w /\
     (forall rd, rendered (this w) = Some rd ->
        emitted (updatePopup false) w0 = [SetRenderer rd (Some r)])) /\
  (opened (state (this w)) = false -> w1 = w0) /\
  (preventedHiding (this w) = true -> keepVisible merged = false ->
     update r o w = hidePopupLater w1 /\
     (opened (state (this w)) = true -> willHideSoon (state (this w)) = false ->
      hideDelay merged > 0 ->
        timeouts w' = timeouts w ++ [mkTimeout hideTimeoutFn (hideDelay merged) true] /\
        willHideSoon (state (this w')) = true)) /\
  (preventedHiding (this w) && negb (keepVisible merged) = false ->
     update r o w = (Ok tt, w1)) /\
  (gap (options (this w')) = default 4 (p_gap o) /\
   stickToEdges (options (this w')) = default true (p_stickToEdges o) /\
   canSwapPosition (options (this w')) = default true (p_canSwapPosition o) /\
   canShrinkOnY (options (this w')) = default true (p_canShrinkOnY o) /\
   fixTriangle (options (this w')) = default false (p_fixTriangle o) /\
   key (options (this w')) = p_key o /\
   trigger (options (this w')) = default hover (p_trigger o) /\
   alignTo (options (this w')) = p_alignTo o /\
   alignPosition (options (this w')) = default "b" (p_alignPosition o) /\
   showDelay (options (this w')) = default 100 (p_showDelay o) /\
   hideDelay (options (this w')) = default 200 (p_hideDelay o) /\
   transition (options (this w')) = default (Some fade) (p_transition o) /\
   showImmediately (options (this w')) = default false (p_showImmediately o) /\
   autoFocus (options (this w')) = default false (p_autoFocus o) /\
   pointable (options (this w')) = default true (p_pointable o) /\
   cacheable (options (this w')) = default false (p_cacheable o) /\
   keepVisible (options (this w')) = default false (p_keepVisible o)).
Proof.
  intros merged w0 w1 w'.
  assert (Er : renderer (this w1) = Some r).
  { subst w1. destruct (opened (state (this w))); [|reflexivity].
    apply (updatePopup_keeps_renderer false w0). }
  assert (Eo : options (this w1) = merged).
  { subst w1. destruct (opened (state (this w))); [|reflexivity].
    apply (updatePopup_keeps_options false w0). }
  assert (Es : state (this w1) = state (this w)).
  { subst w1. destruct (opened (state (this w))); [|reflexivity].
    apply (updatePopup_keeps_state false w0). }
  assert (Et : timeouts w1 = timeouts w).
  { subst w1. destruct (opened (state (this w))); [|reflexivity].
    apply (updatePopup_keeps_timeouts false w0). }
  pose proof (update_run r o w) as Hrun. cbv zeta in Hrun. fold merged w0 w1 in Hrun.
  assert (Ew : options (this w') = merged).
  { subst w'. unfold exec. rewrite Hrun.
    destruct (preventedHiding (this w) && negb (keepVisible merged)); [|exact Eo].
    fold (exec hidePopupLater w1). rewrite (hidePopupLater_keeps_options w1). exact Eo. }
  split; [reflexivity|]. split; [reflexivity|]. split; [reflexivity|]. split; [reflexivity|].
  split; [|split]; [| |split; [|split; [|split; [|split]]]].
  - subst w'. unfold exec. rewrite Hrun.
    destruct (preventedHiding (this w) && negb (keepVisible merged)); [|exact Er].
    fold (exec hidePopupLater w1). rewrite (hidePopupLater_keeps_renderer w1). exact Er.
  - exact Ew.
  - intros Ho. split; [|split; [exact Es|split; [exact Et|]]].
    + subst w1. rewrite Ho. apply (updatePopup_pending false w0).
    + intros rd Hrd. apply updatePopup_rendered. exact Hrd.
  - intros Ho. subst w1. rewrite Ho. reflexivity.
  - intros Hp Hk. rewrite Hrun, Hp, Hk. split; [reflexivity|].
    intros Ho Hs Hd. subst w'. unfold exec. rewrite Hrun, Hp, Hk. cbn [andb negb].
    rewrite (hidePopupLater_run w1) by (rewrite ?Es, ?Eo; assumption).
    cbn [snd]. rewrite Et, Eo. split; reflexivity.
  - intros Hb. rewrite Hrun, Hb. reflexivity.
  - rewrite Ew. subst merged. clear.
    destruct o as [pgap pstick pswap pshrink pfix pkey ptrig palign ppos pshow phide ptrans
                   pimm pfocus ppoint pcache pkeep].
    cbn [mergeOptions DefaultPopupOptions gap stickToEdges canSwapPosition canShrinkOnY
         fixTriangle key trigger alignTo alignPosition showDelay hideDelay transition
         showImmediately autoFocus pointable cacheable keepVisible
         p_gap p_stickToEdges p_canSwapPosition p_canShrinkOnY p_fixTriangle p_key p_trigger
         p_alignTo p_alignPosition p_showDelay p_hideDelay p_transition p_showImmediately
         p_autoFocus p_pointable p_cacheable p_keepVisible].
    destruct pkey, palign; repeat split.
Qed.

Lemma update_spec_witness :
  preventedHiding (this (exec onWillHide (shown 0 (withKeepVisible true noOptions) plainDom)))
    = true /\
  timeouts (exec (update 0 (withKeepVisible false noOptions))
              (exec onWillHide (shown 0 (withKeepVisible true noOptions) plainDom)))
    = [mkTimeout hideTimeoutFn 200 true] /\
  update 0 noOptions (newWorld plainDom)
    = (Ok tt, set_this (set_options (mergeOptions DefaultPopupOptions noOptions)
                          (set_renderer (Some 0%nat) (this (newWorld plainDom))))
                (newWorld plainDom)) /\
  showDelay (options (this (exec (update 0 (withShowDelay 300 noOptions))
                              (exec (update 0 (withKeepVisible true noOptions))
                                 (newWorld plainDom))))) = 300 /\
  keepVisible (options (this (exec (update 0 (withShowDelay 300 noOptions))
                                (exec (update 0 (withKeepVisible true noOptions))
                                   (newWorld plainDom))))) = false.
Proof.
  split; [vm_compute; reflexivity|]. split; [|split; [|split]].
  - apply (update_spec 0 (withKeepVisible false noOptions)
             (exec onWillHide (shown 0 (withKeepVisible true noOptions) plainDom)));
      vm_compute; reflexivity.
  - apply (update_spec 0 noOptions (newWorld plainDom)). reflexivity.
  - pose proof (update_spec 0 (withShowDelay 300 noOptions)
                  (exec (update 0 (withKeepVisible true noOptions)) (newWorld plainDom))) as H.
    cbv zeta in H.
    destruct H as (_ & _ & _ & _ & _ & _ & _ & _ & _ & _ & B).
    destruct B as (_ & _ & _ & _ & _ & _ & _ & _ & _ & B & _). exact B.
  - pose proof (update_spec 0 (withShowDelay 300 noOptions)
                  (exec (update 0 (withKeepVisible true noOptions)) (newWorld plainDom))) as H.
    cbv zeta in H.
    destruct H as (_ & _ & _ & _ & _ & _ & _ & _ & _ & _ & B).
    destruct B as (_ & _ & _ & _ & _ & _ & _ & _ & _ & _ & _ & _ & _ & _ & _ & _ & B).
    exact B.
Defined.

(** ** [keepVisible] *)

(** The claim of C2 as stated fails: with [keepVisible] set on a shown
    popup, [hidePopupLater()] does delegate to [state.willHide], which
    schedules the hide timer, and [preventedHiding] stays [false]. *)
Lemma hidePopupLater_not_suppressed :
  keepVisible (options (this keptVisible)) = true /\
  opened (state (this keptVisible)) = true /\
  timeouts keptVisible = [] /\
  timeouts (exec hidePopupLater keptVisible) = [mkTimeout hideTimeoutFn 200 true] /\
  willHideSoon (state (this (exec hidePopupLater keptVisible))) = true /\
  preventedHiding (this (exec hidePopupLater keptVisible)) = false.
Proof. vm_compute. repeat split. Qed.

(** C2, amended: while [keepVisible] is set it is the binder's [will-hide]
    intent, [onWillHide()], that is suppressed: it calls neither
    [hidePopupLater()] nor [state.willHide] and only sets
    [preventedHiding], so that an [update] whose options have [keepVisible]
    false then issues [hidePopupLater()]; without [keepVisible] it is
    [hidePopupLater()].  [hidePopupLater()] itself has no guard: it is
    [state.willHide] with the configured [hideDelay], whatever
    [keepVisible] is. *)
Theorem onWillHide_keepVisible (w : World) :
  (keepVisible (options (this w)) = true ->
     onWillHide w = (Ok tt, set_this (set_preventedHiding true (this w)) w) /\
     forall r o, keepVisible (mergeOptions DefaultPopupOptions o) = false ->
       let w1 := exec onWillHide w in
       let w2 := set_this (set_options (mergeOptions DefaultPopupOptions o)
                             (set_renderer (Some r) (this w1))) w1 in
       update r o w1 =
         hidePopupLater (if opened (state (this w1)) then exec (updatePopup false) w2 else w2)) /\
  (keepVisible (options (this w)) = false -> onWillHide w = hidePopupLater w) /\
  hidePopupLater w =
    (let* _ := State.willHide (hideDelay (options (this w))) in ret tt) w.
Proof.
  split; [|split].
  - intros Hk.
    assert (E : onWillHide w = (Ok tt, set_this (set_preventedHiding true (this w)) w)).
    { unfold onWillHide, getOptions, bind, read. rewrite Hk. reflexivity. }
    split; [exact E|]. intros r o Hk' w1 w2.
    pose proof (update_run r o w1) as Hrun. cbv zeta in Hrun. fold w2 in Hrun.
    rewrite Hrun, Hk'. subst w1. unfold exec. rewrite E. reflexivity.
  - intros Hk. unfold onWillHide, getOptions. unfold bind at 1. unfold read at 1.
    rewrite Hk. reflexivity.
  - reflexivity.
Qed.

Lemma onWillHide_keepVisible_witness :
  onWillHide keptVisible
    = (Ok tt, set_this (set_preventedHiding true (this keptVisible)) keptVisible) /\
  onWillHide (shown 0 noOptions plainDom) = hidePopupLater (shown 0 noOptions plainDom).
Proof.
  split.
  - refine (proj1 (proj1 (onWillHide_keepVisible keptVisible) _)). vm_compute. reflexivity.
  - refine (proj1 (proj2 (onWillHide_keepVisible (shown 0 noOptions plainDom))) _).
    vm_compute. reflexivity.
Defined.

(** ** The show sequence after its [await] *)

(** C6: when [updatePopup()] resumes after [await untilComplete()] and
    [opened] is false, it returns at once: the world is left as it was (no
    popup root resolved, no style, no append, no registry update), nothing
    is thrown and no promise is rejected; and [doingShowPopup()], which
    awaited it, then goes on to [alignPopup()], which does nothing either. *)
Theorem updatePopup_resume_aborts (w : World) (finish : bool) :
  opened (state (this w)) = false ->
  updatePopup_resume w = (Ok tt, w) /\
  resume (ResumeUpdatePopup false) finish w = (Ok tt, w) /\
  resume (ResumeUpdatePopup true) finish w
    = (Ok tt, set_pending (pending w ++ [ResumeDoingShowPopup]) w) /\
  doingShowPopup_resume w = (Ok tt, w) /\
  resume ResumeDoingShowPopup finish w = (Ok tt, w) /\
  emitted updatePopup_resume w = [].
Proof.
  intros Ho.
  assert (E : updatePopup_resume w = (Ok tt, w)).
  { unfold updatePopup_resume, bind, getState, read. rewrite Ho. reflexivity. }
  assert (A : doingShowPopup_resume w = (Ok tt, w)).
  { unfold doingShowPopup_resume, alignPopup, bind, getState, read. rewrite Ho. reflexivity. }
  repeat split.
  - exact E.
  - unfold resume, settle, bind. rewrite E. reflexivity.
  - unfold resume, settle, bind. rewrite E. reflexivity.
  - exact A.
  - unfold resume, settle, bind. rewrite A. reflexivity.
  - unfold emitted, exec. rewrite E. apply drop_all.
Qed.

Lemma updatePopup_resume_aborts_witness :
  updatePopup_resume (exec hidePopup (exec showPopup (connected 0 noOptions plainDom)))
    = (Ok tt, exec hidePopup (exec showPopup (connected 0 noOptions plainDom))).
Proof.
  refine (proj1 (updatePopup_resume_aborts
                   (exec hidePopup (exec showPopup (connected 0 noOptions plainDom))) true _)).
  vm_compute. reflexivity.
Defined.

Lemma showPopup_no_mutation :
  steps (Emits (fun a => isShowMutation a = false)) showPopup.
Proof. emits ltac:(reflexivity). Qed.

Lemma showPopup_keeps_attached : steps (Keeps (fun w => attached (dom w))) showPopup.
Proof. keeps. Qed.

Lemma showPopup_keeps_pointerEvents : steps (Keeps (fun w => pointerEvents (dom w))) showPopup.
Proof. keeps. Qed.

Lemma showPopup_keeps_shared : steps (Keeps shared) showPopup.
Proof. keeps. Qed.

(** C7: when [updatePopup()] resumes with [opened] true and the first
    element child of the render result is not a [Popup], it throws the
    configuration error with the world exactly as it was on resumption: no
    style, no append, no registry insertion; the show attempt is over (the
    rejection reaches [doingShowPopup()], which never aligns).  The part of
    the show sequence that ran before the [await], from [showPopup()] on,
    has made none of these mutations either. *)
Theorem updatePopup_resume_not_a_popup (w : World) (r : nat) (finish : bool) :
  opened (state (this w)) = true ->
  rendered (this w) = Some r ->
  popupFrom (dom w) r = None ->
  updatePopup_resume w = (Throw ConfigurationError, w) /\
  resume (ResumeUpdatePopup true) finish w
    = (Ok tt, set_rejected (rejected w ++ [ConfigurationError]) w) /\
  emitted updatePopup_resume w = [] /\
  (forall w0,
     Forall (fun a => isShowMutation a = false) (emitted showPopup w0) /\
     attached (dom (exec showPopup w0)) = attached (dom w0) /\
     pointerEvents (dom (exec showPopup w0)) = pointerEvents (dom w0) /\
     shared (exec showPopup w0) = shared w0).
Proof.
  intros Ho Hr Hp.
  assert (E : updatePopup_resume w = (Throw ConfigurationError, w)).
  { destruct_all w. normB. simpl in *. subst. rewrite Hp. reflexivity. }
  repeat split.
  - exact E.
  - unfold resume, settle, bind. rewrite E. reflexivity.
  - unfold emitted, exec. rewrite E. apply drop_all.
  - destruct (showPopup_no_mutation w0) as (l & El & Fl).
    rewrite (emitted_app showPopup w0 l El). exact Fl.
  - apply (showPopup_keeps_attached w0).
  - apply (showPopup_keeps_pointerEvents w0).
  - apply (showPopup_keeps_shared w0).
Qed.

Lemma updatePopup_resume_not_a_popup_witness :
  updatePopup_resume (exec showPopup (connected 0 noOptions noPopupDom))
    = (Throw ConfigurationError, exec showPopup (connected 0 noOptions noPopupDom)).
Proof.
  refine (proj1 (updatePopup_resume_not_a_popup
                   (exec showPopup (connected 0 noOptions noPopupDom)) 0 true _ _ _));
    vm_compute; reflexivity.
Defined.

(** ** The hide sequence *)

(** [hidePopup()] on an opened popup with a leave transition: the
    synchronous part starts the transition and suspends; it removes
    nothing. *)
Lemma hidePopup_with_transition (w : World) (t : TransitionResult) :
  transition (options (this w)) = Some t ->
  opened (state (this w)) = true ->
  hidePopup w =
    (Ok tt, set_log (log w ++ [TransitionLeave t; FireOpenedChange false])
              (set_pending (pending w ++ [ResumeDoingHidePopup]) (settledState false w))) /\
  attached (dom (exec hidePopup w)) = attached (dom w) /\
  emitted hidePopup w = [TransitionLeave t; FireOpenedChange false].
Proof.
  intros Ht Ho.
  assert (E : hidePopup w =
    (Ok tt, set_log (log w ++ [TransitionLeave t; FireOpenedChange false])
              (set_pending (pending w ++ [ResumeDoingHidePopup]) (settledState false w)))).
  { unfold hidePopup. rewrite State_hide_run, Ho, doHidePopup_run.
    change (transition (options (this (settledState false w))))
      with (transition (options (this w))).
    rewrite Ht. reflexivity. }
  split; [exact E|]. unfold emitted, exec. rewrite E. split; [reflexivity|].
  cbn [snd log set_log]. apply drop_app_length.
Qed.

(** When the wait for the leave transition resolves, the popup is removed
    exactly when the transition reports that it finished; [opened] is looked
    at only afterwards, to decide whether listeners and watcher are
    released. *)
Lemma doingHidePopup_resume_removal (w : World) (finish : bool) (p : nat) :
  (PopupRemove p ∈ emitted (doingHidePopup_resume finish) w ->
     finish = true /\ popup (this w) = Some p) /\
  (finish = true -> popup (this w) = Some p ->
     PopupRemove p ∈ emitted (doingHidePopup_resume finish) w /\
     attached (dom (exec (doingHidePopup_resume finish) w)) = attached (dom w) ∖ {[p]}) /\
  (finish = false -> opened (state (this w)) = true ->
     doingHidePopup_resume finish w = (Ok tt, w)).
Proof.
  destruct_all w. normB. split; [|split].
  - destruct finish; normB.
    + destruct wpp as [q|]; normB; destruct sop; normB; try destruct wuw; normB;
        rewrite <- ?app_assoc; rewrite ?drop_app_length, ?drop_all;
        intros H; in_log H; injection H as ->; auto.
    + destruct sop; normB; try destruct wuw; normB;
        rewrite <- ?app_assoc; rewrite ?drop_app_length, ?drop_all;
        intros H; in_log H.
  - intros -> ->. normB.
    destruct sop; normB; try destruct wuw; normB;
      rewrite <- ?app_assoc; rewrite ?drop_app_length; (split; [|reflexivity]);
      apply elem_of_cons; left; reflexivity.
  - intros -> ->. reflexivity.
Qed.

(** C1: the code at the failing input.  A shown popup with the default
    options (leave transition [fade()]) is hidden and, mid-transition, shown
    again; both suspended methods are pending and [opened] is true again.
    The show sequence runs to its end without playing an enter transition
    (the popup element has an owner document), so nothing interrupts the
    leave transition, which resolves to [true].  [doingHidePopup()] then
    removes the popup and only on the next line looks at [opened]: the
    recheck that is to abort the removal comes one statement late.  The
    popup, in the document until then, is out of it while [opened] is
    true; nothing is pending that would put it back. *)
Lemma reshown_popup_removed :
  transition (options (this hiddenThenShown)) = Some fade /\
  pending hiddenThenShown = [ResumeDoingHidePopup; ResumeUpdatePopup true] /\
  opened (state (this hiddenThenShown)) = true /\
  pending shownAgain = [ResumeDoingHidePopup] /\
  elements (attached (dom shownAgain)) = [0%nat] /\
  opened (state (this shownAgain)) = true /\
  emitted (settled 0 true) shownAgain = [PopupRemove 0] /\
  elements (attached (dom afterLeave)) = [] /\
  opened (state (this afterLeave)) = true /\
  pending afterLeave = [].
Proof. vm_compute. repeat split. Qed.

(** ** Realignment *)

Lemma doingHidePopup_end_emits : steps (Emits (fun _ => True)) doingHidePopup_end.
Proof. emits ltac:(exact I). Qed.

Lemma hidePopup_opened_change (w : World) :
  opened (state (this w)) = true ->
  exists l, log (exec hidePopup w) = log w ++ l ++ [FireOpenedChange false].
Proof.
  intros Ho. unfold hidePopup, exec. rewrite State_hide_run, Ho, doHidePopup_run.
  destruct (transition (options (this (settledState false w)))) as [t|].
  - exists [TransitionLeave t]. reflexivity.
  - destruct (doingHidePopup_end_emits (settledState false w)) as (l & El & _).
    exists l. cbn [snd]. unfold exec at 1, emit, modify. cbn [snd log set_log].
    rewrite El, <- app_assoc. reflexivity.
Qed.

Lemma hidePopup_no_align : steps (Emits (fun a => isAlignAction a = false)) hidePopup.
Proof. emits ltac:(reflexivity). Qed.

Lemma alignedWorld_log (w : World) (p : nat) :
  exists l, log (alignedWorld w p) = log w ++ l /\
    FireWillAlign ∈ l /\ Align (alignable (dom w)) ∈ l.
Proof.
  unfold alignedWorld.
  destruct (alignerOutdated (aligner (this w)) (alignToElement w) (PopupEl p)); simpl;
    rewrite <- !app_assoc; eexists; (split; [reflexivity|]); split;
    repeat first [apply list_elem_of_here | apply list_elem_of_further].
Qed.

Lemma alignedWorld_state (w : World) (p : nat) :
  state (this (alignedWorld w p)) = state (this w).
Proof.
  unfold alignedWorld.
  destruct (alignerOutdated (aligner (this w)) (alignToElement w) (PopupEl p)); reflexivity.
Qed.

(** An alignment attempt of [alignPopup()] on an opened popup: it returns
    what [Aligner.align()] answers, and after a failure the popup is
    hidden. *)
Lemma alignPopup_attempt (w : World) (p : nat) :
  opened (state (this w)) = true -> popup (this w) = Some p ->
  result alignPopup w = Ok (alignable (dom w)) /\
  FireWillAlign ∈ emitted alignPopup w /\
  Align (alignable (dom w)) ∈ emitted alignPopup w /\
  isOpened (exec alignPopup w) = alignable (dom w) /\
  (alignable (dom w) = false -> FireOpenedChange false ∈ emitted alignPopup w).
Proof.
  intros Ho Hp. unfold emitted, result, exec. rewrite alignPopup_run, Ho, Hp.
  destruct (alignedWorld_log w p) as (l & El & F1 & F2).
  pose proof (alignedWorld_state w p) as Es.
  destruct (alignable (dom w)) eqn:Ha.
  - cbn [fst snd]. rewrite El, drop_app_length.
    repeat split; try assumption; [|discriminate].
    unfold isOpened. rewrite Es. exact Ho.
  - fold (result (hidePopup >> ret false) (alignedWorld w p)).
    fold (exec (hidePopup >> ret false) (alignedWorld w p)).
    rewrite (result_returns hidePopup _ _ hide_returns).
    rewrite (exec_returns hidePopup _ _ hide_returns).
    change (exec (ret false) (exec hidePopup (alignedWorld w p)))
      with (exec hidePopup (alignedWorld w p)).
    assert (Ho' : opened (state (this (alignedWorld w p))) = true) by (rewrite Es; exact Ho).
    destruct (hidePopup_opened_change (alignedWorld w p) Ho') as (l2 & E2).
    rewrite E2, El, <- app_assoc, drop_app_length.
    repeat split.
    + apply elem_of_app. left. exact F1.
    + apply elem_of_app. left. exact F2.
    + apply (hide_closed (alignedWorld w p)).
    + intros _. apply elem_of_app. right. apply elem_of_app. right. apply list_elem_of_here.
Qed.

Lemma alignPopup_false_closed (w : World) :
  result alignPopup w = Ok false -> isOpened (exec alignPopup w) = false.
Proof.
  unfold result, exec. rewrite alignPopup_run.
  destruct (opened (state (this w))) eqn:Ho; [|intros _; exact Ho].
  destruct (popup (this w)) as [p|]; [|discriminate].
  destruct (alignable (dom w)); [discriminate|]. intros _.
  fold (exec (hidePopup >> ret false) (alignedWorld w p)).
  rewrite (exec_returns hidePopup _ _ hide_returns).
  apply (hide_closed (alignedWorld w p)).
Qed.

Lemma onTriggerRectChanged_run (w : World) :
  onTriggerRectChanged w =
    if rectIntersectsViewport (dom w)
    then ((let* _ := alignPopup in ret tt) >> modThis (set_unwatchRect None)) w
    else (hidePopup >> modThis (set_unwatchRect None)) w.
Proof.
  unfold onTriggerRectChanged. unfold bind at 1. unfold read at 1.
  destruct (rectIntersectsViewport (dom w)); reflexivity.
Qed.

(** What [onTriggerRectChanged()] and a failed alignment do to [opened]:
    when the rect of the trigger element changes while the popup is shown,
    [onTriggerRectChanged()] realigns if the rect of the trigger intersects
    the viewport (one alignment attempt, after which the popup is open
    exactly when the alignment succeeded); otherwise it calls [hidePopup()]
    and attempts no alignment.  And whenever an alignment attempt of
    [alignPopup()] fails, it returns [false] and has called [hidePopup()]:
    [opened] is false and [opened-change] was fired with [false].  What
    becomes of the popup node is the matter of the hide sequence. *)
Lemma onTriggerRectChanged_opened (w : World) (p : nat) :
  opened (state (this w)) = true -> popup (this w) = Some p ->
  (rectIntersectsViewport (dom w) = false ->
     onTriggerRectChanged w = (hidePopup >> modThis (set_unwatchRect None)) w /\
     isOpened (exec onTriggerRectChanged w) = false /\
     Forall (fun a => isAlignAction a = false) (emitted onTriggerRectChanged w) /\
     FireOpenedChange false ∈ emitted onTriggerRectChanged w) /\
  (rectIntersectsViewport (dom w) = true ->
     FireWillAlign ∈ emitted onTriggerRectChanged w /\
     Align (alignable (dom w)) ∈ emitted onTriggerRectChanged w /\
     isOpened (exec onTriggerRectChanged w) = alignable (dom w) /\
     (alignable (dom w) = false -> FireOpenedChange false ∈ emitted onTriggerRectChanged w)) /\
  (alignable (dom w) = false ->
     result alignPopup w = Ok false /\
     Align false ∈ emitted alignPopup w /\
     isOpened (exec alignPopup w) = false /\
     FireOpenedChange false ∈ emitted alignPopup w) /\
  (forall w2, result alignPopup w2 = Ok false -> isOpened (exec alignPopup w2) = false).
Proof.
  intros Ho Hp. split; [|split; [|split]].
  - intros Hr.
    assert (E : onTriggerRectChanged w = (hidePopup >> modThis (set_unwatchRect None)) w)
      by (rewrite onTriggerRectChanged_run, Hr; reflexivity).
    assert (X : exec onTriggerRectChanged w
                = exec (modThis (set_unwatchRect None)) (exec hidePopup w)).
    { unfold exec at 1. rewrite E.
      fold (exec (hidePopup >> modThis (set_unwatchRect None)) w).
      apply (exec_returns hidePopup _ _ hide_returns). }
    split; [exact E|]. split; [|split].
    + rewrite X. apply (hide_closed w).
    + destruct (hidePopup_no_align w) as (l & El & Fl).
      rewrite (emitted_app onTriggerRectChanged w l); [exact Fl|]. rewrite X. exact El.
    + destruct (hidePopup_opened_change w Ho) as (l & El).
      rewrite (emitted_app onTriggerRectChanged w (l ++ [FireOpenedChange false]));
        [|rewrite X; exact El].
      apply elem_of_app. right. apply list_elem_of_here.
  - intros Hr.
    destruct (alignPopup_attempt w p Ho Hp) as (R & F1 & F2 & O & F3).
    assert (X : exec onTriggerRectChanged w
                = exec (modThis (set_unwatchRect None)) (exec alignPopup w)).
    { unfold exec at 1. rewrite onTriggerRectChanged_run, Hr.
      fold (exec ((let* _ := alignPopup in ret tt) >> modThis (set_unwatchRect None)) w).
      unfold result in R. unfold exec, bind.
      destruct (alignPopup w) as [[a|e] w2]; [reflexivity|discriminate]. }
    assert (L : emitted onTriggerRectChanged w = emitted alignPopup w)
      by (unfold emitted; rewrite X; reflexivity).
    rewrite L, X. repeat split; assumption.
  - intros Ha.
    destruct (alignPopup_attempt w p Ho Hp) as (R & F1 & F2 & O & F3).
    rewrite Ha in R, F2, O. repeat split; auto.
  - apply alignPopup_false_closed.
Qed.

Lemma onTriggerRectChanged_opened_witness :
  isOpened (exec onTriggerRectChanged scrolledOut) = false /\
  Forall (fun a => isAlignAction a = false) (emitted onTriggerRectChanged scrolledOut) /\
  isOpened (exec alignPopup unalignable) = false /\
  Align (alignable (dom (shown 0 noOptions plainDom)))
    ∈ emitted onTriggerRectChanged (shown 0 noOptions plainDom).
Proof.
  split; [|split; [|split]].
  - refine (proj1 (proj2 (proj1 (onTriggerRectChanged_opened scrolledOut 0 _ _) _)));
      vm_compute; reflexivity.
  - refine (proj1 (proj2 (proj2 (proj1 (onTriggerRectChanged_opened scrolledOut 0 _ _) _))));
      vm_compute; reflexivity.
  - refine (proj1 (proj2 (proj2
             (proj1 (proj2 (proj2 (onTriggerRectChanged_opened unalignable 0 _ _))) _))));
      vm_compute; reflexivity.
  - refine (proj1 (proj2
             (proj1 (proj2 (onTriggerRectChanged_opened (shown 0 noOptions plainDom) 0 _ _))
                _)));
      vm_compute; reflexivity.
Defined.

(** C8: the code at the failing input.  A binding is updated with
    [{transition: undefined}] and its popup is shown: it is opened and in
    the document.  Then the alignment fails, or the trigger element is
    scrolled out of the viewport.  [alignPopup()], respectively
    [onTriggerRectChanged()], does call [hidePopup()]: [opened] becomes
    false, [opened-change] is fired with [false], the leave listeners and
    the layout watcher are released.  But [doingHidePopup()] removes the
    popup only in the branch of a configured transition: here nothing
    removes it, no method is suspended and no timer is outstanding, so the
    popup stays in the document, unanchored.  With the default transition
    the same two inputs start the leave transition and suspend
    [doingHidePopup()], which removes the popup when the transition has
    finished. *)
Theorem unanchored_popup_left_attached :
  transition (options (this shownNoTransition)) = None /\
  opened (state (this shownNoTransition)) = true /\
  popup (this shownNoTransition) = Some 0%nat /\
  elements (attached (dom shownNoTransition)) = [0%nat] /\
  (result alignPopup unalignableNoTransition = Ok false /\
   emitted alignPopup unalignableNoTransition
     = [FireWillAlign; Align false; BinderUnbindLeave; LayoutUnwatch 0;
        FireOpenedChange false] /\
   opened (state (this (exec alignPopup unalignableNoTransition))) = false /\
   elements (attached (dom (exec alignPopup unalignableNoTransition))) = [0%nat] /\
   pending (exec alignPopup unalignableNoTransition) = [] /\
   showTimersOutstanding (exec alignPopup unalignableNoTransition) = 0%nat /\
   hideTimersOutstanding (exec alignPopup unalignableNoTransition) = 0%nat) /\
  (emitted onTriggerRectChanged scrolledOutNoTransition
     = [BinderUnbindLeave; LayoutUnwatch 0; FireOpenedChange false] /\
   opened (state (this (exec onTriggerRectChanged scrolledOutNoTransition))) = false /\
   elements (attached (dom (exec onTriggerRectChanged scrolledOutNoTransition)))
     = [0%nat] /\
   pending (exec onTriggerRectChanged scrolledOutNoTransition) = [] /\
   showTimersOutstanding (exec onTriggerRectChanged scrolledOutNoTransition) = 0%nat /\
   hideTimersOutstanding (exec onTriggerRectChanged scrolledOutNoTransition) = 0%nat) /\
  (transition (options (this unalignable)) = Some fade /\
   emitted alignPopup unalignable
     = [FireWillAlign; Align false; TransitionLeave fade; FireOpenedChange false] /\
   pending (exec alignPopup unalignable) = [ResumeDoingHidePopup] /\
   elements (attached (dom (exec alignPopup unalignable))) = [0%nat] /\
   emitted (settled 0 true) (exec alignPopup unalignable)
     = [PopupRemove 0; BinderUnbindLeave; LayoutUnwatch 0] /\
   elements (attached (dom (exec (settled 0 true) (exec alignPopup unalignable)))) = [] /\
   emitted onTriggerRectChanged scrolledOut = [TransitionLeave fade; FireOpenedChange false] /\
   pending (exec onTriggerRectChanged scrolledOut) = [ResumeDoingHidePopup] /\
   elements (attached (dom (exec (settled 0 true) (exec onTriggerRectChanged scrolledOut))))
     = []).
Proof. vm_compute. repeat split. Qed.


(** ** The states of [PopupState] *)

(** ** Every call of [PopupState] *)

Section StateCoherence.

Variable fire : PopupStateEvent -> M unit.
Hypothesis fire_state : forall e, steps (Keeps (fun w => state (this w))) (fire e).
Hypothesis fire_timeouts : forall e, steps (Keeps timeouts) (fire e).

Lemma StateCoherent_ext w w' :
  state (this w') = state (this w) -> timeouts w' = timeouts w ->
  StateCoherent w -> StateCoherent w'.
Proof. unfold StateCoherent. intros -> ->. auto. Qed.

Lemma NoTimer_ext w w' : timeouts w' = timeouts w -> NoTimer w -> NoTimer w'.
Proof. unfold NoTimer. intros ->. auto. Qed.

Lemma canceled_lookup_opt (ts : list Timeout) o id t :
  canceled o ts !! id = Some t -> t_running t = true -> ts !! id = Some t /\ o <> Some id.
Proof.
  destruct o as [n|]; simpl; intros Hl Hr.
  - destruct (canceled_lookup ts n id t Hl Hr). split; [assumption|congruence].
  - split; [assumption|discriminate].
Qed.

Lemma settledState_noTimer o w : StateCoherent w -> NoTimer (settledState o w).
Proof.
  intros (_ & _ & H) id t Hl. destruct (t_running t) eqn:Hr; [exfalso|reflexivity].
  unfold settledState in Hl. cbn [timeouts set_this set_timeouts] in Hl.
  apply canceled_lookup_opt in Hl as [Hl N1]; [|assumption].
  apply canceled_lookup_opt in Hl as [Hl N2]; [|assumption].
  specialize (H id t Hl Hr). destruct (t_fn t); destruct H as [E _]; congruence.
Qed.

Lemma NoTimer_coherent w :
  NoTimer w -> willShowSoon (state (this w)) = false ->
  willHideSoon (state (this w)) = false -> StateCoherent w.
Proof.
  intros H Hs Hh. split; [|split].
  - rewrite Hs. discriminate.
  - rewrite Hh. discriminate.
  - intros id t Hl Hr. rewrite (H id t Hl) in Hr. discriminate.
Qed.

Lemma settledState_coherent o w : StateCoherent w -> StateCoherent (settledState o w).
Proof. intros H. apply NoTimer_coherent; [apply settledState_noTimer, H|reflexivity..]. Qed.

Lemma show_run w :
  PopupStateClass.show fire w =
    if opened (state (this w)) then (Ok tt, settledState true w)
    else fire do_show (settledState true w).
Proof. destruct_world w. norm. destruct ssto, shto, sop; reflexivity. Qed.

Lemma hide_run w :
  PopupStateClass.hide fire w =
    if opened (state (this w)) then fire do_hide (settledState false w)
    else (Ok tt, settledState false w).
Proof. destruct_world w. norm. destruct ssto, shto, sop; reflexivity. Qed.

Lemma clear_run w : PopupStateClass.clear w = (Ok tt, settledState false w).
Proof. destruct_world w. norm. destruct ssto, shto; reflexivity. Qed.

Lemma fire_coherent e w : StateCoherent w -> StateCoherent (exec (fire e) w).
Proof. apply StateCoherent_ext; [apply fire_state|apply fire_timeouts]. Qed.

Lemma show_coherent w :
  StateCoherent w -> StateCoherent (exec (PopupStateClass.show fire) w).
Proof.
  intros H. unfold exec. rewrite show_run.
  destruct (opened (state (this w))); [apply settledState_coherent, H|].
  apply fire_coherent, settledState_coherent, H.
Qed.

Lemma hide_coherent w :
  StateCoherent w -> StateCoherent (exec (PopupStateClass.hide fire) w).
Proof.
  intros H. unfold exec. rewrite hide_run.
  destruct (opened (state (this w))); [|apply settledState_coherent, H].
  apply fire_coherent, settledState_coherent, H.
Qed.

Lemma clear_coherent w : StateCoherent w -> StateCoherent (exec PopupStateClass.clear w).
Proof. intros H. unfold exec. rewrite clear_run. apply settledState_coherent, H. Qed.

Lemma willNotShow_coherent w :
  StateCoherent w -> StateCoherent (exec PopupStateClass.willNotShow w).
Proof.
  intros (H1 & H2 & H3). destruct_world w. unfold StateCoherent in *. norm.
  simpl in *.
  destruct ssto as [n|]; norm; simpl in *; (split; [discriminate|]); (split; [exact H2|]).
  - intros id t Hl Hr. apply canceled_lookup in Hl as [Hl Hne]; [|assumption].
    specialize (H3 id t Hl Hr). destruct (t_fn t); [|exact H3].
    destruct H3 as [E _]. congruence.
  - intros id t Hl Hr. specialize (H3 id t Hl Hr). destruct (t_fn t); [|exact H3].
    destruct H3 as [E _]. discriminate.
Qed.

Lemma willNotHide_coherent w :
  StateCoherent w -> StateCoherent (exec PopupStateClass.willNotHide w).
Proof.
  intros (H1 & H2 & H3). destruct_world w. unfold StateCoherent in *. norm. simpl in *.
  destruct shto as [n|]; norm; simpl in *; (split; [exact H1|]); (split; [discriminate|]).
  - intros id t Hl Hr. apply canceled_lookup in Hl as [Hl Hne]; [|assumption].
    specialize (H3 id t Hl Hr). destruct (t_fn t); [exact H3|].
    destruct H3 as [E _]. congruence.
  - intros id t Hl Hr. specialize (H3 id t Hl Hr). destruct (t_fn t); [exact H3|].
    destruct H3 as [E _]. discriminate.
Qed.

Lemma willShow_coherent d w :
  StateCoherent w -> StateCoherent (exec (PopupStateClass.willShow fire d) w).
Proof.
  intros H. unfold PopupStateClass.willShow. rewrite exec_bind_getState.
  destruct (opened (state (this w)) || willShowSoon (state (this w))) eqn:Hb; [exact H|].
  apply orb_false_iff in Hb as [Ho Hs].
  destruct (d >? 0) eqn:Hd.
  - destruct H as (H1 & H2 & H3). destruct_world w. unfold StateCoherent in *. norm.
    simpl in *. subst. split; [reflexivity|]. split; [exact H2|].
    intros id t Hl Hr. apply lookup_newTimeout in Hl as [Hl|[-> ->]]; [|simpl; auto].
    specialize (H3 id t Hl Hr). destruct (t_fn t); destruct H3 as [_ E]; [discriminate|].
    specialize (H2 E). discriminate.
  - assert (T : exists a, result (PopupStateClass.show fire) w = Ok a \/
                          exec (PopupStateClass.show fire >> ret true) w
                          = exec (PopupStateClass.show fire) w).
    { exists tt. unfold result, exec, bind.
      destruct (PopupStateClass.show fire w) as [[[]|e] w']; auto. }
    destruct T as [a [T|T]].
    + rewrite (exec_bind _ _ w a T). apply show_coherent, H.
    + rewrite T. apply show_coherent, H.
Qed.

Lemma willHide_coherent d w :
  StateCoherent w -> StateCoherent (exec (PopupStateClass.willHide fire d) w).
Proof.
  intros H. unfold PopupStateClass.willHide. rewrite exec_bind_getState.
  destruct (negb (opened (state (this w))) || willHideSoon (state (this w))) eqn:Hb;
    [exact H|].
  apply orb_false_iff in Hb as [Ho Hs]. apply negb_false_iff in Ho.
  destruct (d >? 0) eqn:Hd.
  - destruct H as (H1 & H2 & H3). destruct_world w. unfold StateCoherent in *. norm.
    simpl in *. subst. split; [exact H1|]. split; [reflexivity|].
    intros id t Hl Hr. apply lookup_newTimeout in Hl as [Hl|[-> ->]]; [|simpl; auto].
    specialize (H3 id t Hl Hr). destruct (t_fn t); destruct H3 as [_ E]; [|discriminate].
    specialize (H1 E). discriminate.
  - assert (T : exists a, result (PopupStateClass.hide fire) w = Ok a \/
                          exec (PopupStateClass.hide fire >> ret true) w
                          = exec (PopupStateClass.hide fire) w).
    { exists tt. unfold result, exec, bind.
      destruct (PopupStateClass.hide fire w) as [[[]|e] w']; auto. }
    destruct T as [a [T|T]].
    + rewrite (exec_bind _ _ w a T). apply hide_coherent, H.
    + rewrite T. apply hide_coherent, H.
Qed.

Lemma cancel_coherent id w : StateCoherent w -> StateCoherent (exec (cancel id) w).
Proof.
  intros (H1 & H2 & H3). split; [exact H1|]. split; [exact H2|].
  intros i t Hl Hr. unfold exec, cancel, modify in Hl. simpl in Hl.
  apply canceled_lookup in Hl as [Hl _]; [|assumption]. apply (H3 i t Hl Hr).
Qed.

Lemma fireTimeout_coherent id w :
  StateCoherent w -> StateCoherent (exec (PopupStateClass.fireTimeout fire id) w).
Proof.
  intros H. unfold PopupStateClass.fireTimeout. rewrite exec_bind_read.
  destruct (timeouts w !! id) as [t|] eqn:Hl; [|exact H].
  destruct (t_running t) eqn:Hr; [|exact H].
  unfold cancel at 1. rewrite exec_bind_modify. fold (exec (cancel id) w).
  pose proof (cancel_coherent id w H) as Hc.
  destruct (t_fn t) eqn:Hf; simpl.
  - unfold modState at 1. rewrite exec_bind_modify.
    apply show_coherent. destruct Hc as (C1 & C2 & C3).
    split; [exact C1|]. split; [exact C2|].
    intros i t' Hl' Hr'. specialize (C3 i t' Hl' Hr').
    destruct (t_fn t') eqn:Hf'; [exfalso|exact C3].
    destruct C3 as [Ei _]. destruct H as (_ & _ & H3).
    unfold exec, cancel, modify in Hl'. simpl in Hl'.
    apply canceled_lookup in Hl' as [Hl' Hne]; [|assumption].
    specialize (H3 id t Hl Hr). rewrite Hf in H3. destruct H3 as [Eid _].
    simpl in Ei. congruence.
  - apply hide_coherent, Hc.
Qed.

Lemma stateCall_coherent c w :
  StateCoherent w -> StateCoherent (exec (stateCall fire c) w).
Proof.
  intros H. destruct c as [d| |d| | | | |id]; simpl.
  - pose proof (willShow_coherent d w H) as T. unfold exec, bind in *.
    destruct (PopupStateClass.willShow fire d w) as [[a|e] w']; exact T.
  - apply willNotShow_coherent, H.
  - pose proof (willHide_coherent d w H) as T. unfold exec, bind in *.
    destruct (PopupStateClass.willHide fire d w) as [[a|e] w']; exact T.
  - apply willNotHide_coherent, H.
  - apply show_coherent, H.
  - apply hide_coherent, H.
  - apply clear_coherent, H.
  - apply fireTimeout_coherent, H.
Qed.

End StateCoherence.

Lemma coherent_outstanding w :
  StateCoherent w ->
  (showTimersOutstanding w <= 1)%nat /\ (hideTimersOutstanding w <= 1)%nat.
Proof.
  intros (_ & _ & H). split; apply countOutstanding_le_1;
    intros i j ti tj Hi Hj Hri Hki Hrj Hkj;
    pose proof (H i ti Hi Hri) as Ti; pose proof (H j tj Hj Hrj) as Tj;
    unfold isShowTimeout in Hki, Hkj;
    destruct (t_fn ti), (t_fn tj); try discriminate;
    destruct Ti as [Ei _], Tj as [Ej _]; congruence.
Qed.

Lemma newWorld_coherent d : StateCoherent (newWorld d).
Proof.
  split; [discriminate|]. split; [discriminate|]. intros id t Hl. discriminate.
Qed.

Lemma logFire_state e : steps (Keeps (fun w => state (this w))) (logFire e).
Proof. intros w. reflexivity. Qed.

Lemma logFire_timeouts e : steps (Keeps timeouts) (logFire e).
Proof. intros w. reflexivity. Qed.

Lemma runStateCalls_coherent fire :
  (forall e, steps (Keeps (fun w => state (this w))) (fire e)) ->
  (forall e, steps (Keeps timeouts) (fire e)) ->
  forall cs w, StateCoherent w -> Forall StateCoherent (runStateCalls fire cs w).
Proof.
  intros F1 F2. induction cs as [|c cs IH]; intros w H; simpl; constructor.
  - apply stateCall_coherent; assumption.
  - apply IH, stateCall_coherent; assumption.
Qed.

Lemma coherent_pending w : StateCoherent w -> pendingCoherent w = true.
Proof.
  intros (H1 & H2 & _). unfold pendingCoherent.
  destruct (willShowSoon (state (this w))), (willHideSoon (state (this w))),
    (opened (state (this w))); simpl in *; auto; try (discriminate H1; reflexivity);
    try (discriminate H2; reflexivity).
Qed.

(** X2: whatever methods of a new [PopupState] are called, in whatever order
    and with timers elapsing in between, after every call at most one show
    timer and at most one hide timer are outstanding, a show is pending only
    while the popup is not opened, and a hide only while it is. *)
Theorem popupState_coherent (d : Dom) (cs : list StateCall) :
  Forall (fun w =>
            (showTimersOutstanding w <= 1)%nat /\
            (hideTimersOutstanding w <= 1)%nat /\
            pendingCoherent w = true)
         (runStateCalls logFire cs (newWorld d)).
Proof.
  eapply Forall_impl.
  - apply (runStateCalls_coherent logFire logFire_state logFire_timeouts cs),
      newWorld_coherent.
  - intros w H. destruct (coherent_outstanding w H) as [A B].
    auto using coherent_pending.
Qed.

Lemma last_runStateCalls_coherent fire :
  (forall e, steps (Keeps (fun w => state (this w))) (fire e)) ->
  (forall e, steps (Keeps timeouts) (fire e)) ->
  forall cs w dflt, StateCoherent w -> StateCoherent dflt ->
    StateCoherent (List.last (runStateCalls fire cs w) dflt).
Proof.
  intros F1 F2. induction cs as [|c cs IH]; intros w dflt H H0; [exact H0|].
  change (runStateCalls fire (c :: cs) w)
    with (exec (stateCall fire c) w :: runStateCalls fire cs (exec (stateCall fire c) w)).
  rewrite last_cons_default.
  apply IH; apply stateCall_coherent; assumption.
Qed.

Lemma afterStateCalls_coherent d cs : StateCoherent (afterStateCalls d cs).
Proof.
  apply last_runStateCalls_coherent; auto using logFire_state, logFire_timeouts, newWorld_coherent.
Qed.

(** X1: [willHide(delay)] mirrors [willShow(delay)].  When the popup is not
    opened or a hide is pending it returns [false] and changes nothing;
    otherwise it returns [true], and with [delay <= 0] it closes the popup
    and fires [do-hide] once, scheduling no timer, while with [delay > 0]
    it schedules exactly one hide timer with that delay, holds it in
    [hideTimeout] and sets [willHideSoon], firing nothing. *)
Theorem willHide_spec (d : Z) (w : World) :
  let s := state (this w) in
  let w' := exec (PopupStateClass.willHide logFire d) w in
  (negb (opened s) || willHideSoon s = true ->
     PopupStateClass.willHide logFire d w = (Ok false, w)) /\
  (negb (opened s) || willHideSoon s = false -> d <= 0 ->
     result (PopupStateClass.willHide logFire d) w = Ok true /\
     opened (state (this w')) = false /\
     willHideSoon (state (this w')) = false /\
     hideTimeout (state (this w')) = None /\
     log w' = log w ++ [FirePopupState do_hide] /\
     length (timeouts w') = length (timeouts w) /\
     Shrinks w w') /\
  (negb (opened s) || willHideSoon s = false -> d > 0 ->
     result (PopupStateClass.willHide logFire d) w = Ok true /\
     timeouts w' = timeouts w ++ [mkTimeout hideTimeoutFn d true] /\
     hideTimeout (state (this w')) = Some (length (timeouts w)) /\
     willHideSoon (state (this w')) = true /\
     opened (state (this w')) = true /\
     log w' = log w).
Proof.
  intros s w'. split; [|split].
  - subst s w'. destruct_world w. norm. intros ->. reflexivity.
  - intros Hb Hd.
    assert (HS : Shrinks w w').
    { subst s w'. unfold PopupStateClass.willHide. rewrite exec_bind_getState.
      rewrite Hb. assert (Hg : (d >? 0) = false) by lia. rewrite Hg. steps_Shrinks. }
    revert HS. subst s w'. revert Hb. destruct_world w. norm. intros Hb HS.
    assert (Hg : (d >? 0) = false) by lia. rewrite Hb, Hg in *.
    destruct sop, swhs; try discriminate.
    destruct ssto, shto; norm; simpl; rewrite ?length_alter; repeat split; exact HS.
  - subst s w'. destruct_world w. norm. intros Hb Hd.
    assert (Hg : (d >? 0) = true) by lia. rewrite Hb, Hg.
    destruct sop, swhs; try discriminate. repeat split.
Qed.

Lemma willHide_spec_witness :
  PopupStateClass.willHide logFire 0 (newWorld plainDom) = (Ok false, newWorld plainDom) /\
  log (exec (PopupStateClass.willHide logFire 0)
         (exec (PopupStateClass.show logFire) (newWorld plainDom)))
    = [FirePopupState do_show; FirePopupState do_hide] /\
  timeouts (exec (PopupStateClass.willHide logFire 200)
              (exec (PopupStateClass.show logFire) (newWorld plainDom)))
    = [mkTimeout hideTimeoutFn 200 true].
Proof.
  split; [|split].
  - refine (proj1 (willHide_spec 0 (newWorld plainDom)) _). reflexivity.
  - pose proof (proj1 (proj2
      (willHide_spec 0 (exec (PopupStateClass.show logFire) (newWorld plainDom))))) as H.
    refine (proj1 (proj2 (proj2 (proj2 (proj2 (H _ _)))))); [reflexivity|lia].
  - pose proof (proj2 (proj2
      (willHide_spec 200 (exec (PopupStateClass.show logFire) (newWorld plainDom))))) as H.
    refine (proj1 (proj2 (H _ _))); [reflexivity|lia].
Defined.

Lemma NoTimer_fireTimeout fire id w :
  NoTimer w -> PopupStateClass.fireTimeout fire id w = (Ok tt, w).
Proof.
  intros H. unfold PopupStateClass.fireTimeout, bind, read.
  destruct (timeouts w !! id) as [t|] eqn:Hl; [|reflexivity].
  rewrite (H id t Hl). reflexivity.
Qed.

(** X3: [clear()] fires no event, whatever the calls made before it; after
    it the popup is not opened, nothing is pending and no timer is
    outstanding: whichever timer elapses later, nothing happens. *)
Theorem clear_silent (d : Dom) (cs : list StateCall) (id : nat) :
  let w := afterStateCalls d cs in
  let w' := exec PopupStateClass.clear w in
  log w' = log w /\
  opened (state (this w')) = false /\
  willShowSoon (state (this w')) = false /\
  willHideSoon (state (this w')) = false /\
  showTimersOutstanding w' = 0%nat /\
  hideTimersOutstanding w' = 0%nat /\
  PopupStateClass.fireTimeout logFire id w' = (Ok tt, w').
Proof.
  intros w w'.
  assert (N : NoTimer w').
  { subst w'. unfold exec. rewrite clear_run. apply settledState_noTimer.
    apply afterStateCalls_coherent. }
  subst w'. unfold exec in *. rewrite clear_run in *. cbn [snd] in *.
  repeat split.
  - apply countOutstanding_zero. intros i t Hl Hr. rewrite (N i t Hl) in Hr. discriminate.
  - apply countOutstanding_zero. intros i t Hl Hr. rewrite (N i t Hl) in Hr. discriminate.
  - apply NoTimer_fireTimeout, N.
Qed.

(** ** The life of a binding *)

Lemma Kept_trans I w1 w2 w3 : Kept I w1 w2 -> Kept I w2 w3 -> Kept I w1 w3.
Proof. unfold Kept. auto. Qed.

Lemma kept_bind {A B} I (m : M A) (k : A -> M B) :
  steps (Kept I) m -> (forall a, steps (Kept I) (k a)) -> steps (Kept I) (bind m k).
Proof. apply steps_bind, Kept_trans. Qed.

Lemma kept_settle I (m : M unit) :
  (forall w e, I w -> I (set_rejected e w)) ->
  steps (Kept I) m -> steps (Kept I) (settle m).
Proof.
  intros Hr Hm w H. specialize (Hm w H). unfold exec, settle in *.
  destruct (m w) as [[a|e] w']; simpl in *; auto.
Qed.

Lemma stateFire_keeps_timeouts e : steps (Keeps timeouts) (stateFire e).
Proof. destruct e; keeps. Qed.

Lemma coherent_frame {A} (m : M A) :
  steps (Keeps (fun w => state (this w))) m -> steps (Keeps timeouts) m ->
  steps (Kept StateCoherent) m.
Proof. intros H1 H2 w H. exact (StateCoherent_ext w _ (H1 w) (H2 w) H). Qed.

Lemma rendered_frame {A} (m : M A) :
  steps (Keeps (fun w => opened (state (this w)))) m ->
  steps (Keeps (fun w => rendered (this w))) m ->
  steps (Kept OpenedRendered) m.
Proof. intros H1 H2 w. unfold Kept, OpenedRendered. rewrite (H1 w), (H2 w). auto. Qed.

Lemma rendered_closed {A} (m : M A) :
  (forall w, isOpened (exec m w) = false) -> steps (Kept OpenedRendered) m.
Proof. intros H w _. unfold OpenedRendered. specialize (H w). unfold isOpened in H. rewrite H. exact I. Qed.

Lemma updateRenderedProperty_rendered w :
  is_Some (rendered (this (exec updateRenderedProperty w))).
Proof.
  destruct_all w. normB.
  destruct wrd as [rd|]; normB; [eexists; reflexivity|].
  destruct okey as [[|c k]|]; normB;
    [|destruct (wsh !! String c k) as [ci|]; normB|]; eexists; reflexivity.
Qed.

Lemma updatePopup_is_rendered a w : is_Some (rendered (this (exec (updatePopup a) w))).
Proof.
  unfold updatePopup. rewrite exec_returns by returns.
  apply updateRenderedProperty_rendered.
Qed.

Lemma doShowPopup_rendered w : is_Some (rendered (this (exec doShowPopup w))).
Proof.
  unfold doShowPopup, doingShowPopup.
  rewrite (exec_returns _ _ w (updatePopup_returns true)).
  apply updatePopup_is_rendered.
Qed.

(** The methods of [this.state] keep both parts of the invariant. *)
Lemma coherent_show : steps (Kept StateCoherent) State.show.
Proof.
  intros w H. apply show_coherent; auto using stateFire_keeps_state, stateFire_keeps_timeouts.
Qed.

Lemma coherent_hide : steps (Kept StateCoherent) State.hide.
Proof.
  intros w H. apply hide_coherent; auto using stateFire_keeps_state, stateFire_keeps_timeouts.
Qed.

Lemma coherent_clear : steps (Kept StateCoherent) State.clear.
Proof. intros w H. apply clear_coherent, H. Qed.

Lemma coherent_willNotShow : steps (Kept StateCoherent) State.willNotShow.
Proof. intros w H. apply willNotShow_coherent, H. Qed.

Lemma coherent_willNotHide : steps (Kept StateCoherent) State.willNotHide.
Proof. intros w H. apply willNotHide_coherent, H. Qed.

Lemma coherent_willShow d : steps (Kept StateCoherent) (State.willShow d).
Proof.
  intros w H. apply willShow_coherent; auto using stateFire_keeps_state, stateFire_keeps_timeouts.
Qed.

Lemma coherent_willHide d : steps (Kept StateCoherent) (State.willHide d).
Proof.
  intros w H. apply willHide_coherent; auto using stateFire_keeps_state, stateFire_keeps_timeouts.
Qed.

Lemma coherent_fireTimeout id : steps (Kept StateCoherent) (State.fireTimeout id).
Proof.
  intros w H. apply fireTimeout_coherent; auto using stateFire_keeps_state, stateFire_keeps_timeouts.
Qed.

Lemma coherent_updatePopup a : steps (Kept StateCoherent) (updatePopup a).
Proof. apply coherent_frame; [apply updatePopup_keeps_state|apply updatePopup_keeps_timeouts]. Qed.

Lemma rendered_show : steps (Kept OpenedRendered) State.show.
Proof.
  intros w H. unfold exec. rewrite State_show_run. unfold OpenedRendered in *.
  destruct (opened (state (this w))) eqn:Ho.
  - simpl. exact H.
  - pose proof (stateFire_keeps_state do_show (settledState true w)) as K.
    unfold Keeps, exec in K. simpl in K. rewrite K. simpl.
    apply doShowPopup_rendered.
Qed.

Lemma rendered_hide : steps (Kept OpenedRendered) State.hide.
Proof. apply rendered_closed, hide_closed. Qed.

Lemma rendered_clear : steps (Kept OpenedRendered) State.clear.
Proof. apply rendered_closed. intros w. unfold exec, State.clear. rewrite clear_run. reflexivity. Qed.

Lemma rendered_updatePopup a : steps (Kept OpenedRendered) (updatePopup a).
Proof.
  intros w _. unfold OpenedRendered.
  destruct (opened _); [apply updatePopup_is_rendered|exact I].
Qed.

Ltac unfold_handlers := cbv delta [
  PopupStateClass.willShow PopupStateClass.willHide PopupStateClass.callTimeoutFn
  PopupStateClass.fireTimeout State.willShow State.willHide State.fireTimeout
  doingHidePopup_end doingHidePopup doingHidePopup_resume doHidePopup
  showPopupLater showPopup hidePopupLater hidePopup
  onWillShow onWillHide onCancelShow onImmediateHide onToggleShowHide
  getAlignToElement getAlignerOptions alignPopup mayGetFocus appendPopup
  updatePopupProperty updatePopup_resume doingShowPopup_resume onTriggerRectChanged
  update afterConnectCallback beforeDisconnectCallback canContentReuse clearContent
  resume settled handle callUnwatchRect nonNull cancel_opt]; cbv beta.

(** Proves [steps (Kept I) m] along the structure of [m]: [leaf] settles
    the methods of [this.state], [frame] what leaves the invariant's part of
    the world alone. *)
Ltac kept leaf frame :=
  repeat first
    [ leaf
    | apply kept_settle; [intros ? ? H; exact H|]
    | apply kept_bind; [|intros ?]
    | match goal with
      | |- steps _ (match ?x with _ => _ end) => destruct x
      end
    | frame ].

Ltac leaf_coherent :=
  first [ apply coherent_show | apply coherent_hide | apply coherent_clear
        | apply coherent_willNotShow | apply coherent_willNotHide | apply coherent_willShow
        | apply coherent_willHide | apply coherent_fireTimeout | apply coherent_updatePopup ].
Ltac frame_coherent := apply coherent_frame; solve [intros ?; reflexivity].

Ltac leaf_rendered :=
  first [ apply rendered_show | apply rendered_hide | apply rendered_clear
        | apply rendered_updatePopup ].
Ltac frame_rendered := apply rendered_frame; solve [intros ?; reflexivity].

Lemma rendered_willNotShow : steps (Kept OpenedRendered) State.willNotShow.
Proof. apply rendered_frame; keeps. Qed.

Lemma rendered_willNotHide : steps (Kept OpenedRendered) State.willNotHide.
Proof. apply rendered_frame; keeps. Qed.

Lemma rendered_willShow d : steps (Kept OpenedRendered) (State.willShow d).
Proof. unfold_handlers. kept leaf_rendered frame_rendered. Qed.

Lemma rendered_willHide d : steps (Kept OpenedRendered) (State.willHide d).
Proof. unfold_handlers. kept leaf_rendered frame_rendered. Qed.

Lemma rendered_fireTimeout id : steps (Kept OpenedRendered) (State.fireTimeout id).
Proof. unfold_handlers. kept leaf_rendered frame_rendered. Qed.

Ltac leaf_rendered' :=
  first [ leaf_rendered | apply rendered_willNotShow | apply rendered_willNotHide
        | apply rendered_willShow | apply rendered_willHide | apply rendered_fireTimeout ].

Lemma clearContent_closed w : isOpened (exec clearContent w) = false.
Proof.
  destruct_all w. normB.
  destruct wpp as [p|], sop, okey as [[|c k]|], ssto, shto, wuw; reflexivity.
Qed.

Lemma handle_coherent e : steps (Kept StateCoherent) (handle e).
Proof. destruct e; cbn [handle]; unfold_handlers; kept leaf_coherent frame_coherent. Qed.

Lemma handle_rendered e : steps (Kept OpenedRendered) (handle e).
Proof.
  destruct e; cbn [handle]; try (apply rendered_closed, clearContent_closed);
    unfold_handlers; kept leaf_rendered' frame_rendered.
Qed.

Lemma handle_kept e w : BindingCoherent w -> BindingCoherent (exec (handle e) w).
Proof. intros [H J]. split; [apply handle_coherent, H|apply handle_rendered, J]. Qed.

Lemma newWorld_binding_coherent d : BindingCoherent (newWorld d).
Proof. split; [apply newWorld_coherent|exact I]. Qed.

Lemma runEvents_coherent es : forall w,
  BindingCoherent w -> Forall BindingCoherent (runEvents es w).
Proof.
  induction es as [|e es IH]; intros w H; simpl; constructor.
  - apply handle_kept, H.
  - apply IH, handle_kept, H.
Qed.

Lemma last_runEvents_coherent es : forall w dflt,
  BindingCoherent w -> BindingCoherent dflt ->
  BindingCoherent (List.last (runEvents es w) dflt).
Proof.
  induction es as [|e es IH]; intros w dflt H H0; [exact H0|].
  change (runEvents (e :: es) w)
    with (exec (handle e) w :: runEvents es (exec (handle e) w)).
  rewrite last_cons_default. apply IH; apply handle_kept; assumption.
Qed.

Lemma afterEvents_coherent d es : BindingCoherent (afterEvents d es).
Proof. apply last_runEvents_coherent; apply newWorld_binding_coherent. Qed.

(** X4: whatever happens to a new binding (connection, trigger events,
    calls of its public methods, timers that elapse, promises that settle
    in whatever order, layout reports, changes of the document and of the
    registry of shared popups), after every event at most one show timer and
    at most one hide timer are outstanding, a show is pending only while
    the popup is not opened and a hide only while it is, and while the popup
    is opened the binding holds a render result. *)
Theorem binding_coherent (d : Dom) (es : list Event) :
  Forall (fun w =>
            (showTimersOutstanding w <= 1)%nat /\
            (hideTimersOutstanding w <= 1)%nat /\
            pendingCoherent w = true /\
            (if isOpened w then is_Some (rendered (this w)) else True))
         (runEvents es (newWorld d)).
Proof.
  eapply Forall_impl.
  - apply runEvents_coherent, newWorld_binding_coherent.
  - intros w [H J]. destruct (coherent_outstanding w H) as [A B].
    auto using coherent_pending.
Qed.

(** ** [appendPopup] and [updatePopup], run *)

Lemma bind_run {A B} (m : M A) (k : A -> M B) (w : World) :
  bind m k w = match m w with
               | (Ok a, w') => k a w'
               | (Throw e, w') => (Throw e, w')
               end.
Proof. reflexivity. Qed.

(** One statement of a method is run. *)
Ltac run1 :=
  rewrite bind_run;
  cbv beta iota delta [read getState getOptions ret throw nonNull modThis modDom modBinder
                       modState modify emit suspend].

Ltac fields := cbn [
  set_opened set_willShowSoon set_willHideSoon set_showTimeout set_hideTimeout
  set_b_trigger set_b_enterBound set_b_leave
  set_state set_binder set_options set_renderer set_unwatchRect set_rendered set_popup
  set_aligner set_preventedHiding
  set_attached set_pointerEvents set_renderCount set_watchCount set_watching
  set_this set_timeouts set_shared set_dom set_pending set_rejected set_log
  opened willShowSoon willHideSoon showTimeout hideTimeout
  b_trigger b_enterBound b_leave
  state binder options renderer unwatchRect rendered popup aligner preventedHiding
  attached pointerEvents popupFrom ownerDocument tabIndex querySelector triangle
  rectIntersectsViewport alignable renderCount watchCount watching
  this timeouts shared dom pending rejected log fst snd] in *.

Lemma mayGetFocus_run (w : World) (p : nat) :
  popup (this w) = Some p ->
  mayGetFocus w = (Ok tt, if focusable w p then exec (emit (Focus p)) w else w).
Proof.
  intros Hp. unfold mayGetFocus, focusable. do 2 run1. rewrite Hp. do 3 run1.
  destruct (_ && _ && _); reflexivity.
Qed.

Lemma alignedWorld_dom (w : World) (p : nat) : dom (alignedWorld w p) = dom w.
Proof.
  unfold alignedWorld.
  destruct (alignerOutdated (aligner (this w)) (alignToElement w) (PopupEl p)); reflexivity.
Qed.

Ltac run := repeat run1.

Ltac aligned_frame :=
  intros; unfold alignedWorld;
  match goal with
  | |- context [alignerOutdated ?a ?b ?c] => destruct (alignerOutdated a b c); reflexivity
  end.

Lemma alignedWorld_popup w p : popup (this (alignedWorld w p)) = popup (this w).
Proof. aligned_frame. Qed.
Lemma alignedWorld_options w p : options (this (alignedWorld w p)) = options (this w).
Proof. aligned_frame. Qed.
Lemma alignedWorld_binder w p : binder (this (alignedWorld w p)) = binder (this w).
Proof. aligned_frame. Qed.

Lemma appendPopup_run (w : World) (p : nat) :
  opened (state (this w)) = true -> popup (this w) = Some p ->
  appendPopup w =
    if alignable (dom w) then (Ok tt, appendedWorld w p)
    else (Ok tt, exec hidePopup (alignedWorld (exec (Popup_applyAppendTo p) w) p)).
Proof.
  intros Ho Hp.
  assert (E1 : exec (Popup_applyAppendTo p) w =
               set_dom (set_attached ({[p]} ∪ attached (dom w)) (dom w))
                 (set_log (log w ++ [PopupApplyAppendTo p]) w)) by reflexivity.
  set (w1 := exec (Popup_applyAppendTo p) w) in *.
  set (rhs := if alignable (dom w) then _ else _).
  unfold appendPopup. run1. rewrite Hp. run.
  unfold Popup_applyAppendTo at 1. run. fields. rewrite <- E1.
  rewrite alignPopup_run.
  change (opened (state (this w1))) with (opened (state (this w))).
  change (popup (this w1)) with (popup (this w)).
  change (alignable (dom w1)) with (alignable (dom w)).
  rewrite Ho, Hp. subst rhs.
  destruct (alignable (dom w)) eqn:Ha.
  - cbv beta iota delta [negb]. run1.
    rewrite (mayGetFocus_run _ p) by (rewrite alignedWorld_popup; exact Hp).
    assert (Ef : focusable (alignedWorld w1 p) p = focusable w p).
    { unfold focusable. rewrite alignedWorld_options, alignedWorld_binder, alignedWorld_dom.
      reflexivity. }
    rewrite Ef. unfold appendedWorld. fold w1.
    set (w2 := if focusable w p then _ else _).
    assert (Eo : options (this w2) = options (this w)).
    { subst w2. destruct (focusable w p); [change (options (this (alignedWorld w1 p)) = options (this w))|];
        rewrite alignedWorld_options; reflexivity. }
    run1. rewrite Eo.
    destruct (transition (options (this w))) as [t|]; [destruct (ownerDocument (dom w) p)|];
      reflexivity.
  - rewrite bind_run.
    pose proof (hide_returns (alignedWorld w1 p)) as [[] R].
    unfold result, exec in *. change State.hide with hidePopup in R.
    unfold bind at 1. destruct (hidePopup (alignedWorld w1 p)) as [r w']. simpl in R. subst r.
    reflexivity.
Qed.

(** ** Timers that elapse *)

Section FiresOnce.

Variable fire : PopupStateEvent -> M unit.
Hypothesis fire_timeouts : forall e, steps (Keeps timeouts) (fire e).

Lemma fire_Shrinks e : steps Shrinks (fire e).
Proof. intros w. apply Shrinks_same, fire_timeouts. Qed.

Lemma show_Shrinks_fire : steps Shrinks (PopupStateClass.show fire).
Proof.
  unfold PopupStateClass.show.
  repeat first [ apply fire_Shrinks | apply willNotShow_Shrinks | apply willNotHide_Shrinks
               | apply modState_Shrinks | apply getState_Shrinks
               | apply steps_bind_Shrinks; [|intros ?]
               | apply (steps_if Shrinks) | apply (steps_ret Shrinks Shrinks_refl) ].
Qed.

Lemma hide_Shrinks_fire : steps Shrinks (PopupStateClass.hide fire).
Proof.
  unfold PopupStateClass.hide.
  repeat first [ apply fire_Shrinks | apply willNotShow_Shrinks | apply willNotHide_Shrinks
               | apply modState_Shrinks | apply getState_Shrinks
               | apply steps_bind_Shrinks; [|intros ?]
               | apply (steps_if Shrinks) | apply (steps_ret Shrinks Shrinks_refl) ].
Qed.

Lemma callTimeoutFn_Shrinks fn : steps Shrinks (PopupStateClass.callTimeoutFn fire fn).
Proof.
  destruct fn; unfold PopupStateClass.callTimeoutFn;
    [apply steps_bind_Shrinks; [apply modState_Shrinks|intros _; apply show_Shrinks_fire]
    |apply hide_Shrinks_fire].
Qed.

Lemma cancel_returns id : returns (cancel id).
Proof. intros w. exists tt. reflexivity. Qed.

(** A timer that has elapsed is not outstanding. *)
Lemma fireTimeout_spent id w t :
  timeouts (exec (PopupStateClass.fireTimeout fire id) w) !! id = Some t ->
  t_running t = false.
Proof.
  unfold PopupStateClass.fireTimeout. rewrite exec_bind_read.
  destruct (timeouts w !! id) as [t0|] eqn:Hl.
  - destruct (t_running t0) eqn:Hr.
    + rewrite (exec_returns _ _ w (cancel_returns id)). intros Hl'.
      destruct (t_running t) eqn:Hr'; [exfalso|reflexivity].
      apply (callTimeoutFn_Shrinks (t_fn t0) (exec (cancel id) w) id t) in Hl'; [|exact Hr'].
      unfold exec, cancel, modify in Hl'. simpl in Hl'.
      apply canceled_lookup in Hl' as [_ N]; [|exact Hr']. congruence.
    + intros Hl'. change (timeouts w !! id = Some t) in Hl'. congruence.
  - intros Hl'. change (timeouts w !! id = Some t) in Hl'. congruence.
Qed.

Lemma fireTimeout_not_running id w :
  (forall t, timeouts w !! id = Some t -> t_running t = false) ->
  PopupStateClass.fireTimeout fire id w = (Ok tt, w).
Proof.
  intros H. unfold PopupStateClass.fireTimeout, bind, read.
  destruct (timeouts w !! id) as [t|] eqn:Hl; [|reflexivity].
  rewrite (H t eq_refl). reflexivity.
Qed.

Lemma fireTimeout_run id w t :
  timeouts w !! id = Some t -> t_running t = true ->
  PopupStateClass.fireTimeout fire id w
  = PopupStateClass.callTimeoutFn fire (t_fn t) (exec (cancel id) w).
Proof.
  intros Hl Hr. unfold PopupStateClass.fireTimeout, bind at 1, read. rewrite Hl, Hr.
  reflexivity.
Qed.

End FiresOnce.

Lemma State_willShow_delayed d w :
  opened (state (this w)) || willShowSoon (state (this w)) = false -> d > 0 ->
  State.willShow d w =
    (Ok true,
     set_this (set_state (set_willShowSoon true
                            (set_showTimeout (Some (length (timeouts w))) (state (this w))))
                 (this w))
       (set_timeouts (timeouts w ++ [mkTimeout showTimeoutFn d true]) w)).
Proof.
  intros Hb Hd. assert (Hg : (d >? 0) = true) by lia.
  apply orb_false_iff in Hb as [Ho Hs].
  unfold State.willShow. destruct_world w. simpl in Ho, Hs. subst. norm. rewrite Hg.
  reflexivity.
Qed.

Lemma showPopupLater_delayed w :
  opened (state (this w)) || willShowSoon (state (this w)) = false ->
  spec_effectiveShowDelay w > 0 ->
  exec showPopupLater w =
    exec Binder.bindLeaveBeforeShow
      (set_this (set_state (set_willShowSoon true
                              (set_showTimeout (Some (length (timeouts w))) (state (this w))))
                   (this w))
         (set_timeouts
            (timeouts w ++ [mkTimeout showTimeoutFn (spec_effectiveShowDelay w) true]) w)).
Proof.
  intros Hb Hd. unfold exec at 1. rewrite showPopupLater_delay.
  rewrite bind_run, (State_willShow_delayed _ w Hb Hd). reflexivity.
Qed.

Lemma show_closed_run w :
  opened (state (this w)) = false ->
  exec State.show w
  = exec (emit (FireOpenedChange true)) (exec (updatePopup true) (settledState true w)).
Proof.
  intros Ho. unfold exec at 1. rewrite State_show_run, Ho.
  fold (exec doShowPopup (settledState true w)).
  unfold doShowPopup, doingShowPopup.
  apply (exec_returns _ _ _ (updatePopup_returns true)).
Qed.

(** X6: a delayed show.  When the popup is not opened, no show is pending
    and the effective delay is positive, [showPopupLater()] opens nothing:
    it binds the leave listeners of before the show and schedules one show
    timer with that delay.  When this timer elapses the popup is opened, no
    show is pending any more, [opened-change] is fired with [true] and an
    [updatePopup()] that [doingShowPopup()] awaits is suspended; when it
    elapses once more nothing happens. *)
Theorem delayed_show (w : World) :
  opened (state (this w)) = false -> willShowSoon (state (this w)) = false ->
  spec_effectiveShowDelay w > 0 ->
  let id := length (timeouts w) in
  let w1 := exec showPopupLater w in
  let w2 := exec (State.fireTimeout id) w1 in
  isOpened w1 = false /\
  emitted showPopupLater w = [BinderBindLeaveBeforeShow] /\
  timeouts w1 = timeouts w ++ [mkTimeout showTimeoutFn (spec_effectiveShowDelay w) true] /\
  isOpened w2 = true /\
  willShowSoon (state (this w2)) = false /\
  FireOpenedChange true ∈ emitted (State.fireTimeout id) w1 /\
  pending w2 = pending w ++ [ResumeUpdatePopup true] /\
  State.fireTimeout id w2 = (Ok tt, w2).
Proof.
  intros Ho Hs Hd id w1 w2.
  assert (Hb : opened (state (this w)) || willShowSoon (state (this w)) = false)
    by (rewrite Ho, Hs; reflexivity).
  pose proof (showPopupLater_delayed w Hb Hd) as E1. fold w1 in E1.
  assert (Hl : timeouts w1 !! id = Some (mkTimeout showTimeoutFn (spec_effectiveShowDelay w) true)).
  { rewrite E1. apply list_lookup_middle. reflexivity. }
  assert (E2 : w2 = exec State.show
                      (exec (modState (set_showTimeout None)) (exec (cancel id) w1))).
  { subst w2. unfold exec at 1, State.fireTimeout.
    rewrite (fireTimeout_run stateFire id w1 _ Hl eq_refl).
    cbn [t_fn PopupStateClass.callTimeoutFn]. rewrite bind_run. reflexivity. }
  set (wm := exec (modState (set_showTimeout None)) (exec (cancel id) w1)) in *.
  assert (Hom : opened (state (this wm)) = false) by (subst wm; rewrite E1; exact Ho).
  assert (Hlm : log wm = log w1) by reflexivity.
  assert (Hpm : pending wm = pending w) by (subst wm; rewrite E1; reflexivity).
  rewrite (show_closed_run wm Hom) in E2.
  split; [rewrite E1; exact Ho|].
  split; [unfold emitted; fold w1; rewrite E1; simpl; apply drop_app_length|].
  split; [rewrite E1; reflexivity|].
  assert (Es : state (this w2) = state (this (settledState true wm))).
  { rewrite E2. pose proof (updatePopup_keeps_state true (settledState true wm)) as K.
    unfold Keeps in K. cbv beta in K. rewrite <- K. reflexivity. }
  split; [unfold isOpened; rewrite Es; reflexivity|].
  split; [rewrite Es; reflexivity|].
  split.
  { unfold emitted. fold w2. rewrite E2.
    unfold exec at 1, emit, modify. cbn [snd log set_log].
    assert (K : steps (Emits (fun _ => True)) (updatePopup true)) by emits ltac:(exact I).
    destruct (K (settledState true wm)) as (l & El & _). rewrite El.
    change (log (settledState true wm)) with (log wm). rewrite Hlm, <- app_assoc, drop_app_length.
    apply elem_of_app. right. apply list_elem_of_here. }
  split.
  { rewrite E2. unfold exec at 1, emit, modify. cbn [snd pending set_log].
    rewrite updatePopup_pending. change (pending (settledState true wm)) with (pending wm).
    rewrite Hpm. reflexivity. }
  apply fireTimeout_not_running. intros t.
  apply (fireTimeout_spent stateFire stateFire_keeps_timeouts id w1 t).
Qed.

Lemma countOutstanding_app kind l1 l2 :
  countOutstanding kind (l1 ++ l2) = (countOutstanding kind l1 + countOutstanding kind l2)%nat.
Proof. induction l1 as [|t l1 IH]; simpl; [reflexivity|]. rewrite IH. lia. Qed.

(** X7: a delayed show that is canceled.  After the [showPopupLater()] of
    X6, [onCancelShow()] fires nothing and leaves the popup not opened with
    no show pending and as many show timers outstanding as before the
    request; the timer then elapses without any effect. *)
Theorem canceled_show (w : World) :
  opened (state (this w)) = false -> willShowSoon (state (this w)) = false ->
  spec_effectiveShowDelay w > 0 ->
  let id := length (timeouts w) in
  let w1 := exec showPopupLater w in
  let w3 := exec onCancelShow w1 in
  emitted onCancelShow w1 = [] /\
  isOpened w3 = false /\
  willShowSoon (state (this w3)) = false /\
  showTimersOutstanding w3 = showTimersOutstanding w /\
  State.fireTimeout id w3 = (Ok tt, w3).
Proof.
  intros Ho Hs Hd id w1 w3.
  assert (Hb : opened (state (this w)) || willShowSoon (state (this w)) = false)
    by (rewrite Ho, Hs; reflexivity).
  pose proof (showPopupLater_delayed w Hb Hd) as E1. fold w1 in E1.
  assert (E3 : w3 = set_this (set_state (set_willShowSoon false (state (this w1))) (this w1))
                      (set_timeouts (alter (set_running false) id (timeouts w1)) w1)).
  { subst w3. unfold onCancelShow. rewrite exec_bind_getState.
    replace (opened (state (this w1))) with false by (rewrite E1; symmetry; exact Ho).
    unfold State.willNotShow, PopupStateClass.willNotShow. rewrite exec_bind_getState.
    replace (showTimeout (state (this w1))) with (Some id) by (rewrite E1; reflexivity).
    reflexivity. }
  split; [unfold emitted; fold w3; rewrite E3; apply drop_all|].
  split; [rewrite E3, E1; exact Ho|].
  split; [rewrite E3; reflexivity|].
  split.
  { unfold showTimersOutstanding. rewrite E3, E1. cbn [timeouts set_timeouts set_this].
    change (timeouts (exec Binder.bindLeaveBeforeShow ?x)) with (timeouts x).
    cbn [timeouts set_timeouts set_this].
    replace id with (length (timeouts w) + 0)%nat by (subst id; lia).
    rewrite alter_app_r, countOutstanding_app. simpl. lia. }
  apply fireTimeout_not_running. intros t Hl.
  destruct (t_running t) eqn:Hr; [exfalso|reflexivity].
  rewrite E3 in Hl. cbn [timeouts set_timeouts set_this] in Hl.
  apply canceled_lookup in Hl as [_ N]; [|exact Hr]. congruence.
Qed.

Lemma hide_opened_run w :
  opened (state (this w)) = true ->
  exec State.hide w = exec doHidePopup (settledState false w).
Proof. intros Ho. unfold exec at 1. rewrite State_hide_run, Ho. reflexivity. Qed.

(** X8: a delayed hide.  On an opened popup with no hide pending and a
    positive [hideDelay], [hidePopupLater()] fires nothing and schedules one
    hide timer with that delay, the popup staying opened.  When this timer
    elapses the popup is not opened, no hide is pending and the last event
    fired is [opened-change] with [false]; when it elapses once more
    nothing happens. *)
Theorem delayed_hide (w : World) :
  opened (state (this w)) = true -> willHideSoon (state (this w)) = false ->
  hideDelay (options (this w)) > 0 ->
  let id := length (timeouts w) in
  let w1 := exec hidePopupLater w in
  let w2 := exec (State.fireTimeout id) w1 in
  emitted hidePopupLater w = [] /\
  isOpened w1 = true /\
  timeouts w1 = timeouts w ++ [mkTimeout hideTimeoutFn (hideDelay (options (this w))) true] /\
  isOpened w2 = false /\
  willHideSoon (state (this w2)) = false /\
  (exists l, emitted (State.fireTimeout id) w1 = l ++ [FireOpenedChange false]) /\
  State.fireTimeout id w2 = (Ok tt, w2).
Proof.
  intros Ho Hs Hd id w1 w2.
  assert (E1 : w1 = snd (hidePopupLater w)) by reflexivity.
  rewrite (hidePopupLater_run w Ho Hs Hd) in E1. cbn [snd] in E1.
  assert (Hl : timeouts w1 !! id
               = Some (mkTimeout hideTimeoutFn (hideDelay (options (this w))) true)).
  { rewrite E1. apply list_lookup_middle. reflexivity. }
  assert (E2 : w2 = exec State.hide (exec (cancel id) w1)).
  { subst w2. unfold exec at 1, State.fireTimeout.
    rewrite (fireTimeout_run stateFire id w1 _ Hl eq_refl). reflexivity. }
  set (wc := exec (cancel id) w1) in *.
  assert (Hoc : opened (state (this wc)) = true) by (subst wc; rewrite E1; exact Ho).
  split; [unfold emitted; fold w1; rewrite E1; apply drop_all|].
  split; [rewrite E1; exact Ho|].
  split; [rewrite E1; reflexivity|].
  split; [rewrite E2; apply hide_closed|].
  split.
  { rewrite E2, (hide_opened_run wc Hoc).
    pose proof (stateFire_keeps_state do_hide (settledState false wc)) as K.
    unfold Keeps in K. cbv beta in K. change (stateFire do_hide) with doHidePopup in K.
    rewrite K. reflexivity. }
  split.
  { destruct (hidePopup_opened_change wc Hoc) as (l & El). exists l.
    unfold emitted. fold w2. rewrite E2. change State.hide with hidePopup. rewrite El.
    change (log wc) with (log w1). apply drop_app_length. }
  apply fireTimeout_not_running. intros t.
  apply (fireTimeout_spent stateFire stateFire_keeps_timeouts id w1 t).
Qed.

(** X9: a delayed hide that is canceled.  After the [hidePopupLater()] of
    X8, [showPopup()] fires nothing (the popup is opened already), leaves the
    popup opened with no hide pending, and the hide timer then elapses
    without any effect. *)
Theorem canceled_hide (w : World) :
  opened (state (this w)) = true -> willHideSoon (state (this w)) = false ->
  hideDelay (options (this w)) > 0 ->
  let id := length (timeouts w) in
  let w1 := exec hidePopupLater w in
  let w3 := exec showPopup w1 in
  emitted showPopup w1 = [] /\
  isOpened w3 = true /\
  willHideSoon (state (this w3)) = false /\
  State.fireTimeout id w3 = (Ok tt, w3).
Proof.
  intros Ho Hs Hd id w1 w3.
  assert (E1 : w1 = snd (hidePopupLater w)) by reflexivity.
  rewrite (hidePopupLater_run w Ho Hs Hd) in E1. cbn [snd] in E1.
  assert (Ho1 : opened (state (this w1)) = true) by (rewrite E1; exact Ho).
  assert (E3 : w3 = settledState true w1).
  { subst w3. unfold exec, showPopup. rewrite State_show_run, Ho1. reflexivity. }
  split; [unfold emitted; fold w3; rewrite E3; apply drop_all|].
  split; [rewrite E3; reflexivity|].
  split; [rewrite E3; reflexivity|].
  apply fireTimeout_not_running. intros t Hl.
  destruct (t_running t) eqn:Hr; [exfalso|reflexivity].
  rewrite E3 in Hl. unfold settledState in Hl. cbn [timeouts set_timeouts set_this] in Hl.
  apply canceled_lookup_opt in Hl as [_ N]; [|exact Hr].
  apply N. rewrite E1. reflexivity.
Qed.

Lemma alter_absorb (ts : list Timeout) n m :
  alter (set_running false) n (alter (set_running false) m (alter (set_running false) n ts))
  = alter (set_running false) m (alter (set_running false) n ts).
Proof.
  apply list_eq. intros i.
  destruct (decide (n = i)) as [->|Hn], (decide (m = i)) as [->|Hm];
    rewrite ?list_lookup_alter_eq, ?list_lookup_alter_ne by done;
    rewrite ?list_lookup_alter_eq, ?list_lookup_alter_ne by done;
    destruct (ts !! i); reflexivity.
Qed.

Lemma alter_idem (ts : list Timeout) n :
  alter (set_running false) n (alter (set_running false) n ts)
  = alter (set_running false) n ts.
Proof.
  apply list_eq. intros i.
  destruct (decide (n = i)) as [->|Hn];
    rewrite ?list_lookup_alter_eq, ?list_lookup_alter_ne by done;
    rewrite ?list_lookup_alter_eq, ?list_lookup_alter_ne by done;
    destruct (ts !! i); reflexivity.
Qed.

Lemma canceled_absorb a b ts :
  canceled a (canceled b (canceled a ts)) = canceled b (canceled a ts).
Proof.
  destruct a as [n|], b as [m|]; simpl; auto using alter_absorb, alter_idem.
Qed.

Lemma settledState_fixed o w w' :
  state (this w') = state (this (settledState o w)) ->
  timeouts w' = timeouts (settledState o w) ->
  settledState o w' = w'.
Proof.
  intros Es Et. unfold settledState at 1. rewrite Es, Et.
  unfold settledState. cbn [state this set_this set_state showTimeout hideTimeout timeouts
                            set_timeouts canceled].
  rewrite canceled_absorb.
  destruct w' as [b ts sh dm pd rj lg]. destruct b as [s bi op rr uw rd pp al ph].
  cbn in *. subst. reflexivity.
Qed.

(** X10: [showPopup()] and [hidePopup()] can be called repeatedly: a second
    call right after the first returns and leaves the world exactly as it
    was, so it fires nothing and suspends nothing. *)
Theorem show_hide_repeatable (w : World) :
  showPopup (exec showPopup w) = (Ok tt, exec showPopup w) /\
  hidePopup (exec hidePopup w) = (Ok tt, exec hidePopup w).
Proof.
  split.
  - pose proof (show_opened w) as Ho. unfold isOpened in Ho.
    unfold showPopup at 1. rewrite State_show_run.
    change showPopup with State.show. rewrite Ho. f_equal.
    apply (settledState_fixed true w).
    + unfold exec. rewrite State_show_run.
      destruct (opened (state (this w))); [reflexivity|].
      apply (stateFire_keeps_state do_show).
    + unfold exec. rewrite State_show_run.
      destruct (opened (state (this w))); [reflexivity|].
      apply (stateFire_keeps_timeouts do_show).
  - pose proof (hide_closed w) as Ho. unfold isOpened in Ho.
    unfold hidePopup at 1. rewrite State_hide_run.
    change hidePopup with State.hide. rewrite Ho. f_equal.
    apply (settledState_fixed false w).
    + unfold exec. rewrite State_hide_run.
      destruct (opened (state (this w))); [|reflexivity].
      apply (stateFire_keeps_state do_hide).
    + unfold exec. rewrite State_hide_run.
      destruct (opened (state (this w))); [|reflexivity].
      apply (stateFire_keeps_timeouts do_hide).
Qed.

(** ** The show sequence, to its end *)

Lemma alignedWorld_log_eq (w : World) (p : nat) :
  log (alignedWorld w p) =
    log w ++ [FireWillAlign]
      ++ (if alignerOutdated (aligner (this w)) (alignToElement w) (PopupEl p)
          then [NewAligner (newAligner w p)] else [])
      ++ [Align (alignable (dom w))].
Proof.
  unfold alignedWorld.
  destruct (alignerOutdated (aligner (this w)) (alignToElement w) (PopupEl p));
    cbn [log set_log set_this]; rewrite <- ?app_assoc; reflexivity.
Qed.

Lemma alignedWorld_unwatchRect w p :
  unwatchRect (this (alignedWorld w p)) = unwatchRect (this w).
Proof. aligned_frame. Qed.

Lemma hidePopup_keeps_attached : steps (Keeps (fun w => attached (dom w))) hidePopup.
Proof. keeps. Qed.

Lemma hidePopup_keeps_unwatchRect : steps (Keeps (fun w => unwatchRect (this w))) hidePopup.
Proof. keeps. Qed.

Lemma hidePopup_not_after_align : steps (Emits (fun a => isAfterAlign a = false)) hidePopup.
Proof. emits ltac:(reflexivity). Qed.

Lemma appendedWorld_log (w : World) (p : nat) :
  log (appendedWorld w p) =
    log w ++ [PopupApplyAppendTo p; FireWillAlign]
      ++ (if alignerOutdated (aligner (this w)) (alignToElement w) (PopupEl p)
          then [NewAligner (newAligner w p)] else [])
      ++ [Align (alignable (dom w))]
      ++ (if focusable w p then [Focus p] else [])
      ++ match transition (options (this w)) with
         | Some t => if negb (ownerDocument (dom w) p) then [TransitionEnter t] else []
         | None => []
         end
      ++ [LayoutWatch (watchCount (dom w))].
Proof.
  unfold appendedWorld.
  set (w1 := alignedWorld _ p).
  assert (E1 : log w1 = log w ++ [PopupApplyAppendTo p; FireWillAlign]
      ++ (if alignerOutdated (aligner (this w)) (alignToElement w) (PopupEl p)
          then [NewAligner (newAligner w p)] else [])
      ++ [Align (alignable (dom w))]).
  { subst w1. rewrite alignedWorld_log_eq. cbn. rewrite <- !app_assoc. reflexivity. }
  assert (E2 : watchCount (dom w1) = watchCount (dom w))
    by (subst w1; rewrite alignedWorld_dom; reflexivity).
  clearbody w1.
  destruct (focusable w p), (transition (options (this w))) as [t|];
    try destruct (ownerDocument (dom w) p);
    cbn; rewrite E1, E2, <- ?app_assoc; cbn; rewrite <- ?app_assoc; reflexivity.
Qed.

(** Membership in a list that is written out, both ways. *)
Ltac listed :=
  cbn [app negb];
  split;
  [ let H := fresh in
    intros H; in_log H; try (injection H as <-); try split; auto
  | let H := fresh in
    intros H;
    lazymatch type of H with
    | _ /\ _ => let H' := fresh in destruct H as [H H']; try discriminate H'
    | _ => idtac
    end;
    try discriminate; try (injection H as <-);
    repeat first [apply list_elem_of_here | apply list_elem_of_further] ].

Lemma appendedWorld_dom (w : World) (p : nat) :
  dom (appendedWorld w p) =
    set_watching ({[watchCount (dom w)]} ∪ watching (dom w))
      (set_watchCount (S (watchCount (dom w)))
         (set_attached ({[p]} ∪ attached (dom w)) (dom w))).
Proof.
  unfold appendedWorld.
  pose proof (alignedWorld_dom (exec (Popup_applyAppendTo p) w) p) as E.
  set (wa := alignedWorld _ p) in *. clearbody wa.
  destruct (focusable w p), (transition (options (this w))) as [t|];
    try destruct (ownerDocument (dom w) p); cbn; rewrite E; reflexivity.
Qed.

Lemma appendedWorld_this (w : World) (p : nat) :
  this (appendedWorld w p) =
    set_unwatchRect (Some (watchCount (dom w)))
      (this (alignedWorld (exec (Popup_applyAppendTo p) w) p)).
Proof.
  unfold appendedWorld.
  pose proof (alignedWorld_dom (exec (Popup_applyAppendTo p) w) p) as E.
  set (wa := alignedWorld _ p) in *. clearbody wa.
  destruct (focusable w p), (transition (options (this w))) as [t|];
    try destruct (ownerDocument (dom w) p); cbn; rewrite E; reflexivity.
Qed.

Lemma appendPopup_facts (w : World) (p : nat) :
  opened (state (this w)) = true -> popup (this w) = Some p ->
  result appendPopup w = Ok tt /\
  p ∈ attached (dom (exec appendPopup w)) /\
  isOpened (exec appendPopup w) = alignable (dom w).
Proof.
  intros Ho Hp. unfold result, exec. rewrite (appendPopup_run w p Ho Hp).
  set (w1 := exec (Popup_applyAppendTo p) w).
  destruct (alignable (dom w)) eqn:Ha; cbn [fst snd].
  - split; [reflexivity|].
    split; [rewrite appendedWorld_dom; cbn; set_solver|].
    unfold isOpened. rewrite appendedWorld_this. cbn [state set_unwatchRect].
    rewrite alignedWorld_state. exact Ho.
  - split; [reflexivity|].
    split; [|apply hide_closed].
    rewrite (hidePopup_keeps_attached (alignedWorld w1 p)), alignedWorld_dom.
    subst w1. cbn. set_solver.
Qed.

(** X11: [appendPopup()] on an opened binding that has a popup.  It returns,
    the popup is in the document afterwards, and the popup is opened
    afterwards exactly when the alignment succeeded.  When it succeeded, one
    new layout watcher is registered beside those there were and held in
    [unwatchRect], the popup is focused exactly when [autoFocus] is set, the
    trigger is neither [hover] nor [focus] and the tab index of the popup is
    not negative, and the enter transition is played exactly when a
    transition is configured and the popup had no owner document.  When it
    failed, nothing of that happens: no focus, no enter transition, no
    watcher, [unwatchRect] is as it was, and [opened-change] is fired with
    [false]. *)
Theorem appendPopup_spec (w : World) (p : nat) :
  opened (state (this w)) = true -> popup (this w) = Some p ->
  let w' := exec appendPopup w in
  let l := emitted appendPopup w in
  result appendPopup w = Ok tt /\
  p ∈ attached (dom w') /\
  isOpened w' = alignable (dom w) /\
  (alignable (dom w) = true ->
     unwatchRect (this w') = Some (watchCount (dom w)) /\
     watching (dom w') = {[watchCount (dom w)]} ∪ watching (dom w) /\
     (Focus p ∈ l <-> focusable w p = true) /\
     (forall t, TransitionEnter t ∈ l <->
                transition (options (this w)) = Some t /\ ownerDocument (dom w) p = false)) /\
  (alignable (dom w) = false ->
     unwatchRect (this w') = unwatchRect (this w) /\
     Forall (fun a => isAfterAlign a = false) l /\
     FireOpenedChange false ∈ l).
Proof.
  intros Ho Hp w' l.
  destruct (appendPopup_facts w p Ho Hp) as (F1 & F2 & F3).
  split; [exact F1|]. split; [exact F2|]. split; [exact F3|].
  subst w' l. unfold emitted, exec. rewrite (appendPopup_run w p Ho Hp).
  set (w1 := exec (Popup_applyAppendTo p) w).
  destruct (alignable (dom w)) eqn:Ha; cbn [fst snd].
  - split; [|discriminate]. intros _.
    split; [rewrite appendedWorld_this; reflexivity|].
    split; [rewrite appendedWorld_dom; reflexivity|].
    rewrite appendedWorld_log, drop_app_length.
    split.
    + destruct (alignerOutdated _ _ _), (focusable w p),
        (transition (options (this w))) as [t|]; try destruct (ownerDocument (dom w) p);
        listed.
    + intros t0.
      destruct (alignerOutdated _ _ _), (focusable w p),
        (transition (options (this w))) as [t|]; try destruct (ownerDocument (dom w) p);
        listed.
  - assert (Ho1 : opened (state (this (alignedWorld w1 p))) = true)
      by (rewrite alignedWorld_state; exact Ho).
    split; [discriminate|]. intros _.
    split.
    { rewrite (hidePopup_keeps_unwatchRect (alignedWorld w1 p)), alignedWorld_unwatchRect.
      reflexivity. }
    assert (El : log (alignedWorld w1 p) = log w ++ [PopupApplyAppendTo p; FireWillAlign]
      ++ (if alignerOutdated (aligner (this w)) (alignToElement w) (PopupEl p)
          then [NewAligner (newAligner w p)] else [])
      ++ [Align false]).
    { rewrite alignedWorld_log_eq. subst w1. cbn. rewrite Ha, <- !app_assoc. reflexivity. }
    split.
    + destruct (hidePopup_not_after_align (alignedWorld w1 p)) as (l2 & E2 & F).
      rewrite E2, El, <- app_assoc, drop_app_length.
      apply Forall_app. split; [|exact F].
      destruct (alignerOutdated _ _ _); repeat constructor.
    + destruct (hidePopup_opened_change (alignedWorld w1 p) Ho1) as (l2 & E2).
      rewrite E2, El, <- app_assoc, drop_app_length.
      rewrite !elem_of_app. right. right. apply list_elem_of_here.
Qed.

Lemma adoptedWorld_opened w p : opened (state (this (adoptedWorld w p))) = opened (state (this w)).
Proof. unfold adoptedWorld. destruct (bool_decide _); reflexivity. Qed.

Lemma adoptedWorld_popup w p : popup (this (adoptedWorld w p)) = Some p.
Proof.
  unfold adoptedWorld. destruct (bool_decide _) eqn:E; [|reflexivity].
  apply bool_decide_eq_true in E. symmetry. exact E.
Qed.

Lemma registry_returns k p r : returns (SharedPopups.add k p r >> SharedPopups.setUser p).
Proof. returns. Qed.

Lemma updatePopup_resume_run (w : World) (r p : nat) :
  opened (state (this w)) = true -> rendered (this w) = Some r ->
  popupFrom (dom w) r = Some p ->
  updatePopup_resume w
  = (Ok tt, registeredWorld (exec appendPopup (adoptedWorld w p)) p r).
Proof.
  intros Ho Hr Hp.
  assert (Ha : exists wa, appendPopup (adoptedWorld w p) = (Ok tt, wa)).
  { rewrite (appendPopup_run _ p); [|rewrite adoptedWorld_opened; exact Ho
                                    |apply adoptedWorld_popup].
    destruct (alignable _); eexists; reflexivity. }
  destruct Ha as [wa Ea].
  unfold exec. rewrite Ea. cbn [snd]. revert Ea. unfold adoptedWorld, registeredWorld.
  unfold updatePopup_resume. run1. rewrite Ho. cbv beta iota delta [negb].
  run1. rewrite Hr. run. rewrite Hp. run. fields.
  destruct (bool_decide (Some p = popup (this w))); cbv iota; intros Ea.
  - rewrite bind_run, Ea. run1.
    destruct (truthy (key (options (this wa)))) as [k|]; [|reflexivity].
    destruct (registry_returns k p r wa) as [[] R]. unfold result, exec in *.
    destruct ((SharedPopups.add k p r >> SharedPopups.setUser p) wa) as [res w']. simpl in *.
    subst res. reflexivity.
  - set (w1 := set_dom _ _) in *.
    assert (Eu : updatePopupProperty p w1 = (Ok tt, exec (updatePopupProperty p) w1))
      by reflexivity.
    rewrite Eu. cbv iota. rewrite bind_run, Ea. run1.
    destruct (truthy (key (options (this wa)))) as [k|]; [|reflexivity].
    destruct (registry_returns k p r wa) as [[] R]. unfold result, exec in *.
    destruct ((SharedPopups.add k p r >> SharedPopups.setUser p) wa) as [res w']. simpl in *.
    subst res. reflexivity.
Qed.

Lemma registry_run (w : World) (k : string) (p r : nat) :
  let w' := exec (SharedPopups.add k p r >> SharedPopups.setUser p) w in
  this w' = this w /\
  shared w' = SharedPopups.withUser p (Some ThisBinding) <$> <[k := mkCacheItem p r None]> (shared w) /\
  pointerEvents (dom w') = pointerEvents (dom w) /\
  (p ∈ attached (dom w) -> p ∈ attached (dom w')).
Proof.
  unfold exec, SharedPopups.add, SharedPopups.setUser, SharedPopups.find, Popup_remove.
  run. fields.
  destruct (shared w !! k) as [c|]; [|run; fields; repeat split; auto].
  destruct (negb (c_popup c =? p)%nat) eqn:Ec; cbn [andb];
    [destruct (negb (bool_decide (is_Some (c_user c))))|]; run; fields; repeat split; auto.
  intros Hin. apply elem_of_difference. split; [exact Hin|].
  apply negb_true_iff, Nat.eqb_neq in Ec. set_solver.
Qed.

Lemma registeredWorld_spec (w : World) (p r : nat) :
  let w' := registeredWorld w p r in
  this w' = this w /\
  pointerEvents (dom w') = pointerEvents (dom w) /\
  (p ∈ attached (dom w) -> p ∈ attached (dom w')) /\
  (forall k, truthy (key (options (this w))) = Some k ->
     shared w' !! k = Some (mkCacheItem p r (Some ThisBinding))).
Proof.
  unfold registeredWorld.
  destruct (truthy (key (options (this w)))) as [k|]; [|repeat split; auto; discriminate].
  destruct (registry_run w k p r) as (E1 & E2 & E3 & E4).
  repeat split; auto. intros k' [= <-].
  rewrite E2, lookup_fmap, lookup_insert_eq. unfold SharedPopups.withUser. cbn.
  rewrite Nat.eqb_refl. reflexivity.
Qed.

Lemma appendPopup_keeps_popup : steps (Keeps (fun w => popup (this w))) appendPopup.
Proof. keeps. Qed.

Lemma appendPopup_keeps_options : steps (Keeps (fun w => options (this w))) appendPopup.
Proof. keeps. Qed.

Lemma appendPopup_keeps_pointerEvents :
  steps (Keeps (fun w => pointerEvents (dom w))) appendPopup.
Proof. keeps. Qed.

(** X12: [updatePopup()] after its [await], on an opened binding whose render
    result has a popup [p].  It returns; afterwards [p] is the popup of the
    binding, its pointer events are [""] when [pointable] and ["none"]
    otherwise, it is in the document, and the popup is opened exactly when
    the alignment succeeded.  When it succeeded and [p] was not the popup of
    the binding before, the leave listeners are bound for [p] with the
    configured [hideDelay].  With a key, the registry of shared popups holds
    under that key the popup, the render result and this binding as its
    user. *)
Theorem updatePopup_resume_shows (w : World) (r p : nat) :
  opened (state (this w)) = true -> rendered (this w) = Some r ->
  popupFrom (dom w) r = Some p ->
  let w' := exec updatePopup_resume w in
  result updatePopup_resume w = Ok tt /\
  popup (this w') = Some p /\
  pointerEvents (dom w') !! p = Some (if pointable (options (this w)) then "" else "none") /\
  p ∈ attached (dom w') /\
  isOpened w' = alignable (dom w) /\
  (alignable (dom w) = true -> popup (this w) <> Some p ->
     b_leave (binder (this w')) = LeaveBound (hideDelay (options (this w))) (PopupEl p)) /\
  (forall k, truthy (key (options (this w))) = Some k ->
     shared w' !! k = Some (mkCacheItem p r (Some ThisBinding))).
Proof.
  intros Ho Hr Hp w'. subst w'. unfold result, exec.
  rewrite (updatePopup_resume_run w r p Ho Hr Hp). cbn [fst snd].
  set (wa := adoptedWorld w p).
  assert (Hoa : opened (state (this wa)) = true) by (subst wa; rewrite adoptedWorld_opened; exact Ho).
  assert (Hpa : popup (this wa) = Some p) by apply adoptedWorld_popup.
  destruct (appendPopup_facts wa p Hoa Hpa) as (_ & A2 & A3).
  set (w2 := exec appendPopup wa) in *.
  destruct (registeredWorld_spec w2 p r) as (R1 & R2 & R3 & R4).
  split; [reflexivity|].
  split; [rewrite R1; subst w2; rewrite (appendPopup_keeps_popup wa); exact Hpa|].
  split.
  { rewrite R2. subst w2. rewrite (appendPopup_keeps_pointerEvents wa). subst wa.
    unfold adoptedWorld. destruct (bool_decide _); cbn; apply lookup_insert_eq. }
  split; [apply R3, A2|].
  assert (Ea : alignable (dom wa) = alignable (dom w)).
  { subst wa. unfold adoptedWorld. destruct (bool_decide _); reflexivity. }
  split; [unfold isOpened in *; rewrite R1, A3; exact Ea|].
  split.
  { intros Hal Hne. rewrite R1. subst w2. unfold exec.
    rewrite (appendPopup_run wa p Hoa Hpa), Ea, Hal. cbn [snd].
    rewrite appendedWorld_this. cbn [binder set_unwatchRect].
    rewrite alignedWorld_binder. subst wa. unfold adoptedWorld.
    destruct (bool_decide (Some p = popup (this w))) eqn:Eb; [|reflexivity].
    apply bool_decide_eq_true in Eb. congruence. }
  intros k Hk. apply R4. subst w2. rewrite (appendPopup_keeps_options wa).
  subst wa. unfold adoptedWorld. destruct (bool_decide _); exact Hk.
Qed.

(** X5: whatever happened to a new binding before, when [updatePopup()] goes
    on after its [await] it returns, or throws the configuration error of a
    render result without a popup: the non-null assertion [this.rendered!]
    never fails, since an opened binding holds a render result. *)
Theorem updatePopup_resume_safe (d : Dom) (es : list Event) :
  let w := afterEvents d es in
  result updatePopup_resume w = Ok tt \/
  result updatePopup_resume w = Throw ConfigurationError.
Proof.
  intros w. destruct (afterEvents_coherent d es) as [_ J]. fold w in J.
  unfold OpenedRendered in J.
  destruct (opened (state (this w))) eqn:Ho.
  - destruct J as [r Hr].
    destruct (popupFrom (dom w) r) as [p|] eqn:Hp.
    + left. unfold result. rewrite (updatePopup_resume_run w r p Ho Hr Hp). reflexivity.
    + right. unfold result, updatePopup_resume. run1. rewrite Ho.
      cbv beta iota delta [negb]. run1. rewrite Hr. run. rewrite Hp. reflexivity.
  - left. unfold result, updatePopup_resume. run1. rewrite Ho. reflexivity.
Qed.

(** ** Hiding, disconnecting and clearing *)

Lemma doingHidePopup_end_run (w : World) :
  let w' := exec doingHidePopup_end w in
  b_leave (binder (this w')) = LeaveUnbound /\
  preventedHiding (this w') = false /\
  (forall id, unwatchRect (this w) = Some id -> id ∉ watching (dom w')) /\
  state (this w') = state (this w) /\
  pending w' = pending w /\
  attached (dom w') = attached (dom w) /\
  log w' = log w ++ BinderUnbindLeave ::
             match unwatchRect (this w) with Some id => [LayoutUnwatch id] | None => [] end.
Proof.
  unfold exec, doingHidePopup_end, Binder.unbindLeave, callUnwatchRect. run. fields.
  destruct (unwatchRect (this w)) as [id|]; run; fields; repeat split; auto;
    try discriminate; try (rewrite <- app_assoc; reflexivity).
  intros ? [= <-] Hin. apply elem_of_difference in Hin as [_ Hin].
  apply Hin, elem_of_singleton. reflexivity.
Qed.

(** X13: hiding an opened popup.  [hidePopup()] never takes the popup out of
    the document by itself.  Without a transition it releases at once the
    leave listeners and the layout watcher held in [unwatchRect], resets
    [preventedHiding], suspends nothing and fires [opened-change] with
    [false] last.  With a transition it suspends [doingHidePopup()] and
    releases nothing yet; when the transition is over, finished or not, and
    the popup has not been opened again, listeners and watcher are released
    and [preventedHiding] is reset. *)
Theorem hide_cleanup (w : World) (finish : bool) :
  opened (state (this w)) = true ->
  let w1 := exec hidePopup w in
  let w2 := exec (doingHidePopup_resume finish) w1 in
  let released w' :=
    b_leave (binder (this w')) = LeaveUnbound /\
    preventedHiding (this w') = false /\
    (forall id, unwatchRect (this w) = Some id -> id ∉ watching (dom w')) in
  isOpened w1 = false /\
  attached (dom w1) = attached (dom w) /\
  (transition (options (this w)) = None ->
     released w1 /\ pending w1 = pending w /\
     emitted hidePopup w
       = BinderUnbindLeave ::
         match unwatchRect (this w) with Some id => [LayoutUnwatch id] | None => [] end
         ++ [FireOpenedChange false]) /\
  (forall t, transition (options (this w)) = Some t ->
     pending w1 = pending w ++ [ResumeDoingHidePopup] /\
     b_leave (binder (this w1)) = b_leave (binder (this w)) /\
     watching (dom w1) = watching (dom w) /\
     released w2).
Proof.
  intros Ho w1 w2 released.
  assert (E1 : w1 = exec doHidePopup (settledState false w)) by apply (hide_opened_run w Ho).
  split; [apply hide_closed|].
  split; [apply (hidePopup_keeps_attached w)|].
  unfold exec in E1. rewrite doHidePopup_run in E1.
  change (transition (options (this (settledState false w))))
    with (transition (options (this w))) in E1.
  split.
  - intros Ht. rewrite Ht in E1. cbn [snd] in E1.
    destruct (doingHidePopup_end_run (settledState false w)) as (D1 & D2 & D3 & D4 & D5 & D6 & D7).
    set (we := exec doingHidePopup_end (settledState false w)) in *.
    split; [|split].
    + rewrite E1. repeat split; [exact D1|exact D2|exact D3].
    + rewrite E1. exact D5.
    + unfold emitted. fold w1. rewrite E1. unfold exec at 1, emit, modify.
      cbn [snd log set_log]. rewrite D7. change (log (settledState false w)) with (log w).
      change (unwatchRect (this (settledState false w))) with (unwatchRect (this w)).
      rewrite <- app_assoc, drop_app_length. reflexivity.
  - intros t Ht. rewrite Ht in E1. cbn [snd] in E1.
    split; [rewrite E1; reflexivity|]. split; [rewrite E1; reflexivity|].
    split; [rewrite E1; reflexivity|].
    assert (Ho1 : opened (state (this w1)) = false) by apply hide_closed.
    assert (E2 : w2 = exec doingHidePopup_end
                        (exec (if finish then
                                 let* p := read (fun w => popup (this w)) in
                                 match p with Some p => Popup_remove p | None => ret tt end
                               else ret tt) w1)).
    { subst w2. unfold doingHidePopup_resume. rewrite exec_returns by (destruct finish; returns).
      rewrite exec_bind_getState.
      set (m := if finish then _ else _).
      assert (K : steps (Keeps (fun w => state (this w))) m) by (subst m; keeps).
      rewrite (K w1), Ho1. reflexivity. }
    set (m := if finish then _ else _) in E2.
    assert (K : steps (Keeps (fun w => unwatchRect (this w))) m) by (subst m; keeps).
    destruct (doingHidePopup_end_run (exec m w1)) as (D1 & D2 & D3 & _).
    rewrite <- E2 in D1, D2, D3. repeat split; [exact D1|exact D2|].
    intros id Hid. apply D3. rewrite (K w1), E1. exact Hid.
Qed.

Lemma removedWorld_this w : this (removedWorld w) = this w.
Proof. unfold removedWorld. destruct (popup (this w)), (opened (state (this w))); reflexivity. Qed.

Lemma removedWorld_timeouts w : timeouts (removedWorld w) = timeouts w.
Proof. unfold removedWorld. destruct (popup (this w)), (opened (state (this w))); reflexivity. Qed.

Lemma removedWorld_log w :
  log (removedWorld w) =
    log w ++ match popup (this w) with
             | Some p => if opened (state (this w)) then [PopupRemove p] else []
             | None => []
             end.
Proof.
  unfold removedWorld.
  destruct (popup (this w)), (opened (state (this w))); cbn; rewrite ?app_nil_r; reflexivity.
Qed.

Lemma returns_run (m : M unit) (w : World) : returns m -> m w = (Ok tt, exec m w).
Proof.
  intros H. destruct (H w) as [[] R]. unfold result, exec in *.
  destruct (m w) as [r w']. simpl in *. subst r. reflexivity.
Qed.

Lemma exec_clear w : exec State.clear w = settledState false w.
Proof. unfold exec, State.clear. rewrite clear_run. reflexivity. Qed.

Lemma clear_returns : returns State.clear.
Proof. returns. Qed.

Lemma beforeDisconnectCallback_run (w : World) :
  beforeDisconnectCallback w
  = (Ok tt, exec doingHidePopup_end (settledState false (removedWorld w))).
Proof.
  rewrite returns_run by returns. f_equal.
  unfold beforeDisconnectCallback. rewrite exec_bind_read.
  rewrite exec_returns by returns.
  rewrite (exec_returns _ _ _ clear_returns), exec_clear.
  unfold removedWorld.
  destruct (popup (this w)) as [p|]; [destruct (opened (state (this w)))|]; reflexivity.
Qed.

Lemma doingHidePopup_end_keeps_timeouts : steps (Keeps timeouts) doingHidePopup_end.
Proof. keeps. Qed.

Lemma doingHidePopup_end_keeps_rendered :
  steps (Keeps (fun w => rendered (this w))) doingHidePopup_end.
Proof. keeps. Qed.

Lemma doingHidePopup_end_keeps_popup :
  steps (Keeps (fun w => popup (this w))) doingHidePopup_end.
Proof. keeps. Qed.

(** X14: [beforeDisconnectCallback()], whatever happened to the binding
    before.  It returns; the state is that of a new [PopupState] but for a
    canceled timer that [showTimeout] may still hold; the leave listeners
    and the watcher held in [unwatchRect] are released and [preventedHiding]
    is reset; the render result and the popup are kept.  The popup is
    removed from the document exactly when the binding was opened and had
    one.  No [opened-change] is fired, and whichever timer elapses later,
    nothing happens. *)
Theorem beforeDisconnectCallback_spec (d : Dom) (es : list Event) (id : nat) :
  let w := afterEvents d es in
  let w' := exec beforeDisconnectCallback w in
  let l := emitted beforeDisconnectCallback w in
  result beforeDisconnectCallback w = Ok tt /\
  state (this w') = mkPopupState false false false (showTimeout (state (this w))) None /\
  b_leave (binder (this w')) = LeaveUnbound /\
  preventedHiding (this w') = false /\
  (forall i, unwatchRect (this w) = Some i -> i ∉ watching (dom w')) /\
  rendered (this w') = rendered (this w) /\
  popup (this w') = popup (this w) /\
  (forall p, PopupRemove p ∈ l <-> popup (this w) = Some p /\ isOpened w = true) /\
  Forall (fun a => isOpenedChange a = false) l /\
  State.fireTimeout id w' = (Ok tt, w').
Proof.
  intros w w' l. subst w' l. unfold emitted, result, exec.
  rewrite beforeDisconnectCallback_run. cbn [fst snd].
  set (ws := settledState false (removedWorld w)).
  destruct (doingHidePopup_end_run ws) as (D1 & D2 & D3 & D4 & D5 & D6 & D7).
  split; [reflexivity|].
  split; [rewrite D4; subst ws; cbn; rewrite removedWorld_this; reflexivity|].
  split; [exact D1|]. split; [exact D2|].
  split; [intros i Hi; apply D3; subst ws; cbn; rewrite removedWorld_this; exact Hi|].
  split; [rewrite (doingHidePopup_end_keeps_rendered ws); subst ws; cbn;
          rewrite removedWorld_this; reflexivity|].
  split; [rewrite (doingHidePopup_end_keeps_popup ws); subst ws; cbn;
          rewrite removedWorld_this; reflexivity|].
  assert (El : drop (length (log w)) (log (exec doingHidePopup_end ws))
               = match popup (this w) with
                 | Some p => if opened (state (this w)) then [PopupRemove p] else []
                 | None => []
                 end ++ BinderUnbindLeave ::
                 match unwatchRect (this w) with Some i => [LayoutUnwatch i] | None => [] end).
  { rewrite D7. subst ws. cbn [log settledState set_this set_timeouts unwatchRect this set_state].
    rewrite removedWorld_log, removedWorld_this, <- app_assoc. apply drop_app_length. }
  rewrite El. unfold isOpened.
  split; [|split].
  - intros p.
    destruct (popup (this w)) as [q|], (opened (state (this w))),
      (unwatchRect (this w)) as [i|]; listed.
  - destruct (popup (this w)) as [q|], (opened (state (this w))),
      (unwatchRect (this w)) as [i|]; repeat constructor.
  - apply NoTimer_fireTimeout.
    apply (NoTimer_ext ws); [apply doingHidePopup_end_keeps_timeouts|].
    apply settledState_noTimer.
    apply (StateCoherent_ext w); [rewrite removedWorld_this; reflexivity
                                 |apply removedWorld_timeouts|].
    apply afterEvents_coherent.
Qed.

Ltac go := repeat first [progress fields | run1].

Lemma clearContent_run (w : World) :
  let w' := exec clearContent w in
  result clearContent w = Ok tt /\
  this w' = mkBinding (mkPopupState false false false (showTimeout (state (this w))) None)
              (set_b_leave LeaveUnbound (binder (this w)))
              (options (this w)) (renderer (this w)) (unwatchRect (this w))
              None None None false /\
  timeouts w' = timeouts (settledState false w) /\
  (forall i, unwatchRect (this w) = Some i -> i ∉ watching (dom w')) /\
  shared w' = match truthy (key (options (this w))), popup (this w) with
              | Some _, Some p => SharedPopups.withUser p None <$> shared w
              | _, _ => shared w
              end /\
  log w' = log w
    ++ match popup (this w) with
       | Some p => if opened (state (this w)) then [PopupRemove p] else []
       | None => []
       end
    ++ match truthy (key (options (this w))), popup (this w) with
       | Some _, Some p => [SharedPopupsClearUser p]
       | _, _ => []
       end
    ++ BinderUnbindLeave ::
       match unwatchRect (this w) with Some i => [LayoutUnwatch i] | None => [] end.
Proof.
  unfold result, exec, clearContent. run1.
  unfold Popup_remove, SharedPopups.clearUser, Binder.unbindLeave, callUnwatchRect.
  destruct w as [b ts sh dm pd rj lg]. destruct b as [s bi op rr uw rd pp al ph].
  destruct s as [o ws hs st ht]. fields.
  destruct pp as [p|], o, (truthy (key op)) as [k|]; go;
    unfold State.clear; rewrite clear_run; cbv beta iota; go;
    destruct uw as [i|]; go; unfold settledState; go;
    rewrite <- ?app_assoc; cbn [app]; rewrite ?app_nil_r;
    (repeat split; [try discriminate..]);
    try (intros ? [= <-] Hin; apply elem_of_difference in Hin as [_ Hin];
         apply Hin, elem_of_singleton; reflexivity).
Qed.

(** X15: [clearContent()], whatever happened to the binding before.  It
    returns and leaves the binding as a new one, but for its binder, options
    and renderer, which it keeps (the leave listeners being unbound), for
    the function in [unwatchRect], which it has called, and for a canceled
    timer that [showTimeout] may still hold.  The popup is removed from the
    document exactly when the binding was opened and had one, and the
    registry is told that the popup has no user exactly when the binding
    has a key and a popup.  No [opened-change] is fired, and whichever timer
    elapses later, nothing happens. *)
Theorem clearContent_spec (d : Dom) (es : list Event) (id : nat) :
  let w := afterEvents d es in
  let w' := exec clearContent w in
  let l := emitted clearContent w in
  result clearContent w = Ok tt /\
  this w' = mkBinding (mkPopupState false false false (showTimeout (state (this w))) None)
              (set_b_leave LeaveUnbound (binder (this w)))
              (options (this w)) (renderer (this w)) (unwatchRect (this w))
              None None None false /\
  (forall i, unwatchRect (this w) = Some i -> i ∉ watching (dom w')) /\
  (forall p, PopupRemove p ∈ l <-> popup (this w) = Some p /\ isOpened w = true) /\
  (forall p, SharedPopupsClearUser p ∈ l <->
             popup (this w) = Some p /\ truthy (key (options (this w))) <> None) /\
  Forall (fun a => isOpenedChange a = false) l /\
  State.fireTimeout id w' = (Ok tt, w').
Proof.
  intros w w' l.
  destruct (clearContent_run w) as (C1 & C2 & C3 & C4 & C5 & C6). fold w' in C2, C3, C4, C5, C6.
  assert (El : l = match popup (this w) with
       | Some p => if opened (state (this w)) then [PopupRemove p] else []
       | None => []
       end
    ++ match truthy (key (options (this w))), popup (this w) with
       | Some _, Some p => [SharedPopupsClearUser p]
       | _, _ => []
       end
    ++ BinderUnbindLeave ::
       match unwatchRect (this w) with Some i => [LayoutUnwatch i] | None => [] end).
  { subst l. unfold emitted. fold w'. rewrite C6. apply drop_app_length. }
  split; [exact C1|]. split; [exact C2|]. split; [exact C4|].
  rewrite El. unfold isOpened.
  split; [|split; [|split]].
  - intros p.
    destruct (popup (this w)) as [q|], (opened (state (this w))),
      (truthy (key (options (this w)))) as [k|], (unwatchRect (this w)) as [i|]; listed.
  - intros p.
    destruct (popup (this w)) as [q|], (opened (state (this w))),
      (truthy (key (options (this w)))) as [k|], (unwatchRect (this w)) as [i|];
      cbn [app]; (split; [intros H; in_log H; try (injection H as <-); split; congruence
                         |intros [H H']; try discriminate; try congruence;
                          injection H as <-;
                          repeat first [apply list_elem_of_here | apply list_elem_of_further]]).
  - destruct (popup (this w)) as [q|], (opened (state (this w))),
      (truthy (key (options (this w)))) as [k|], (unwatchRect (this w)) as [i|];
      repeat constructor.
  - apply NoTimer_fireTimeout.
    apply (NoTimer_ext (settledState false w)); [exact C3|].
    apply settledState_noTimer, afterEvents_coherent.
Qed.

(** ** Rendering, and the handlers of the trigger events *)


(** X17: [onToggleShowHide()] inverts [opened] and fires [opened-change]
    with the new value; two calls in a row give back the value before. *)
Theorem onToggleShowHide_spec (w : World) :
  let w' := exec onToggleShowHide w in
  isOpened w' = negb (isOpened w) /\
  FireOpenedChange (negb (isOpened w)) ∈ emitted onToggleShowHide w /\
  isOpened (exec onToggleShowHide w') = isOpened w.
Proof.
  assert (T : forall w, isOpened (exec onToggleShowHide w) = negb (isOpened w)).
  { intros v. unfold onToggleShowHide. rewrite exec_bind_getState. unfold isOpened at 2.
    destruct (opened (state (this v))); [apply hide_closed|apply show_opened]. }
  intros w'. split; [apply T|]. split; [|subst w'; rewrite !T; apply negb_involutive].
  unfold emitted. fold w'. subst w'. unfold onToggleShowHide. rewrite exec_bind_getState.
  unfold isOpened. destruct (opened (state (this w))) eqn:Ho.
  - destruct (hidePopup_opened_change w Ho) as (l & El).
    change State.hide with hidePopup. rewrite El, drop_app_length.
    apply elem_of_app. right. apply list_elem_of_here.
  - rewrite (show_closed_run w Ho). unfold exec at 1, emit, modify. cbn [snd log set_log].
    assert (K : steps (Emits (fun _ => True)) (updatePopup true)) by emits ltac:(exact I).
    destruct (K (settledState true w)) as (l & El & _). rewrite El.
    change (log (settledState true w)) with (log w). rewrite <- app_assoc, drop_app_length.
    apply elem_of_app. right. apply list_elem_of_here.
Qed.

Lemma hidePopup_closed_silent (w : World) :
  opened (state (this w)) = false -> log (exec hidePopup w) = log w.
Proof.
  intros Ho. unfold exec, hidePopup. rewrite State_hide_run, Ho. reflexivity.
Qed.

(** X18: [onCancelShow()] leaves the popup not opened and no show pending; it
    fires [opened-change] with [false] when the popup was opened and nothing
    otherwise.  [onImmediateHide()] with [keepVisible] set only sets
    [preventedHiding]; without it the popup is not opened afterwards, and
    [opened-change] is fired with [false] when it was opened and nothing
    otherwise. *)
Theorem onCancelShow_onImmediateHide_spec (w : World) :
  let w1 := exec onCancelShow w in
  let w2 := exec onImmediateHide w in
  isOpened w1 = false /\
  willShowSoon (state (this w1)) = false /\
  (if isOpened w then FireOpenedChange false ∈ emitted onCancelShow w
   else emitted onCancelShow w = []) /\
  (if keepVisible (options (this w))
   then w2 = set_this (set_preventedHiding true (this w)) w
   else isOpened w2 = false /\
        if isOpened w then FireOpenedChange false ∈ emitted onImmediateHide w
        else emitted onImmediateHide w = []).
Proof.
  intros w1 w2. subst w1 w2. unfold emitted, onCancelShow, onImmediateHide.
  rewrite !exec_bind_getState. unfold getOptions. rewrite !exec_bind_read.
  unfold isOpened.
  destruct (opened (state (this w))) eqn:Ho.
  - split; [apply hide_closed|].
    split.
    { unfold exec, hidePopup. rewrite State_hide_run, Ho.
      pose proof (stateFire_keeps_state do_hide (settledState false w)) as K.
      unfold Keeps, exec in K. cbv beta in K. change (stateFire do_hide) with doHidePopup in K.
      rewrite K. reflexivity. }
    destruct (hidePopup_opened_change w Ho) as (l & El).
    split; [rewrite El, drop_app_length; apply elem_of_app; right; apply list_elem_of_here|].
    destruct (keepVisible (options (this w))); [reflexivity|].
    split; [apply hide_closed|].
    rewrite El, drop_app_length; apply elem_of_app; right; apply list_elem_of_here.
  - split.
    { unfold State.willNotShow, PopupStateClass.willNotShow. rewrite exec_bind_getState.
      destruct (showTimeout (state (this w))); exact Ho. }
    split.
    { unfold State.willNotShow, PopupStateClass.willNotShow. rewrite exec_bind_getState.
      destruct (showTimeout (state (this w))); reflexivity. }
    split.
    { unfold State.willNotShow, PopupStateClass.willNotShow. rewrite exec_bind_getState.
      destruct (showTimeout (state (this w))); apply drop_all. }
    destruct (keepVisible (options (this w))); [reflexivity|].
    split; [apply hide_closed|].
    rewrite (hidePopup_closed_silent w Ho). apply drop_all.
Qed.

Lemma showPopupLater_keeps_binder_trigger :
  steps (Keeps (fun w => b_trigger (binder (this w)))) showPopupLater.
Proof. keeps. Qed.

Lemma showPopupLater_keeps_enterBound :
  steps (Keeps (fun w => b_enterBound (binder (this w)))) showPopupLater.
Proof. keeps. Qed.

(** X19: [afterConnectCallback()] gives the binder the configured trigger
    type and binds the enter listeners.  Without [showImmediately] it does
    nothing else; with it, it goes on as [showPopupLater()] does in the
    world where the binder has the configured trigger already.  So, on a
    binding that is not opened and has no show pending, the popup is opened
    at once when the configured trigger is [click] or [focus], whatever the
    trigger of the binder was before; with another trigger, a positive
    [showDelay] and no same-keyed popup open, the popup is not opened and
    one show timer with [showDelay] is scheduled. *)
Theorem afterConnectCallback_spec (w : World) :
  let o := options (this w) in
  let w0 := set_this (set_binder (set_b_enterBound true (set_b_trigger (trigger o)
                                                           (binder (this w)))) (this w))
              (set_log (log w ++ [BinderSetTriggerType (trigger o); BinderBindEnter]) w) in
  let w' := exec afterConnectCallback w in
  b_trigger (binder (this w')) = trigger o /\
  b_enterBound (binder (this w')) = true /\
  (showImmediately o = false -> afterConnectCallback w = (Ok tt, w0)) /\
  (showImmediately o = true -> afterConnectCallback w = showPopupLater w0) /\
  (showImmediately o = true ->
   opened (state (this w)) = false -> willShowSoon (state (this w)) = false ->
   match trigger o with
   | click | focus => isOpened w' = true
   | _ =>
       showDelay o > 0 -> sameKeyedPopupOpen w = false ->
       isOpened w' = false /\
       timeouts w' = timeouts w ++ [mkTimeout showTimeoutFn (showDelay o) true]
   end).
Proof.
  intros o w0 w'.
  assert (E : afterConnectCallback w
              = if showImmediately o then showPopupLater w0 else (Ok tt, w0)).
  { unfold afterConnectCallback, Binder.setTriggerType, Binder.bindEnter. run. fields.
    fold o. rewrite <- app_assoc. destruct (showImmediately o); reflexivity. }
  assert (E' : w' = if showImmediately o then exec showPopupLater w0 else w0).
  { subst w'. unfold exec. rewrite E. destruct (showImmediately o); reflexivity. }
  split.
  { rewrite E'. destruct (showImmediately o); [|reflexivity].
    rewrite (showPopupLater_keeps_binder_trigger w0). reflexivity. }
  split.
  { rewrite E'. destruct (showImmediately o); [|reflexivity].
    rewrite (showPopupLater_keeps_enterBound w0). reflexivity. }
  split; [intros Hi; rewrite E, Hi; reflexivity|].
  split; [intros Hi; rewrite E, Hi; reflexivity|].
  intros Hi Ho Hs. rewrite Hi in E'.
  assert (Hb : opened (state (this w0)) || willShowSoon (state (this w0)) = false)
    by (subst w0; cbn; rewrite Ho, Hs; reflexivity).
  assert (Ed : spec_effectiveShowDelay w0
               = if sameKeyedPopupOpen w then 0
                 else match trigger o with click | focus => 0 | _ => showDelay o end).
  { reflexivity. }
  destruct (State_willShow_unblocked (spec_effectiveShowDelay w0) w0 Hb) as (Hr & H0 & H1).
  assert (Ex : w' = exec Binder.bindLeaveBeforeShow
                      (exec (State.willShow (spec_effectiveShowDelay w0)) w0)).
  { rewrite E'. unfold exec at 1. rewrite showPopupLater_delay.
    fold (exec (let* willShow := State.willShow (spec_effectiveShowDelay w0) in
                if willShow then Binder.bindLeaveBeforeShow else ret tt) w0).
    rewrite (exec_bind _ _ w0 true Hr). reflexivity. }
  assert (Zero : spec_effectiveShowDelay w0 <= 0 -> isOpened w' = true).
  { intros Hz. rewrite Ex, (H0 Hz). apply (show_opened w0). }
  destruct (trigger o) eqn:Et.
  1,4,5: intros Hd Hk; rewrite Hk in Ed;
         destruct (H1 ltac:(rewrite Ed; exact Hd)) as (T1 & _ & T3 & _);
         rewrite Ex; rewrite Ed in T1, T3 |- *; split; [exact T3|exact T1].
  all: apply Zero; rewrite Ed; destruct (sameKeyedPopupOpen w); lia.
Qed.

(** ** The layout watcher *)

Lemma doingHidePopup_end_unwatched (w : World) :
  unwatchRect (this w) = None ->
  watching (dom (exec doingHidePopup_end w)) = watching (dom w).
Proof.
  intros Hu. unfold exec, doingHidePopup_end, Binder.unbindLeave, callUnwatchRect.
  go. rewrite Hu. go. reflexivity.
Qed.

(** X20: the layout watcher after a report.  [LayoutWatcher.watch] is
    modelled as the specification describes it: a watcher stays registered
    until the function that [watch] returned is called.  When the rect of
    the trigger changes while the popup is opened, the trigger is in the
    viewport and the alignment succeeds, [onTriggerRectChanged()] leaves the
    popup opened and replaces the function in [unwatchRect] by [noop]
    without calling it: the watcher is still registered, and neither
    [beforeDisconnectCallback()] nor, without a transition, [hidePopup()]
    releases it afterwards. *)
Theorem rect_change_forgets_watcher (w : World) (p i : nat) :
  opened (state (this w)) = true -> popup (this w) = Some p ->
  unwatchRect (this w) = Some i -> i ∈ watching (dom w) ->
  rectIntersectsViewport (dom w) = true -> alignable (dom w) = true ->
  let w1 := exec onTriggerRectChanged w in
  isOpened w1 = true /\
  unwatchRect (this w1) = None /\
  i ∈ watching (dom w1) /\
  i ∈ watching (dom (exec beforeDisconnectCallback w1)) /\
  (transition (options (this w)) = None -> i ∈ watching (dom (exec hidePopup w1))).
Proof.
  intros Ho Hp Hu Hi Hr Ha w1.
  assert (E1 : w1 = set_this (set_unwatchRect None (this (alignedWorld w p)))
                      (alignedWorld w p)).
  { subst w1. unfold exec. rewrite onTriggerRectChanged_run, Hr.
    rewrite bind_run, bind_run, alignPopup_run, Ho, Hp, Ha. reflexivity. }
  assert (Ed : dom w1 = dom w) by (rewrite E1; cbn [dom set_this]; apply alignedWorld_dom).
  assert (Eu : unwatchRect (this w1) = None) by (rewrite E1; reflexivity).
  assert (Eo : opened (state (this w1)) = true).
  { rewrite E1. cbn [this set_this state set_unwatchRect]. rewrite alignedWorld_state. exact Ho. }
  split; [exact Eo|]. split; [exact Eu|]. split; [rewrite Ed; exact Hi|].
  split.
  - unfold exec at 1. rewrite beforeDisconnectCallback_run. cbn [snd].
    rewrite doingHidePopup_end_unwatched
      by (cbn [settledState this set_this set_state unwatchRect]; rewrite removedWorld_this; exact Eu).
    change (watching (dom (settledState false (removedWorld w1))))
      with (watching (dom (removedWorld w1))).
    unfold removedWorld. destruct (popup (this w1)); rewrite ?Eo; cbn; rewrite Ed; exact Hi.
  - intros Ht.
    assert (Et : transition (options (this w1)) = None).
    { rewrite E1. cbn [this set_this options set_unwatchRect]. rewrite alignedWorld_options.
      exact Ht. }
    change hidePopup with State.hide. rewrite (hide_opened_run w1 Eo).
    unfold exec at 1. rewrite doHidePopup_run.
    change (transition (options (this (settledState false w1))))
      with (transition (options (this w1))). rewrite Et. cbn [snd].
    change (watching (dom (exec (emit (FireOpenedChange false)) ?x))) with (watching (dom x)).
    rewrite doingHidePopup_end_unwatched by exact Eu.
    change (watching (dom (settledState false w1))) with (watching (dom w1)).
    rewrite Ed. exact Hi.
Qed.

(** ** The theorems at concrete worlds *)

Lemma delayed_show_witness :
  isOpened (exec (State.fireTimeout (length (timeouts (connected 0 noOptions plainDom))))
              (exec showPopupLater (connected 0 noOptions plainDom))) = true.
Proof.
  refine (proj1 (proj2 (proj2 (proj2 (delayed_show (connected 0 noOptions plainDom) _ _ _)))));
    vm_compute; reflexivity.
Defined.

Lemma canceled_show_witness :
  State.fireTimeout (length (timeouts (connected 0 noOptions plainDom)))
    (exec onCancelShow (exec showPopupLater (connected 0 noOptions plainDom)))
  = (Ok tt, exec onCancelShow (exec showPopupLater (connected 0 noOptions plainDom))).
Proof.
  refine (proj2 (proj2 (proj2 (proj2 (canceled_show (connected 0 noOptions plainDom) _ _ _)))));
    vm_compute; reflexivity.
Defined.

Lemma delayed_hide_witness :
  isOpened (exec (State.fireTimeout (length (timeouts (shown 0 noOptions plainDom))))
              (exec hidePopupLater (shown 0 noOptions plainDom))) = false.
Proof.
  refine (proj1 (proj2 (proj2 (proj2 (delayed_hide (shown 0 noOptions plainDom) _ _ _)))));
    vm_compute; reflexivity.
Defined.

Lemma canceled_hide_witness :
  emitted showPopup (exec hidePopupLater (shown 0 noOptions plainDom)) = [].
Proof.
  refine (proj1 (canceled_hide (shown 0 noOptions plainDom) _ _ _)); vm_compute; reflexivity.
Defined.

Lemma appendPopup_spec_witness :
  unwatchRect (this (exec appendPopup (shown 0 noOptions plainDom)))
    = Some (watchCount (dom (shown 0 noOptions plainDom))) /\
  FireOpenedChange false ∈ emitted appendPopup unalignable.
Proof.
  split.
  - refine (proj1 (proj1 (proj2 (proj2 (proj2
              (appendPopup_spec (shown 0 noOptions plainDom) 0 _ _)))) _));
      vm_compute; reflexivity.
  - refine (proj2 (proj2 (proj2 (proj2 (proj2 (proj2
              (appendPopup_spec unalignable 0 _ _)))) _)));
      vm_compute; reflexivity.
Defined.

Lemma updatePopup_resume_shows_witness :
  popup (this (exec updatePopup_resume (exec showPopup (connected 0 noOptions plainDom))))
    = Some 0%nat.
Proof.
  refine (proj1 (proj2 (updatePopup_resume_shows
                          (exec showPopup (connected 0 noOptions plainDom)) 0 0 _ _ _)));
    vm_compute; reflexivity.
Defined.

Lemma hide_cleanup_witness :
  pending (exec hidePopup (shown 0 noOptions plainDom))
    = pending (shown 0 noOptions plainDom) ++ [ResumeDoingHidePopup].
Proof.
  refine (proj1 (proj2 (proj2 (proj2 (hide_cleanup (shown 0 noOptions plainDom) true _)))
                  fade _)); vm_compute; reflexivity.
Defined.

Lemma beforeDisconnectCallback_spec_witness :
  0%nat ∉ watching (dom (exec beforeDisconnectCallback (afterEvents plainDom shownEvents))).
Proof.
  refine (proj1 (proj2 (proj2 (proj2 (proj2
            (beforeDisconnectCallback_spec plainDom shownEvents 0))))) 0%nat _);
    vm_compute; reflexivity.
Defined.

Lemma clearContent_spec_witness :
  0%nat ∉ watching (dom (exec clearContent (afterEvents plainDom shownEvents))).
Proof.
  refine (proj1 (proj2 (proj2 (clearContent_spec plainDom shownEvents 0))) 0%nat _);
    vm_compute; reflexivity.
Defined.

Lemma afterConnectCallback_spec_witness :
  afterConnectCallback
    (exec (update 0 (withShowImmediately true noOptions)) (newWorld plainDom))
  = showPopupLater
      (set_this
         (set_binder
            (set_b_enterBound true
               (set_b_trigger
                  (trigger (options (this (exec (update 0 (withShowImmediately true noOptions))
                                             (newWorld plainDom)))))
                  (binder (this (exec (update 0 (withShowImmediately true noOptions))
                                   (newWorld plainDom))))))
            (this (exec (update 0 (withShowImmediately true noOptions)) (newWorld plainDom))))
         (set_log
            (log (exec (update 0 (withShowImmediately true noOptions)) (newWorld plainDom))
             ++ [BinderSetTriggerType
                   (trigger (options (this (exec (update 0 (withShowImmediately true noOptions))
                                              (newWorld plainDom)))));
                 BinderBindEnter])
            (exec (update 0 (withShowImmediately true noOptions)) (newWorld plainDom)))).
Proof.
  refine (proj1 (proj2 (proj2 (proj2
            (afterConnectCallback_spec
               (exec (update 0 (withShowImmediately true noOptions)) (newWorld plainDom)))))) _);
    vm_compute; reflexivity.
Defined.

Lemma rect_change_forgets_watcher_witness :
  unwatchRect (this (exec onTriggerRectChanged (shown 0 noOptions plainDom))) = None /\
  0%nat ∈ watching (dom (exec onTriggerRectChanged (shown 0 noOptions plainDom))).
Proof.
  split.
  - refine (proj1 (proj2
              (rect_change_forgets_watcher (shown 0 noOptions plainDom) 0 0 _ _ _ _ _ _)));
      vm_compute; reflexivity.
  - refine (proj1 (proj2 (proj2
              (rect_change_forgets_watcher (shown 0 noOptions plainDom) 0 0 _ _ _ _ _ _))));
      vm_compute; reflexivity.
Defined.
